(** * Task extraction core: LRU result cache, extraction pipeline,
      batch coordinators and the retry loop.

    Shallow embedding of
      - src/backend/nlp/core/task_extraction.py
          (_LRUCache, TaskExtractor.extract_task, validate_task,
           batch_extract_tasks)
      - src/backend/nlp/services/communication_processor.py
          (CommunicationProcessor.process_communication, batch_process)
      - the input checks at the head of BERTClassifier.classify and
        TaskNERModel.extract_entities (src/backend/nlp/models).

    Conventions of the embedding.
      - A finite Python float is modelled by the exact rational it
        denotes: rounding and overflow are outside the model.  NaN and
        the two infinities are values of [pyfloat]; the confidences the
        models produce are finite.
      - Python [str] is modelled by [string] read as a sequence of ASCII
        code points ([upper], [strip] act on ASCII letters and ASCII
        white space).
      - Python dictionaries are insertion-ordered association lists.
      - A raised exception is the left injection of a sum type.
      - Neural inference, tokenisation and text cleaning are oracles
        (fields of [Collaborators]); everything around them is code. *)

From Stdlib Require Import ZArith QArith Lqa Lia Bool String Ascii List Permutation Sorted DecimalString.
From stdpp Require Import base option list strings.
Import ListNotations.

Local Open Scope string_scope.
Local Open Scope list_scope.
Set Warnings "-register-all".

(* ===================================================================== *)
(** ** Python values, exceptions and dictionaries                         *)
(* ===================================================================== *)

Module Py.

(** The exception classes the modelled code raises. *)
Inductive exn : Type :=
| ValueError (msg : string)
| RuntimeError (msg : string)
| KeyError (msg : string)
| IndexError (msg : string)
| OtherError (msg : string).

(** [str(e)] of an exception.  [str(KeyError(m))] is the [repr] of [m],
    that is [m] between single quotes. *)
Definition str_of_exn (e : exn) : string :=
  match e with
  | ValueError m | RuntimeError m | IndexError m | OtherError m => m
  | KeyError m => "'" ++ m ++ "'"
  end.

(** A computation that may raise. *)
Definition result (A : Type) : Type := (exn + A)%type.
Definition ret {A} (a : A) : result A := inr a.
Definition raise {A} (e : exn) : result A := inl e.
Definition bind {A B} (m : result A) (k : A -> result B) : result B :=
  match m with
  | inl e => inl e
  | inr a => k a
  end.

Definition is_ok {A} (m : result A) : bool :=
  match m with inr _ => true | inl _ => false end.

(** [a < b] on finite floats. *)
Definition Qlt_bool (a b : Q) : bool := negb (Qle_bool b a).

(** A Python float: a finite one is the rational it denotes. *)
Inductive pyfloat : Type :=
| Finite (q : Q)
| NaN
| PosInf
| NegInf.
Coercion Finite : Q >-> pyfloat.

(** [a < b] on floats: every comparison with NaN is false. *)
Definition float_lt (a b : pyfloat) : bool :=
  match a, b with
  | NaN, _ | _, NaN => false
  | Finite x, Finite y => Qlt_bool x y
  | _, NegInf => false
  | NegInf, _ => true
  | PosInf, _ => false
  | Finite _, PosInf => true
  end.

(** Dynamically typed values, as far as the task records need them. *)
Inductive value : Type :=
| VNone
| VBool (b : bool)
| VStr (s : string)
| VFloat (f : pyfloat)
| VDict (d : list (string * value)).
Arguments VFloat f%_Q.

Definition dict : Type := list (string * value).

(** [key in d] and [d[key]] / [d.get(key)]. *)
Fixpoint dict_get (key : string) (d : dict) : option value :=
  match d with
  | [] => None
  | (k, v) :: d' => if String.eqb key k then Some v else dict_get key d'
  end.

Definition dict_mem (key : string) (d : dict) : bool :=
  match dict_get key d with Some _ => true | None => false end.

(** [d[key] = v]: update in place when the key exists, else append. *)
Fixpoint dict_set (key : string) (v : value) (d : dict) : dict :=
  match d with
  | [] => [(key, v)]
  | (k, w) :: d' =>
      if String.eqb key k then (k, v) :: d' else (k, w) :: dict_set key v d'
  end.

(** Truth value of an object ([bool(x)] / [if x]). *)
Definition truthy (v : value) : bool :=
  match v with
  | VNone => false
  | VBool b => b
  | VStr s => negb (String.eqb s "")
  | VFloat (Finite q) => negb (Qeq_bool q 0)
  | VFloat _ => true
  | VDict d => match d with [] => false | _ => true end
  end.

Definition is_str_or_none (v : value) : bool :=
  match v with VStr _ | VNone => true | _ => false end.

Definition is_dict (v : value) : bool :=
  match v with VDict _ => true | _ => false end.

(** [max(a, b)] on floats. *)
Definition max_float (a b : Q) : Q := if Qlt_bool a b then b else a.

(** ASCII white space as [str.strip] and [str.isspace] see it. *)
Definition is_space (c : ascii) : bool :=
  let n := nat_of_ascii c in
  (((9 <=? n) && (n <=? 13)) || ((28 <=? n) && (n <=? 32)))%nat.

Fixpoint all_space (s : string) : bool :=
  match s with
  | EmptyString => true
  | String c s' => is_space c && all_space s'
  end.

(** [not text.strip()]: the text is empty or white space only. *)
Definition is_blank (s : string) : bool := all_space s.

Definition upper_ascii (c : ascii) : ascii :=
  let n := nat_of_ascii c in
  if ((97 <=? n) && (n <=? 122))%nat then ascii_of_nat (n - 32) else c.

(** [s.upper()] on ASCII text. *)
Fixpoint upper (s : string) : string :=
  match s with
  | EmptyString => EmptyString
  | String c s' => String (upper_ascii c) (upper s')
  end.

(** [needle in haystack] for strings. *)
Fixpoint contains (needle haystack : string) : bool :=
  String.prefix needle haystack
  || match haystack with
     | EmptyString => false
     | String _ h' => contains needle h'
     end.

(** [str(n)] for an integer. *)
Definition str_of_Z (n : Z) : string := NilZero.string_of_int (Z.to_int n).

(** *** [float(s)] on a string

    The string is stripped; after an optional sign it is [inf],
    [infinity] or [nan] in any case, or a decimal literal: digits with
    single underscores between them, an optional point, and an optional
    exponent.  Anything else is not a float. *)

Definition is_digit (c : ascii) : bool :=
  let n := nat_of_ascii c in ((48 <=? n) && (n <=? 57))%nat.

Definition digit_value (c : ascii) : Z := Z.of_nat (nat_of_ascii c - 48).

Definition lower_ascii (c : ascii) : ascii :=
  let n := nat_of_ascii c in
  if ((65 <=? n) && (n <=? 90))%nat then ascii_of_nat (n + 32) else c.

Fixpoint lstrip (l : list ascii) : list ascii :=
  match l with
  | c :: l' => if is_space c then lstrip l' else l
  | [] => []
  end.

(** [s.strip()] on the characters of [s]. *)
Definition strip (l : list ascii) : list ascii :=
  rev (lstrip (rev (lstrip l))).

(** An optional sign: whether it is a minus, and the rest. *)
Definition sign (l : list ascii) : bool * list ascii :=
  match l with
  | c :: l' =>
      if Ascii.eqb c "-" then (true, l')
      else if Ascii.eqb c "+" then (false, l')
      else (false, l)
  | [] => (false, [])
  end.

(** After a first digit: more digits, each after at most one
    underscore.  [acc] is the number read so far and [n] the number of
    its digits. *)
Fixpoint digits_rest (acc : Z) (n : nat) (l : list ascii)
    : Z * nat * list ascii :=
  match l with
  | c :: l' =>
      if is_digit c then digits_rest (10 * acc + digit_value c) (S n) l'
      else if Ascii.eqb c "_" then
        match l' with
        | d :: l'' =>
            if is_digit d
            then digits_rest (10 * acc + digit_value d) (S n) l''
            else (acc, n, l)
        | [] => (acc, n, l)
        end
      else (acc, n, l)
  | [] => (acc, n, l)
  end.

(** A digit part that continues the number [acc]: the number, how many
    digits were added, and the rest. *)
Definition digitpart (acc : Z) (l : list ascii)
    : option (Z * nat * list ascii) :=
  match l with
  | c :: l' =>
      if is_digit c
      then Some (digits_rest (10 * acc + digit_value c) 1 l')
      else None
  | [] => None
  end.

(** The digits of [12.5], [12.], [12] or [.5]: the number all the
    digits make, the number of digits after the point, and the rest. *)
Definition mantissa (l : list ascii) : option (Z * nat * list ascii) :=
  match digitpart 0 l with
  | Some (m, _, rest) =>
      match rest with
      | c :: rest' =>
          if Ascii.eqb c "." then
            match digitpart m rest' with
            | Some (m', k, rest'') => Some (m', k, rest'')
            | None => Some (m, 0%nat, rest')
            end
          else Some (m, 0%nat, rest)
      | [] => Some (m, 0%nat, [])
      end
  | None =>
      match l with
      | c :: rest' =>
          if Ascii.eqb c "." then digitpart 0 rest' else None
      | [] => None
      end
  end.

(** The exponent, 0 when there is none: [e] or [E], a sign, digits. *)
Definition exponent (l : list ascii) : option (Z * list ascii) :=
  match l with
  | c :: l' =>
      if Ascii.eqb (lower_ascii c) "e" then
        let '(negative, l'') := sign l' in
        match digitpart 0 l'' with
        | Some (e, _, rest) => Some (if negative then (- e)%Z else e, rest)
        | None => None
        end
      else Some (0%Z, l)
  | [] => Some (0%Z, [])
  end.

(** [m * 10 ** e] as a rational. *)
Definition scale (m e : Z) : Q :=
  if (0 <=? e)%Z then inject_Z (m * 10 ^ e)
  else Qmake m (Z.to_pos (10 ^ (- e))).

Definition float_of_string (s : string) : option pyfloat :=
  let '(negative, l) := sign (strip (list_ascii_of_string s)) in
  let word := string_of_list_ascii (map lower_ascii l) in
  if String.eqb word "inf" || String.eqb word "infinity"
  then Some (if negative then NegInf else PosInf)
  else if String.eqb word "nan" then Some NaN
  else
    match mantissa l with
    | Some (m, k, rest) =>
        match exponent rest with
        | Some (e, []) =>
            Some (Finite (scale (if negative then (- m)%Z else m)
                            (e - Z.of_nat k)))
        | _ => None
        end
    | None => None
    end.

(** [range(0, stop, step)] for a positive [step]. *)
Definition range_step (stop step : nat) : list nat :=
  map (fun k => k * step)%nat (seq 0 ((stop + step - 1) / step)%nat).

(** The local generator [chunker] of both batch functions:
    [for pos in range(0, len(seq), size): yield pos, seq[pos:pos+size]]. *)
Definition chunker {A} (sequence : list A) (size : nat) : list (nat * list A) :=
  map (fun pos => (pos, take size (drop pos sequence)))
      (range_step (length sequence) size).


(** [results[idx] = data] on a list; IndexError out of range. *)
Definition list_assign {A} (results : list A) (idx : nat) (data : A)
    : result (list A) :=
  if (idx <? length results)%nat then ret (<[idx := data]> results)
  else raise (IndexError "list assignment index out of range").

End Py.
Import Py.

(* ===================================================================== *)
(** ** _LRUCache                                                          *)
(* ===================================================================== *)

Module _LRUCache.
Section Cache.
Context {V : Type}.

(** [cache_map] is the OrderedDict, oldest entry first. *)
Record t : Type := mk { capacity : Z; cache_map : list (string * V) }.

(** [__init__] *)
Definition init (cap : Z) : t := mk cap [].

Fixpoint find (key : string) (m : list (string * V)) : option V :=
  match m with
  | [] => None
  | (k, v) :: m' => if String.eqb key k then Some v else find key m'
  end.

(** [OrderedDict.pop(key)], the entry only. *)
Fixpoint remove (key : string) (m : list (string * V)) : list (string * V) :=
  match m with
  | [] => []
  | (k, v) :: m' =>
      if String.eqb key k then m' else (k, v) :: remove key m'
  end.

(** [get]: on a hit the entry moves to the end. *)
Definition get (key : string) (c : t) : option V * t :=
  match find key (cache_map c) with
  | None => (None, c)
  | Some value =>
      (Some value,
       mk (capacity c) (remove key (cache_map c) ++ [(key, value)]))
  end.

(** [set]: [popitem(last=False)] raises KeyError on an empty
    OrderedDict, which happens when [capacity <= 0]. *)
Definition set (key : string) (value : V) (c : t) : result t :=
  match find key (cache_map c) with
  | Some _ =>
      ret (mk (capacity c) (remove key (cache_map c) ++ [(key, value)]))
  | None =>
      if (capacity c <=? Z.of_nat (length (cache_map c)))%Z then
        match cache_map c with
        | [] => raise (KeyError "dictionary is empty")
        | _ :: rest => ret (mk (capacity c) (rest ++ [(key, value)]))
        end
      else ret (mk (capacity c) (cache_map c ++ [(key, value)]))
  end.

(** A cache operation, and a run of operations in program order.  A
    [set] that raises leaves the cache as it was. *)
Inductive op : Type :=
| OpGet (key : string)
| OpSet (key : string) (value : V).

Definition op_key (o : op) : string :=
  match o with OpGet k => k | OpSet k _ => k end.

Definition step (c : t) (o : op) : t :=
  match o with
  | OpGet k => snd (get k c)
  | OpSet k v => match set k v c with inr c' => c' | inl _ => c end
  end.

Definition run (ops : list op) (c : t) : t := fold_left step ops c.

Definition keys (c : t) : list string := map fst (cache_map c).

(** How many operations ago [key] was last touched, reading the
    history most recent first. *)
Fixpoint age (key : string) (history : list op) : option nat :=
  match history with
  | [] => None
  | o :: older =>
      if String.eqb key (op_key o) then Some 0
      else match age key older with
           | Some n => Some (S n)
           | None => None
           end
  end.

(** [older history k1 k2]: both keys were touched, [k1] less recently
    than [k2]. *)
Definition older (history : list op) (k1 k2 : string) : Prop :=
  match age k1 history, age k2 history with
  | Some a1, Some a2 => (a2 < a1)%nat
  | _, _ => False
  end.

(** [set] of each pair in turn. *)
Definition set_all (kvs : list (string * V)) : list op :=
  map (fun kv => OpSet (fst kv) (snd kv)) kvs.

(** The recency order of the OrderedDict after the operations of
    [history]: distinct keys, each touched, least recently used first. *)
Definition recency_ordered (history : list op) (c : t) : Prop :=
  NoDup (keys c)
  /\ StronglySorted (older history) (keys c)
  /\ Forall (fun k => is_Some (age k history)) (keys c).

End Cache.
Arguments t : clear implicits.
Arguments op : clear implicits.
End _LRUCache.

(* ===================================================================== *)
(** ** TaskExtractor                                                      *)
(* ===================================================================== *)

Module TaskExtractor.

(** What [intent_classifier.classify] returns, as far as [extract_task]
    reads it.  [None] in [cls_confidence] is an absent "confidence" key;
    [None] in [cls_label] is an absent key or a [None] label. *)
Record ClassificationResult : Type := mkClassification {
  cls_label : option string;
  cls_confidence : option Q
}.

(** One entry of [ner_result["entities"]].  [None] is an absent key of
    [ent.get(..)]; ["confidence"] is read with [e["confidence"]] and is
    always there. *)
Record Entity : Type := mkEntity {
  ent_entity : option string;
  ent_token : option string;
  ent_confidence : Q
}.

(** A reference to a result dictionary on the heap. *)
Definition loc : Type := nat.

(** Calls made to the collaborators, in program order. *)
Inductive call : Type :=
| CallCleanText (text format_type : string)
| CallClassify (text : string)
| CallExtractEntities (text : string).

Section Extractor.
Context {Env : Type}.

(** The collaborators of the pipeline.  [clean_text] is a pure function
    of the text and the format; the two models may fail transiently, so
    they thread the state [Env] of the outside world. *)
Record Collaborators : Type := mkCollaborators {
  clean_text : string -> string -> result string;
  classify : string -> Q -> Env -> result ClassificationResult * Env;
  extract_entities : string -> Q -> Env -> result (list Entity) * Env
}.

(** The mutable state of one [TaskExtractor] and of the objects it hands
    out: the LRU cache holds references into [heap]. *)
Record state : Type := mkState {
  cache : _LRUCache.t loc;
  heap : list dict;
  env : Env;
  calls : list call
}.

Definition init_state (cache_size : Z) (e : Env) : state :=
  mkState (_LRUCache.init cache_size) [] e [].

(** [float(np.mean(xs))] *)
Definition mean (xs : list Q) : Q :=
  (fold_right Qplus 0 xs / inject_Z (Z.of_nat (length xs)))%Q.

Definition intent_confidence (cls : ClassificationResult) : Q :=
  match cls_confidence cls with Some q => q | None => 0%Q end.

Definition entity_confidence (entities_list : list Entity) : Q :=
  match entities_list with
  | [] => 0%Q
  | _ => mean (map ent_confidence entities_list)
  end.

(** Step 5: [(intent_conf + entity_conf) / 2.0]. *)
Definition combined_confidence (cls : ClassificationResult)
    (entities_list : list Entity) : Q :=
  ((intent_confidence cls + entity_confidence entities_list) / 2)%Q.

(** [d[key]] for a key of the dictionary literal of step 6. *)
Definition item (key : string) (d : dict) : value :=
  match dict_get key d with Some v => v | None => VNone end.

Definition initial_task (cls : ClassificationResult)
    (entities_list : list Entity) : dict :=
  [ ("title", VNone);
    ("description", VNone);
    ("assignee", VNone);
    ("deadline", VNone);
    ("priority", VNone);
    ("confidence_scores",
     VDict [ ("intent_confidence", VFloat (intent_confidence cls));
             ("entity_confidence", VFloat (entity_confidence entities_list));
             ("combined_confidence",
              VFloat (combined_confidence cls entities_list)) ]) ].

(** The body of [for ent in entities_list]. *)
Definition map_entity (extracted_task : dict) (ent : Entity) : dict :=
  let label := upper (match ent_entity ent with Some s => s | None => "" end) in
  let token_val := VStr (match ent_token ent with Some s => s | None => "" end) in
  if contains "TITLE" label && negb (truthy (item "title" extracted_task))
  then dict_set "title" token_val extracted_task
  else if contains "ASSIGNEE" label
          && negb (truthy (item "assignee" extracted_task))
  then dict_set "assignee" token_val extracted_task
  else if contains "DEADLINE" label
          && negb (truthy (item "deadline" extracted_task))
  then dict_set "deadline" token_val extracted_task
  else if contains "PRIORITY" label
          && negb (truthy (item "priority" extracted_task))
  then dict_set "priority" token_val extracted_task
  else extracted_task.

Definition map_entities (extracted_task : dict) (entities_list : list Entity)
    : dict :=
  fold_left map_entity entities_list extracted_task.

(** The description placeholder taken from the classification label. *)
Definition fill_description (cls : ClassificationResult)
    (extracted_task : dict) : dict :=
  if negb (truthy (item "description" extracted_task)) then
    match cls_label cls with
    | Some classified_label =>
        if negb (String.eqb classified_label "") then
          dict_set "description"
            (VStr ("Classified intent: " ++ classified_label)%string)
            extracted_task
        else
          dict_set "description" (VStr "No distinct classification label")
            extracted_task
    | None =>
        dict_set "description" (VStr "No distinct classification label")
          extracted_task
    end
  else extracted_task.

(** Steps 5 and 6 of [extract_task]: the task dictionary. *)
Definition build_task (cls : ClassificationResult)
    (entities_list : list Entity) : dict :=
  fill_description cls
    (map_entities (initial_task cls entities_list) entities_list).

Definition required_fields : list string :=
  [ "title"; "description"; "assignee"; "deadline"; "priority";
    "confidence_scores" ].

(** [float(x)] *)
Definition to_float (v : value) : result pyfloat :=
  match v with
  | VFloat f => ret f
  | VBool b => ret (Finite (if b then 1%Q else 0%Q))
  | VStr s =>
      match float_of_string s with
      | Some f => ret f
      | None => raise (ValueError "could not convert string to float")
      end
  | _ => raise (OtherError "TypeError: float() argument must be a string or a real number")
  end.

(** [validate_task] *)
Definition validate_task (task_data : dict) (confidence_threshold : Q)
    : result (bool * string * pyfloat) :=
  match List.find (fun f => negb (dict_mem f task_data)) required_fields with
  | Some f => ret (false, ("Missing required field: " ++ f)%string, Finite 0)
  | None =>
      if negb (is_str_or_none (item "title" task_data)) then
        ret (false, "Field 'title' must be a string or None.", Finite 0)
      else
        match item "confidence_scores" task_data with
        | VDict scores =>
            bind (to_float (match dict_get "combined_confidence" scores with
                            | Some v => v
                            | None => VFloat 0
                            end))
              (fun combined_conf =>
                 if float_lt combined_conf (Finite 0)
                    || float_lt (Finite 1) combined_conf
                 then ret (false,
                           "combined_confidence score is out of valid range [0,1].",
                           combined_conf)
                 else
                   let final_conf := combined_conf in
                   if float_lt final_conf (Finite confidence_threshold)
                   then ret (false, "Final confidence below threshold.",
                             final_conf)
                   else ret (true, "", final_conf))
        | _ => ret (false, "confidence_scores must be a dictionary.", Finite 0)
        end
  end.

(** The dictionary [extract_task] returns. *)
Definition result_data (extracted_task : dict) (is_valid : bool)
    (err_msg : string) (final_conf : pyfloat) : dict :=
  [ ("task_info", VDict extracted_task);
    ("valid", VBool is_valid);
    ("error", VStr err_msg);
    ("final_confidence", VFloat final_conf) ].

(** [result["task_info"]["confidence_scores"]["combined_confidence"]] *)
Definition stored_combined_confidence (result : dict) : option value :=
  match dict_get "task_info" result with
  | Some (VDict task_info) =>
      match dict_get "confidence_scores" task_info with
      | Some (VDict scores) => dict_get "combined_confidence" scores
      | _ => None
      end
  | _ => None
  end.

(** [result["task_info"][field]] *)
Definition stored_field (field : string) (result : dict) : option value :=
  match dict_get "task_info" result with
  | Some (VDict task_info) => dict_get field task_info
  | _ => None
  end.

Definition cache_key (format_type text : string) : string :=
  ("extract_task::" ++ format_type ++ "::" ++ text)%string.

Definition log_call (c : call) (st : state) : state :=
  mkState (cache st) (heap st) (env st) (calls st ++ [c]).

Definition with_env (e : Env) (st : state) : state :=
  mkState (cache st) (heap st) e (calls st).

Definition with_cache (c : _LRUCache.t loc) (st : state) : state :=
  mkState c (heap st) (env st) (calls st).

(** [result_data = {...}]: a new dictionary object. *)
Definition alloc (d : dict) (st : state) : loc * state :=
  (length (heap st), mkState (cache st) (heap st ++ [d]) (env st) (calls st)).

(** The caller changes the dictionary it was handed, in place. *)
Definition mutate (l : loc) (f : dict -> dict) (st : state) : state :=
  mkState (cache st) (alter f l (heap st)) (env st) (calls st).

(** [extract_task]: the returned reference is the cached object on a hit
    and the object just stored on a miss. *)
Definition extract_task (E : Collaborators) (confidence_threshold : Q)
    (text format_type : string) (use_cache : bool) (st : state)
    : result loc * state :=
  let key := cache_key format_type text in
  let '(cached_result, st) :=
    if use_cache then
      let '(v, c) := _LRUCache.get key (cache st) in (v, with_cache c st)
    else (None, st) in
  match cached_result with
  | Some l => (ret l, st)
  | None =>
      let st := log_call (CallCleanText text format_type) st in
      match clean_text E text format_type with
      | inl e => (raise e, st)
      | inr cleaned_text =>
          let st := log_call (CallClassify cleaned_text) st in
          let '(classification_result, e1) :=
            classify E cleaned_text confidence_threshold (env st) in
          let st := with_env e1 st in
          match classification_result with
          | inl e => (raise e, st)
          | inr cls =>
              let st := log_call (CallExtractEntities cleaned_text) st in
              let '(ner_result, e2) :=
                extract_entities E cleaned_text confidence_threshold (env st) in
              let st := with_env e2 st in
              match ner_result with
              | inl e => (raise e, st)
              | inr entities_list =>
                  let extracted_task := build_task cls entities_list in
                  match validate_task extracted_task confidence_threshold with
                  | inl e => (raise e, st)
                  | inr (is_valid, err_msg, final_conf) =>
                      let '(l, st) :=
                        alloc (result_data extracted_task is_valid err_msg
                                 final_conf) st in
                      if use_cache then
                        match _LRUCache.set key l (cache st) with
                        | inl e => (raise e, st)
                        | inr c => (ret l, with_cache c st)
                        end
                      else (ret l, st)
                  end
              end
          end
      end
  end.

(** The call went to one of the two models. *)
Definition is_model_call (c : call) : bool :=
  match c with
  | CallClassify _ | CallExtractEntities _ => true
  | CallCleanText _ _ => false
  end.

(** The call computes a fresh result: the cache is not consulted, or it
    has no entry for the key. *)
Definition cache_miss (use_cache : bool) (format_type text : string)
    (st : state) : Prop :=
  use_cache = false
  \/ _LRUCache.find (cache_key format_type text)
       (_LRUCache.cache_map (cache st)) = None.

End Extractor.
Arguments Collaborators : clear implicits.
Arguments state : clear implicits.

(** *** Views of the task dictionary used in the proofs *)

(** The four fields the entity loop writes. *)
Record fields : Type := mkFields {
  f_title : value;
  f_assignee : value;
  f_deadline : value;
  f_priority : value
}.

(** The task dictionary with the given fields, in the key order of the
    literal of step 6. *)
Definition task_of (fs : fields) (description : value) (scores : dict) : dict :=
  [ ("title", f_title fs);
    ("description", description);
    ("assignee", f_assignee fs);
    ("deadline", f_deadline fs);
    ("priority", f_priority fs);
    ("confidence_scores", VDict scores) ].

Definition no_fields : fields := mkFields VNone VNone VNone VNone.

(** The [confidence_scores] dictionary of step 6. *)
Definition scores_of (cls : ClassificationResult) (ents : list Entity) : dict :=
  [ ("intent_confidence", VFloat (intent_confidence cls));
    ("entity_confidence", VFloat (entity_confidence ents));
    ("combined_confidence", VFloat (combined_confidence cls ents)) ].

(** The description the placeholder rule writes. *)
Definition description_of (cls : ClassificationResult) : string :=
  match cls_label cls with
  | Some classified_label =>
      if String.eqb classified_label "" then "No distinct classification label"
      else ("Classified intent: " ++ classified_label)%string
  | None => "No distinct classification label"
  end.

Definition in_unit_interval (q : Q) : Prop := (0 <= q /\ q <= 1)%Q.

Definition fields_typed (fs : fields) : Prop :=
  is_str_or_none (f_title fs) = true
  /\ is_str_or_none (f_assignee fs) = true
  /\ is_str_or_none (f_deadline fs) = true
  /\ is_str_or_none (f_priority fs) = true.

(** The outcome of [validate_task] on a task the pipeline built. *)
Definition verdict (c threshold : Q) : bool * string * pyfloat :=
  if Qlt_bool c 0 || Qlt_bool 1 c then
    (false, "combined_confidence score is out of valid range [0,1].", Finite c)
  else if Qlt_bool c threshold then
    (false, "Final confidence below threshold.", Finite c)
  else (true, "", Finite c).

Definition label_of (ent : Entity) : string :=
  upper (match ent_entity ent with Some s => s | None => "" end).

Definition token_of (ent : Entity) : string :=
  match ent_token ent with Some s => s | None => "" end.

(** The entity loop on the four fields alone. *)
Definition step_fields (fs : fields) (ent : Entity) : fields :=
  let label := label_of ent in
  let token_val := VStr (token_of ent) in
  if contains "TITLE" label && negb (truthy (f_title fs))
  then mkFields token_val (f_assignee fs) (f_deadline fs) (f_priority fs)
  else if contains "ASSIGNEE" label && negb (truthy (f_assignee fs))
  then mkFields (f_title fs) token_val (f_deadline fs) (f_priority fs)
  else if contains "DEADLINE" label && negb (truthy (f_deadline fs))
  then mkFields (f_title fs) (f_assignee fs) token_val (f_priority fs)
  else if contains "PRIORITY" label && negb (truthy (f_priority fs))
  then mkFields (f_title fs) (f_assignee fs) (f_deadline fs) token_val
  else fs.

(** The keyword of each field, in the order of the [if]/[elif] chain. *)
Definition field_keywords : list (string * string) :=
  [ ("title", "TITLE"); ("assignee", "ASSIGNEE");
    ("deadline", "DEADLINE"); ("priority", "PRIORITY") ].

(** The entity's upper-cased label contains the keyword. *)
Definition matches (keyword : string) (ent : Entity) : bool :=
  contains keyword (label_of ent).

(** The label contains at most one of the four keywords. *)
Definition single_keyword (ent : Entity) : bool :=
  (length (List.filter (fun fk => matches (snd fk) ent) field_keywords) <=? 1)%nat.

(** First match wins, among the matching entities with a non-empty
    token: the token of the first such entity; the empty string when
    every matching entity has an empty token; [None] without a match. *)
Fixpoint first_match (keyword : string) (entities_list : list Entity) : value :=
  match entities_list with
  | [] => VNone
  | ent :: rest =>
      if matches keyword ent then
        if String.eqb (token_of ent) "" then
          match first_match keyword rest with
          | VNone => VStr ""
          | v => v
          end
        else VStr (token_of ent)
      else first_match keyword rest
  end.

(** A field that starts at [v], after the loop over [ents]. *)
Definition settle (v : value) (keyword : string) (ents : list Entity) : value :=
  if truthy v then v
  else match first_match keyword ents with
       | VNone => v
       | w => w
       end.

(** Modelled from the spec: [clamp(x, lo, hi)] of section 3. *)
Definition clamp (x lo hi : Q) : Q :=
  if Qlt_bool x lo then lo else if Qlt_bool hi x then hi else x.

(** *** batch_extract_tasks *)

Section Batch.
Context {R : Type}.

(** [run_item idx txt] is the outcome of the call
    [self.extract_task(txt, format_type, use_cache)] that the worker makes
    for the item at global index [idx].  The workers share the cache and
    run concurrently, so the outcome is taken per item. *)
Variable run_item : nat -> string -> result R.

(** [as_completed(tasks)]: the futures in the order they finish. *)
Variable as_completed :
  list (result (list (nat * R))) -> list (result (list (nat * R))).

(** [for i, txt in enumerate(chunk_texts)] of [batch_worker]: the first
    exception leaves the loop and becomes the outcome of the future. *)
Fixpoint batch_worker_loop (start_idx i : nat) (chunk_texts : list string)
    (chunk_results : list (nat * R)) : result (list (nat * R)) :=
  match chunk_texts with
  | [] => ret chunk_results
  | txt :: rest =>
      let idx := (start_idx + i)%nat in
      bind (run_item idx txt)
        (fun res =>
           batch_worker_loop start_idx (S i) rest (chunk_results ++ [(idx, res)]))
  end.

Definition batch_worker (start_idx : nat) (chunk_texts : list string)
    : result (list (nat * R)) :=
  batch_worker_loop start_idx 0 chunk_texts [].

(** The future of one chunk: [executor.submit(batch_worker, start_idx, chunk_texts)]. *)
Definition worker_of (c : nat * list string) : result (list (nat * R)) :=
  let '(start_idx, chunk_texts) := c in batch_worker start_idx chunk_texts.

(** [for future in as_completed(tasks): partial_results.extend(future.result())];
    [future.result()] re-raises the exception of the worker. *)
Fixpoint collect (completed : list (result (list (nat * R))))
    (partial_results : list (nat * R)) : result (list (nat * R)) :=
  match completed with
  | [] => ret partial_results
  | future :: rest =>
      bind future (fun chunk_out => collect rest (partial_results ++ chunk_out))
  end.

(** [for idx, data in partial_results: results[idx] = data] *)
Fixpoint store (partial_results : list (nat * R)) (results : list (option R))
    : result (list (option R)) :=
  match partial_results with
  | [] => ret results
  | (idx, data) :: rest =>
      bind (list_assign results idx (Some data)) (store rest)
  end.

(** [ThreadPoolExecutor(max_workers=..)]: the constructor rejects a
    number of workers that is not positive; [None] is the default of the
    library.  The number of workers bounds how many chunks run at once,
    not which of them run. *)
Definition ThreadPoolExecutor (max_workers : option Z) : result unit :=
  match max_workers with
  | Some n =>
      if (n <=? 0)%Z then raise (ValueError "max_workers must be greater than 0")
      else ret tt
  | None => ret tt
  end.

(** [batch_extract_tasks]; [max_workers] is [self.max_workers], read
    from the configuration by the constructor. *)
Definition batch_extract_tasks (max_workers : option Z) (texts : list string)
    (batch_size : Z) : result (list (option R)) :=
  if (batch_size <=? 0)%Z then
    raise (ValueError "Parameter 'batch_size' must be a positive integer.")
  else
    let results := replicate (length texts) None in
    bind (ThreadPoolExecutor max_workers) (fun _ =>
    let tasks := map worker_of (chunker texts (Z.to_nat batch_size)) in
    bind (collect (as_completed tasks) []) (fun partial_results =>
    store partial_results results)).

End Batch.

End TaskExtractor.

(* ===================================================================== *)
(** ** The input checks of the two models                                 *)
(* ===================================================================== *)

Module BERTClassifier.
Import TaskExtractor.

(** [classify(text, confidence_threshold, use_cache=False)].  [infer]
    stands for tokenisation, the network and the soft-max: it yields the
    predicted label and its probability, or raises. *)
Definition classify {Env} (infer : string -> Env -> result (string * Q) * Env)
    (text : string) (confidence_threshold : Q) (e : Env)
    : result ClassificationResult * Env :=
  if is_blank text then
    (raise (ValueError "Text must be a non-empty string for classification."), e)
  else if negb (Qlt_bool 0 confidence_threshold
                && Qle_bool confidence_threshold 1) then
    (raise (ValueError "confidence_threshold must be between 0 and 1."), e)
  else if (String.length text <? 3)%nat then
    (raise (ValueError "Text is too short to be processed by the BERT classifier."), e)
  else
    match infer text e with
    | (inl err, e') => (raise err, e')
    | (inr (predicted_label, max_confidence), e') =>
        let final_label :=
          if Qle_bool confidence_threshold max_confidence
          then Some predicted_label else None in
        (ret (mkClassification final_label (Some max_confidence)), e')
    end.

End BERTClassifier.

Module TaskNERModel.
Import TaskExtractor.

(** [process_model_outputs]: keep the predictions whose confidence reaches
    [confidence_threshold or 0.5]. *)
Definition process_model_outputs (predictions : list (string * string * Q))
    (confidence_threshold : Q) : list Entity :=
  let bound := if Qeq_bool confidence_threshold 0 then (1 # 2)%Q
               else confidence_threshold in
  map (fun '(label_str, token_str, conf_score) =>
         mkEntity (Some label_str) (Some token_str) conf_score)
      (List.filter (fun '(_, _, conf_score) => Qle_bool bound conf_score)
         predictions).

(** [extract_entities(text, confidence_threshold, use_cache=False)].
    [infer] stands for cleaning, tokenisation and the network: it yields
    per token the label, the token and the probability, or raises. *)
Definition extract_entities {Env}
    (infer : string -> Env -> result (list (string * string * Q)) * Env)
    (text : string) (confidence_threshold : Q) (e : Env)
    : result (list Entity) * Env :=
  if is_blank text then (ret [], e)
  else
    match infer text e with
    | (inl err, e') => (raise err, e')
    | (inr predictions, e') =>
        (ret (process_model_outputs predictions confidence_threshold), e')
    end.

End TaskNERModel.

(** Collaborators with fixed outputs, for the worked examples. *)
Definition fixed_collaborators {Env} (cls : TaskExtractor.ClassificationResult)
    (ents : list TaskExtractor.Entity) : TaskExtractor.Collaborators Env :=
  TaskExtractor.mkCollaborators
    (fun text _ => ret text)
    (fun _ _ e => (ret cls, e))
    (fun _ _ e => (ret ents, e)).

(** A batch of five texts, and an extraction that raises on the item at
    index 2, for the worked examples. *)
Definition five_texts : list string :=
  [ "call Alice"; "fix the login"; "???"; "book a room"; "send the notes" ].

Definition fails_at_2 (idx : nat) (txt : string) : result nat :=
  if (idx =? 2)%nat then raise (RuntimeError "model inference failed")
  else ret (String.length txt).

(** The collaborators [TaskExtractor.__init__] builds. *)
Definition model_collaborators {Env}
    (clean : string -> string -> result string)
    (infer_intent : string -> Env -> result (string * Q) * Env)
    (infer_entities : string -> Env -> result (list (string * string * Q)) * Env)
    : TaskExtractor.Collaborators Env :=
  TaskExtractor.mkCollaborators clean
    (BERTClassifier.classify infer_intent)
    (TaskNERModel.extract_entities infer_entities).

(** The two models over networks with a fixed answer, and a cleaner that
    leaves the text as it is, for the worked examples. *)
Definition constant_models (label : string) (confidence : Q)
    (predictions : list (string * string * Q))
    : TaskExtractor.Collaborators unit :=
  model_collaborators
    (fun text _ => ret text)
    (fun _ e => (ret (label, confidence), e))
    (fun _ e => (ret predictions, e)).

(* ===================================================================== *)
(** ** CommunicationProcessor                                             *)
(* ===================================================================== *)

Module CommunicationProcessor.

(** What [process_communication] does besides returning: its log records
    and the back-off delays. *)
Inductive event : Type :=
| LogWarning (processed_conf threshold : Q)
| LogDebug (processed_conf : Q) (attempt max_attempts : Z)
| LogError (attempt max_attempts : Z) (msg : string)
| LogFinalError (msg : string)
| Sleep (seconds : Q).

Definition failure_message (max_attempts : Z) (last_error : option exn)
    : string :=
  ("Failed to process communication after " ++ str_of_Z max_attempts
   ++ " attempts: "
   ++ match last_error with
      | Some e => str_of_exn e
      | None => "Unknown error"
      end)%string.

Definition running_loop_message : string :=
  "asyncio.run() cannot be called from a running event loop".

Section RetryLoop.
Context {W B : Type}.

(** Steps (4) to (6) of one attempt, and the confidence read from its
    result in the world the attempt leaves. *)
Variable attempt_body : W -> result B * W.
Variable final_confidence : W -> B -> Q.
Variables (threshold : Q) (max_attempts : Z) (backoff_factor : Q).

(** Whether the caller runs inside an asyncio event loop: there
    [asyncio.run(asyncio.sleep(..))] raises RuntimeError in place of
    sleeping, and the exception leaves the [except] block. *)
Variable in_event_loop : bool.

(** [while attempt < max_attempts]: [attempt] grows by one per turn, so
    the loop makes [remaining = max_attempts - attempt] turns at most. *)
Fixpoint attempt_loop (remaining : nat) (attempt : Z)
    (last_error : option exn) (w : W) (log : list event)
    : result B * W * list event :=
  match remaining with
  | O =>
      let error_msg := failure_message max_attempts last_error in
      (raise (RuntimeError error_msg), w, log ++ [LogFinalError error_msg])
  | S remaining' =>
      let attempt := (attempt + 1)%Z in
      match attempt_body w with
      | (inr b, w') =>
          let processed_conf := final_confidence w' b in
          let log :=
            if Qlt_bool processed_conf threshold
            then log ++ [LogWarning processed_conf threshold] else log in
          (ret b, w', log ++ [LogDebug processed_conf attempt max_attempts])
      | (inl e, w') =>
          let log := log ++ [LogError attempt max_attempts (str_of_exn e)] in
          if (attempt <? max_attempts)%Z && Qlt_bool 0 backoff_factor then
            if in_event_loop then
              (raise (RuntimeError running_loop_message), w', log)
            else
              attempt_loop remaining' attempt (Some e) w'
                (log ++ [Sleep (backoff_factor * inject_Z attempt)%Q])
          else attempt_loop remaining' attempt (Some e) w' log
      end
  end.

Definition retry (w : W) : result B * W * list event :=
  attempt_loop (Z.to_nat max_attempts) 0 None w [].

(** [failing_run w errs w']: from the world [w] the next attempts raise
    the exceptions [errs], one after the other, and leave the world [w']. *)
Inductive failing_run : W -> list exn -> W -> Prop :=
| failing_nil (w : W) : failing_run w [] w
| failing_cons (w : W) (e : exn) (w1 : W) (errs : list exn) (w2 : W) :
    attempt_body w = (inl e, w1) ->
    failing_run w1 errs w2 ->
    failing_run w (e :: errs) w2.

(** The records of the failed attempts numbered [attempt], [attempt + 1],
    ...: the error record, then the back-off delay
    [backoff_factor * attempt] when an attempt remains and the factor is
    positive. *)
Fixpoint failure_events (attempt : Z) (errs : list exn) : list event :=
  match errs with
  | [] => []
  | e :: rest =>
      LogError attempt max_attempts (str_of_exn e)
      :: (if (attempt <? max_attempts)%Z && Qlt_bool 0 backoff_factor
          then [Sleep (backoff_factor * inject_Z attempt)%Q] else [])
      ++ failure_events (attempt + 1) rest
  end.

(** The record of a result below the threshold. *)
Definition warning_events (processed_conf : Q) : list event :=
  if Qlt_bool processed_conf threshold
  then [LogWarning processed_conf threshold] else [].

End RetryLoop.

(** The delays in a log, in order. *)
Fixpoint sleeps (log : list event) : list Q :=
  match log with
  | [] => []
  | Sleep seconds :: rest => seconds :: sleeps rest
  | _ :: rest => sleeps rest
  end.

(** [processing_thresholds] and [retry_config]; [None] is an absent key. *)
Record Config : Type := mkConfig {
  entity_confidence : option Q;
  task_confidence : option Q;
  max_attempts : option Z;
  backoff_factor : option Q
}.

Definition get_default {A} (o : option A) (d : A) : A :=
  match o with Some a => a | None => d end.

Section Processor.
Context {Env PT ER : Type}.

(** The pipelines [__init__] builds: the text processor, the entity
    extractor and the collaborators of the task extractor. *)
Record Pipelines : Type := mkPipelines {
  process_text : string -> string -> Env -> result PT * Env;
  extract_task_entities : string -> string -> Q -> Env -> result ER * Env;
  task_collaborators : TaskExtractor.Collaborators Env
}.

Record Bundle : Type := mkBundle {
  processed_text_output : PT;
  entity_result : ER;
  task_extraction : TaskExtractor.loc
}.

Definition world : Type := TaskExtractor.state Env.

(** [extract_result.get("final_confidence", 0.0)] *)
Definition processed_confidence (w : world) (b : Bundle) : Q :=
  match TaskExtractor.heap w !! task_extraction b with
  | Some extract_result =>
      match dict_get "final_confidence" extract_result with
      | Some (VFloat (Finite q)) => q
      | _ => 0%Q
      end
  | None => 0%Q
  end.

(** Steps (4) to (6) inside the [try]. *)
Definition attempt (P : Pipelines) (cfg : Config) (text channel_type : string)
    (use_task_cache : bool) (w : world) : result Bundle * world :=
  let '(r1, e1) := process_text P text channel_type (TaskExtractor.env w) in
  let w := TaskExtractor.with_env e1 w in
  match r1 with
  | inl e => (raise e, w)
  | inr pto =>
      let entity_conf_threshold := get_default (entity_confidence cfg) (1 # 2) in
      let '(r2, e2) :=
        extract_task_entities P text channel_type entity_conf_threshold
          (TaskExtractor.env w) in
      let w := TaskExtractor.with_env e2 w in
      match r2 with
      | inl e => (raise e, w)
      | inr er =>
          let '(r3, w) :=
            TaskExtractor.extract_task (task_collaborators P)
              (get_default (task_confidence cfg) (3 # 5))
              text channel_type use_task_cache w in
          match r3 with
          | inl e => (raise e, w)
          | inr extract_result => (ret (mkBundle pto er extract_result), w)
          end
      end
  end.

Definition process_communication (P : Pipelines) (cfg : Config)
    (in_event_loop : bool) (text channel_type : string)
    (use_task_cache : bool) (w : world)
    : result Bundle * world * list event :=
  if is_blank text then
    (raise (ValueError "process_communication requires a non-empty text string."),
     w, [])
  else if is_blank channel_type then
    (raise (ValueError "process_communication requires a valid channel_type string."),
     w, [])
  else
    let threshold :=
      max_float (get_default (entity_confidence cfg) (1 # 2))
           (get_default (task_confidence cfg) (3 # 5)) in
    retry (attempt P cfg text channel_type use_task_cache)
          processed_confidence threshold
          (get_default (max_attempts cfg) 1%Z)
          (get_default (backoff_factor cfg) 0%Q)
          in_event_loop w.

End Processor.
Arguments Pipelines : clear implicits.
Arguments Bundle : clear implicits.

(** *** batch_process *)

(** One slot of the returned list: the bundle, or [{"error": str(e)}]. *)
Inductive item_result (B : Type) : Type :=
| ItemOk (ret : B)
| ItemError (msg : string).
Arguments ItemOk {B} ret.
Arguments ItemError {B} msg.

Section BatchProcess.
Context {W B : Type}.

(** [self.process_communication(text, channel, options)] as the batch
    sees it. *)
Variable process_item : string -> W -> result B * W.

(** [process_one_item]: every exception becomes an error entry. *)
Definition process_one_item (idx : nat) (text : string) (w : W)
    : (nat * item_result B) * W :=
  match process_item text w with
  | (inr ret, w') => ((idx, ItemOk ret), w')
  | (inl e, w') => ((idx, ItemError (str_of_exn e)), w')
  end.

(** [res] is what [process_one_item] makes of the text in some world:
    the bundle, or the error entry with the text of the exception. *)
Definition outcome_of (txt : string) (res : item_result B) : Prop :=
  exists w w',
    match res with
    | ItemOk b => process_item txt w = (inr b, w')
    | ItemError msg =>
        exists e, process_item txt w = (inl e, w') /\ msg = str_of_exn e
    end.

(** [process_chunk_maps]: the coroutines never suspend, so [gather] runs
    them one after the other in list order. *)
Fixpoint process_chunk_loop (start_idx i : nat) (chunk_texts : list string)
    (w : W) : list (nat * item_result B) * W :=
  match chunk_texts with
  | [] => ([], w)
  | txt :: rest =>
      let global_idx := (start_idx + i)%nat in
      let '(item, w1) := process_one_item global_idx txt w in
      let '(items, w2) := process_chunk_loop start_idx (S i) rest w1 in
      (item :: items, w2)
  end.

Definition process_chunk_maps (start_idx : nat) (chunk_texts : list string)
    (w : W) : list (nat * item_result B) * W :=
  process_chunk_loop start_idx 0 chunk_texts w.

(** [for item in chunk_results: results[item["index"]] = item["result"]]:
    the assignment loop of [batch_extract_tasks], on these items. *)
Definition store_items (chunk_results : list (nat * item_result B))
    (results : list (option (item_result B)))
    : result (list (option (item_result B))) :=
  TaskExtractor.store chunk_results results.

(** [for start_idx, chunk_texts in chunker(texts, effective_batch_size)] *)
Fixpoint chunks_loop (chunks : list (nat * list string))
    (results : list (option (item_result B))) (w : W)
    : result (list (option (item_result B))) * W :=
  match chunks with
  | [] => (ret results, w)
  | (start_idx, chunk_texts) :: rest =>
      let '(chunk_results, w1) := process_chunk_maps start_idx chunk_texts w in
      match store_items chunk_results results with
      | inl e => (raise e, w1)
      | inr results1 => chunks_loop rest results1 w1
      end
  end.

Definition batch_process (texts : list string) (channel_type : string)
    (batch_size : Z) (w : W)
    : result (list (option (item_result B))) * W :=
  if is_blank channel_type then
    (raise (ValueError "Invalid channel_type for batch processing."), w)
  else if (batch_size <=? 0)%Z then
    (raise (ValueError "batch_size must be a positive integer."), w)
  else
    let effective_batch_size :=
      Z.min batch_size (Z.max (Z.of_nat (length texts)) 1) in
    let results := replicate (length texts) None in
    chunks_loop (chunker texts (Z.to_nat effective_batch_size)) results w.

End BatchProcess.

(** [batch_process] of the class: each item goes through
    [process_communication], called from inside the event loop of
    [asyncio.run(process_chunk_maps(..))]. *)
Definition batch_process_communications {Env PT ER}
    (P : Pipelines Env PT ER) (cfg : Config) (use_task_cache : bool)
    (texts : list string) (channel_type : string) (batch_size : Z)
    (w : TaskExtractor.state Env) :=
  batch_process
    (fun text w =>
       let '(r, w', _) :=
         process_communication P cfg true text channel_type use_task_cache w in
       (r, w'))
    texts channel_type batch_size w.

(** Scenario C: the text processor fails on its first two calls (the
    world counts the calls) and answers from the third on. *)
Definition flaky_pipelines : Pipelines nat unit unit :=
  mkPipelines
    (fun _ _ n =>
       if (n <? 2)%nat then (raise (RuntimeError "model inference failed"), S n)
       else (ret tt, S n))
    (fun _ _ _ n => (ret tt, n))
    (fixed_collaborators
       (TaskExtractor.mkClassification (Some "TASK") (Some (9 # 10)))
       [TaskExtractor.mkEntity (Some "assignee") (Some "Alice") (4 # 5)]).

Definition scenario_c_config : Config :=
  mkConfig (Some (1 # 2)) (Some (3 # 5)) (Some 3%Z) (Some (1 # 10)).

(** A text processor that always fails. *)
Definition broken_pipelines : Pipelines unit unit unit :=
  mkPipelines
    (fun _ _ e => (raise (RuntimeError "model inference failed"), e))
    (fun _ _ _ e => (ret tt, e))
    (fixed_collaborators
       (TaskExtractor.mkClassification (Some "TASK") (Some (9 # 10))) []).

(** A text processor that fails on the text ["???"] only. *)
Definition picky_pipelines : Pipelines unit unit unit :=
  mkPipelines
    (fun text _ e =>
       if String.eqb text "???"
       then (raise (RuntimeError "model inference failed"), e)
       else (ret tt, e))
    (fun _ _ _ e => (ret tt, e))
    (fixed_collaborators
       (TaskExtractor.mkClassification (Some "TASK") (Some (9 # 10))) []).

Definition default_config : Config := mkConfig None None None None.

End CommunicationProcessor.

(* ===================================================================== *)
(** ** TextProcessor.process_text                                         *)
(* ===================================================================== *)

(** Shallow embedding of [process_text] and [extract_linguistic_features]
    of src/backend/nlp/core/text_processing.py.  The embedder, the spaCy
    pipeline, [clean_text] and the clock are oracles; the error handler
    is the object given to the constructor, or [None]. *)
Module TextProcessor.

(** [AttributeError]: the exception of [None.handle(..)]. *)
Definition AttributeError (msg : string) : exn := OtherError msg.

(** One entry of ["entities"]: text, label, start_char, end_char. *)
Record EntitySpan : Type := mkEntitySpan {
  span_text : string;
  span_label : string;
  span_start : nat;
  span_end : nat
}.

Section Processor.
Context {Env CleanOptions Syntax Dependency : Type}.

(** The [Doc] of spaCy as the feature extraction reads it: its entity
    spans, and per token the syntax record and the dependency triple the
    loop appends. *)
Record Doc : Type := mkDoc {
  doc_ents : list EntitySpan;
  doc_tokens : list (Syntax * Dependency)
}.

(** [feature_options]; [None] is an absent key. *)
Record FeatureOptions : Type := mkFeatureOptions {
  extract_entities : option bool;
  extract_syntax : option bool
}.

(** [options] of [process_text]; [None] is an absent key. *)
Record Options : Type := mkOptions {
  clean_text_options : CleanOptions;
  use_cache : option bool;
  feature_options : option FeatureOptions
}.

(** The dictionary of linguistic features.  The fallback of
    [process_text] has no ["extraction_metadata"] key. *)
Record Linguistics : Type := mkLinguistics {
  entities : list EntitySpan;
  syntax : list Syntax;
  dependencies : list Dependency;
  extraction_metadata : option (nat * nat)
}.

(** The dictionary [process_text] returns. *)
Record Output : Type := mkOutput {
  embeddings : list Q;
  linguistics : Linguistics;
  processing_time : Q;
  text_length : nat;
  status : string
}.

(** What the processor holds and calls. *)
Record Tools : Type := mkTools {
  clean_text : string -> CleanOptions -> result string;
  encode_text : string -> bool -> Env -> result (list Q) * Env;
  nlp : string -> Env -> result Doc * Env;
  now : Env -> Q * Env;
  error_handler : option (exn -> string -> Env -> result unit * Env)
}.

(** [self.error_handler.handle(e, context=..)] *)
Definition handle (T : Tools) (e : exn) (context : string) (env : Env)
    : result unit * Env :=
  match error_handler T with
  | None =>
      (raise (AttributeError "'NoneType' object has no attribute 'handle'"),
       env)
  | Some h => h e context env
  end.

Definition option_get {A} (o : option A) (d : A) : A :=
  match o with Some a => a | None => d end.

(** [extract_linguistic_features] *)
Definition extract_linguistic_features (T : Tools) (text : string)
    (fo : FeatureOptions) (env : Env) : result Linguistics * Env :=
  match nlp T text env with
  | (inl e, env) => (raise e, env)
  | (inr doc, env) =>
      let entities :=
        if option_get (extract_entities fo) true then doc_ents doc else [] in
      let syntax_info :=
        if option_get (extract_syntax fo) true
        then map fst (doc_tokens doc) else [] in
      let dependencies :=
        if option_get (extract_syntax fo) true
        then map snd (doc_tokens doc) else [] in
      (ret (mkLinguistics entities syntax_info dependencies
              (Some (length entities, length (doc_tokens doc)))),
       env)
  end.

(** [np.zeros(768, dtype=np.float32)] *)
Definition fallback_embeddings : list Q := replicate 768 0%Q.

(** [{"entities": [], "syntax": [], "dependencies": []}] *)
Definition fallback_linguistics : Linguistics := mkLinguistics [] [] [] None.

(** A [try] whose [except] calls the error handler and then takes the
    fallback value: the exception of the handler leaves the function. *)
Definition with_fallback {A} (T : Tools) (context : string) (fallback : A)
    (attempt : result A * Env) : result A * Env :=
  match attempt with
  | (inr a, env) => (ret a, env)
  | (inl e, env) =>
      match handle T e context env with
      | (inl e', env) => (raise e', env)
      | (inr _, env) => (ret fallback, env)
      end
  end.

(** [process_text] *)
Definition process_text (T : Tools) (text : string) (options : Options)
    (env : Env) : result Output * Env :=
  let '(start_time, env) := now T env in
  let '(cleaned, env) :=
    with_fallback T "TextProcessor.process_text (clean_text)" text
      (clean_text T text (clean_text_options options), env) in
  match cleaned with
  | inl e => (raise e, env)
  | inr clean_str =>
      let '(encoded, env) :=
        with_fallback T "TextProcessor.process_text (embedder)"
          fallback_embeddings
          (encode_text T clean_str (option_get (use_cache options) true) env) in
      match encoded with
      | inl e => (raise e, env)
      | inr embeddings =>
          let feature_opts :=
            option_get (feature_options options) (mkFeatureOptions None None) in
          let '(features, env) :=
            with_fallback T "TextProcessor.process_text (linguistics)"
              fallback_linguistics
              (extract_linguistic_features T clean_str feature_opts env) in
          match features with
          | inl e => (raise e, env)
          | inr linguistics =>
              let '(end_time, env) := now T env in
              let duration := (end_time - start_time)%Q in
              (ret (mkOutput embeddings linguistics duration
                      (String.length clean_str) "success"),
               env)
          end
      end
  end.

End Processor.
Arguments Doc : clear implicits.
Arguments Linguistics : clear implicits.
Arguments Output : clear implicits.
Arguments Options : clear implicits.
Arguments Tools : clear implicits.

(** A processor whose embedder is down, a clock that stands still, and
    no error handler or one that only returns, for the worked
    examples. *)
Definition embedder_down (handler : option (exn -> string -> unit -> result unit * unit))
    : Tools unit unit unit unit :=
  mkTools
    (fun text _ => ret text)
    (fun _ _ e => (raise (RuntimeError "embedder unavailable"), e))
    (fun _ e => (ret (mkDoc [] []), e))
    (fun e => (0%Q, e))
    handler.


End TextProcessor.

(* ===================================================================== *)
(** ** EntityExtractor                                                    *)
(* ===================================================================== *)

(** Shallow embedding of [BatchSizeOptimizer.optimize],
    [EntityExtractor.extract_task_entities], [_prune_cache] and the
    batch size of [process_batch] (src/backend/nlp/core/entity_extraction.py).
    [hash], the [repr] of the configuration, [clean_text], the network
    of the recognizer and the clock are oracles; the recognizer's own
    front end is [TaskNERModel.extract_entities]. *)
Module EntityExtractor.
Import TaskExtractor.

(** [BatchSizeOptimizer.optimize] *)
Definition optimize (base_size total_items : Z) : Z :=
  if (total_items <=? 0)%Z then 1%Z else Z.min base_size total_items.

(** Step 2 of [process_batch]: the size handed to the recognizer. *)
Definition effective_batch_size (base_size : Z) (texts : list string)
    (batch_size : Z) : Z :=
  let effective_batch_size := optimize base_size (Z.of_nat (length texts)) in
  if (batch_size <? effective_batch_size)%Z then batch_size
  else effective_batch_size.

(** [self.entity_types] *)
Definition entity_types : list (string * string) :=
  [ ("TASK", "TaskEntity"); ("DATE", "DateEntity"); ("PERSON", "PersonEntity") ].

(** [extraction_config]; [None] is an absent key. *)
Record ExtractionConfig : Type := mkExtractionConfig {
  cfg_lowercase : option bool;
  cfg_confidence_threshold : option Q
}.

(** One record of [PerformanceTracker.metrics]. *)
Record Metric : Type := mkMetric {
  event_name : string;
  timestamp : Q;
  metric_text_length : nat;
  num_entities : nat;
  metric_channel_type : string
}.

(** [d.get(key)] on an insertion-ordered dictionary. *)
Fixpoint cache_get {V} (key : string) (d : list (string * V)) : option V :=
  match d with
  | [] => None
  | (k, v) :: d' => if String.eqb key k then Some v else cache_get key d'
  end.

(** [d[key] = v]: an existing key keeps its place. *)
Fixpoint cache_put {V} (key : string) (v : V) (d : list (string * V))
    : list (string * V) :=
  match d with
  | [] => [(key, v)]
  | (k, w) :: d' =>
      if String.eqb key k then (k, v) :: d' else (k, w) :: cache_put key v d'
  end.

(** The step "validate and normalize entity attributes": the label is
    mapped through [entity_types], and the entity is kept when its
    confidence reaches the threshold. *)
Definition domain_type (ent : Entity) : string :=
  let entity_label :=
    match ent_entity ent with Some s => s | None => "UNKNOWN" end in
  match cache_get entity_label entity_types with
  | Some t => t
  | None => entity_label
  end.

Definition processed_entities (local_conf_threshold : Q)
    (raw : list Entity) : list Entity :=
  map (fun ent =>
         mkEntity (Some (domain_type ent)) (ent_token ent) (ent_confidence ent))
      (List.filter (fun ent => Qle_bool local_conf_threshold (ent_confidence ent))
         raw).

Section Extractor.
Context {Env : Type}.

(** What the extractor holds and calls. *)
Record Tools : Type := mkTools {
  py_hash : string -> Z;
  repr_config : ExtractionConfig -> string;
  clean_text : string -> bool -> string -> result string;
  infer : string -> Env -> result (list (string * string * Q)) * Env;
  now : Env -> Q * Env;
  confidence_threshold : Q;
  cache_ttl : Z
}.

(** The mutable state: [self.cache] maps a key to the time of insertion
    and the data, [self.performance_metrics.metrics] grows. *)
Record state : Type := mkState {
  cache : list (string * (Q * list Entity));
  metrics : list Metric;
  env : Env
}.

(** [(current_time - timestamp) > self.cache_ttl] *)
Definition expired (T : Tools) (current_time timestamp : Q) : bool :=
  Qlt_bool (inject_Z (cache_ttl T)) (current_time - timestamp).

(** [_prune_cache] *)
Definition _prune_cache (T : Tools) (st : state) : state :=
  let '(current_time, e) := now T (env st) in
  mkState
    (List.filter (fun entry => negb (expired T current_time (fst (snd entry))))
       (cache st))
    (metrics st) e.

(** [f"{channel_type}::{hash(text)}::{extraction_config}"] *)
Definition cache_key (T : Tools) (text channel_type : string)
    (extraction_config : ExtractionConfig) : string :=
  (channel_type ++ "::" ++ str_of_Z (py_hash T text) ++ "::"
   ++ repr_config T extraction_config)%string.

(** Steps 2 to 9 of [extract_task_entities], after the cache look-up. *)
Definition compute_entities (T : Tools) (text channel_type : string)
    (extraction_config : ExtractionConfig) (st : state)
    : result (list Entity) * state :=
  if is_blank text then (ret [], st)
  else
    let lowercase :=
      match cfg_lowercase extraction_config with
      | Some b => b
      | None => true
      end in
    match clean_text T text lowercase channel_type with
    | inl e => (raise e, st)
    | inr cleaned_text =>
        let local_conf_threshold :=
          match cfg_confidence_threshold extraction_config with
          | Some q => q
          | None => confidence_threshold T
          end in
        let '(raw_result, e1) :=
          TaskNERModel.extract_entities (infer T) cleaned_text
            local_conf_threshold (env st) in
        match raw_result with
        | inl _ => (ret [], mkState (cache st) (metrics st) e1)
        | inr raw =>
            let processed := processed_entities local_conf_threshold raw in
            let '(stored_at, e2) := now T e1 in
            let '(tracked_at, e3) := now T e2 in
            (ret processed,
             mkState
               (cache_put (cache_key T text channel_type extraction_config)
                  (stored_at, processed) (cache st))
               (metrics st
                ++ [mkMetric "extract_task_entities" tracked_at
                      (String.length text) (length processed) channel_type])
               e3)
        end
    end.

(** [extract_task_entities] *)
Definition extract_task_entities (T : Tools) (text channel_type : string)
    (extraction_config : ExtractionConfig) (st : state)
    : result (list Entity) * state :=
  let st := _prune_cache T st in
  match cache_get (cache_key T text channel_type extraction_config) (cache st) with
  | Some (timestamp, cached_data) =>
      let '(t, e) := now T (env st) in
      let st := mkState (cache st) (metrics st) e in
      if Qle_bool (t - timestamp) (inject_Z (cache_ttl T))
      then (ret cached_data, st)
      else compute_entities T text channel_type extraction_config st
  | None => compute_entities T text channel_type extraction_config st
  end.

End Extractor.
Arguments Tools : clear implicits.
Arguments state : clear implicits.

(** An extractor over a clock that advances by one second per reading
    (the world is the time), a recognizer with a fixed answer and a TTL
    of 300 seconds, for the worked examples. *)
Definition ticking_tools (predictions : list (string * string * Q))
    : Tools Q :=
  mkTools
    (fun text => Z.of_nat (String.length text))
    (fun _ => "{}")
    (fun text _ _ => ret text)
    (fun _ t => (ret predictions, t))
    (fun t => (t, (t + 1)%Q))
    (1 # 2) 300.

(** The same extractor with a recognizer that is down. *)
Definition failing_tools : Tools Q :=
  mkTools
    (fun text => Z.of_nat (String.length text))
    (fun _ => "{}")
    (fun text _ _ => ret text)
    (fun _ t => (raise (RuntimeError "model inference failed"), t))
    (fun t => (t, (t + 1)%Q))
    (1 # 2) 300.

End EntityExtractor.

(* ===================================================================== *)
(** * Properties                                                          *)
(* ===================================================================== *)

Import TaskExtractor.

(** ** The LRU cache *)

Section LRUFacts.
Context {V : Type}.
Import _LRUCache.
Implicit Types (m : list (string * V)) (c : _LRUCache.t V).

Lemma find_None_iff key m : find key m = None <-> key ∉ map fst m.
Proof.
  induction m as [|[k v] m IH]; simpl.
  - split; [intros _; apply not_elem_of_nil | done].
  - destruct (String.eqb_spec key k) as [->|Hne].
    + split; [done | intros H; exfalso; apply H; left].
    + rewrite IH, not_elem_of_cons. tauto.
Qed.

Lemma find_Some_elem key m v : find key m = Some v -> key ∈ map fst m.
Proof.
  intros H. destruct (decide (key ∈ map fst m)) as [|Hn]; [done|].
  apply find_None_iff in Hn. congruence.
Qed.

Lemma length_remove key m v :
  find key m = Some v -> S (length (remove key m)) = length m.
Proof.
  induction m as [|[k w] m IH]; simpl; [done|].
  destruct (String.eqb key k); [done|]. intros H. simpl. by rewrite IH.
Qed.

Lemma remove_subseteq key m : map fst (remove key m) ⊆ map fst m.
Proof.
  induction m as [|[k w] m IH]; simpl; [done|].
  destruct (String.eqb key k); simpl.
  - intros x Hx. by right.
  - intros x Hx. apply elem_of_cons in Hx as [->|Hx]; [left | right; by apply IH].
Qed.

Lemma remove_NoDup key m : NoDup (map fst m) -> NoDup (map fst (remove key m)).
Proof.
  induction m as [|[k w] m IH]; simpl; [done|].
  rewrite NoDup_cons. intros [Hk Hm].
  destruct (String.eqb key k); simpl; [done|].
  apply NoDup_cons. split; [|by apply IH].
  intros Hin. apply Hk. by apply (remove_subseteq key).
Qed.

Lemma remove_not_elem key m :
  NoDup (map fst m) -> key ∉ map fst (remove key m).
Proof.
  induction m as [|[k w] m IH]; simpl; [intros _; apply not_elem_of_nil|].
  rewrite NoDup_cons. intros [Hk Hm].
  destruct (String.eqb_spec key k) as [->|Hne]; simpl; [done|].
  apply not_elem_of_cons. split; [done | by apply IH].
Qed.

Lemma remove_sorted (R : string -> string -> Prop) key m :
  StronglySorted R (map fst m) -> StronglySorted R (map fst (remove key m)).
Proof.
  induction m as [|[k w] m IH]; simpl; [done|].
  intros Hs. apply StronglySorted_inv in Hs as [Hs Hall].
  destruct (String.eqb key k); simpl; [done|].
  constructor; [by apply IH|].
  rewrite Forall_forall in Hall |- *. intros x Hx. apply Hall.
  by apply (remove_subseteq key).
Qed.

Lemma sorted_snoc (R : string -> string -> Prop) (l : list string) k :
  StronglySorted R l -> Forall (fun x => R x k) l -> StronglySorted R (l ++ [k]).
Proof.
  induction l as [|x l IH]; simpl; intros Hs Hall.
  - repeat constructor.
  - apply StronglySorted_inv in Hs as [Hs Hx].
    apply Forall_cons in Hall as [Hxk Hall].
    constructor; [by apply IH|].
    apply Forall_app. split; [done | by constructor].
Qed.

End LRUFacts.

Section LRUInvariants.
Context {V : Type}.
Import _LRUCache.
Implicit Types (m : list (string * V)) (c : _LRUCache.t V)
  (h : list (op V)) (o : op V).

Lemma age_touched h o : age (op_key o) (o :: h) = Some 0%nat.
Proof. simpl. by rewrite String.eqb_refl. Qed.

Lemma age_untouched h o k :
  k <> op_key o -> age k (o :: h) = S <$> age k h.
Proof.
  intros Hne. simpl. apply String.eqb_neq in Hne. rewrite Hne.
  by destruct (age k h).
Qed.

Lemma older_untouched h o k1 k2 :
  k1 <> op_key o -> k2 <> op_key o -> older h k1 k2 -> older (o :: h) k1 k2.
Proof.
  intros H1 H2. unfold older.
  rewrite (age_untouched h o k1 H1), (age_untouched h o k2 H2).
  destruct (age k1 h), (age k2 h); simpl; try done. lia.
Qed.

Lemma older_touched h o k1 :
  k1 <> op_key o -> is_Some (age k1 h) -> older (o :: h) k1 (op_key o).
Proof.
  intros H1 [a Ha]. unfold older.
  rewrite (age_untouched h o k1 H1), age_touched, Ha. simpl. lia.
Qed.

Lemma sorted_weaken (R R' : string -> string -> Prop) (l : list string) :
  (forall x y, x ∈ l -> y ∈ l -> R x y -> R' x y) ->
  StronglySorted R l -> StronglySorted R' l.
Proof.
  induction l as [|x l IH]; intros HR Hs; [constructor|].
  apply StronglySorted_inv in Hs as [Hs Hx]. constructor.
  - apply IH; [|done]. intros y z Hy Hz. apply HR; by right.
  - rewrite Forall_forall in Hx |- *. intros y Hy.
    apply HR; [left | by right | by apply Hx].
Qed.

(** Keys that the operation does not touch keep their order. *)
Lemma order_untouched h o (ks : list string) :
  op_key o ∉ ks ->
  StronglySorted (older h) ks -> Forall (fun k => is_Some (age k h)) ks ->
  StronglySorted (older (o :: h)) ks
  /\ Forall (fun k => is_Some (age k (o :: h))) ks.
Proof.
  intros Hk Hs Ha. split.
  - eapply sorted_weaken; [|exact Hs]. intros x y Hx Hy.
    apply older_untouched; intros ->; by apply Hk.
  - rewrite Forall_forall in Ha |- *. intros k Hin.
    rewrite age_untouched by (intros ->; by apply Hk).
    destruct (Ha k Hin) as [a ->]. by eexists.
Qed.

(** The touched key goes last and is the most recently used. *)
Lemma order_touched h o (ks : list string) :
  op_key o ∉ ks -> NoDup ks ->
  StronglySorted (older h) ks -> Forall (fun k => is_Some (age k h)) ks ->
  NoDup (ks ++ [op_key o])
  /\ StronglySorted (older (o :: h)) (ks ++ [op_key o])
  /\ Forall (fun k => is_Some (age k (o :: h))) (ks ++ [op_key o]).
Proof.
  intros Hk Hnd Hs Ha.
  destruct (order_untouched h o ks Hk Hs Ha) as [Hs' Ha'].
  split; [|split].
  - apply NoDup_app. split; [done|]. split; [|apply NoDup_singleton].
    intros x Hx Hx'. apply list_elem_of_singleton in Hx' as ->. by apply Hk.
  - apply sorted_snoc; [done|].
    rewrite Forall_forall in Ha |- *. intros k Hin.
    apply older_touched; [intros ->; by apply Hk | by apply Ha].
  - apply Forall_app. split; [done|]. constructor; [|constructor].
    rewrite age_touched. by eexists.
Qed.

Lemma keys_snoc cap m k (v : V) :
  keys (mk cap (m ++ [(k, v)])) = map fst m ++ [k].
Proof. unfold keys. simpl. by rewrite map_app. Qed.

Lemma recency_move_to_end h o c v :
  recency_ordered h c ->
  recency_ordered (o :: h)
    (mk (capacity c) (remove (op_key o) (cache_map c) ++ [(op_key o, v)])).
Proof.
  intros (Hnd & Hs & Ha). unfold recency_ordered. rewrite keys_snoc.
  apply order_touched.
  - by apply remove_not_elem.
  - by apply remove_NoDup.
  - by apply remove_sorted.
  - rewrite Forall_forall in Ha |- *. intros k Hin. apply Ha.
    by apply (remove_subseteq (op_key o)).
Qed.

Lemma recency_step h o c :
  recency_ordered h c -> recency_ordered (o :: h) (step c o).
Proof.
  intros Hinv. pose proof Hinv as (Hnd & Hs & Ha).
  assert (Hmiss : find (op_key o) (cache_map c) = None ->
                  recency_ordered (o :: h) c).
  { intros Hf. apply find_None_iff in Hf.
    destruct (order_untouched h o (keys c) Hf Hs Ha). by repeat split. }
  destruct o as [k|k v]; simpl in *.
  - unfold get. destruct (find k (cache_map c)) as [w|] eqn:Hf; simpl.
    + by apply (recency_move_to_end h (OpGet k)).
    + by apply Hmiss.
  - unfold set. destruct (find k (cache_map c)) as [w|] eqn:Hf; simpl.
    + by apply (recency_move_to_end h (OpSet k v)).
    + pose proof Hf as Hk. apply find_None_iff in Hk.
      destruct (capacity c <=? Z.of_nat (length (cache_map c)))%Z.
      * destruct c as [cap [|[k0 v0] rest]]; simpl in *; [by apply Hmiss|].
        unfold recency_ordered. rewrite keys_snoc.
        unfold keys in *; simpl in *.
        apply NoDup_cons in Hnd as [_ Hnd].
        apply StronglySorted_inv in Hs as [Hs _].
        apply Forall_cons in Ha as [_ Ha].
        apply not_elem_of_cons in Hk as [_ Hk].
        by apply (order_touched h (OpSet k v)).
      * simpl. unfold recency_ordered. rewrite keys_snoc.
        by apply (order_touched h (OpSet k v)).
Qed.

Lemma capacity_step c o : capacity (step c o) = capacity c.
Proof.
  destruct o as [k|k v]; simpl.
  - unfold get. by destruct (find k (cache_map c)).
  - unfold set. destruct (find k (cache_map c)); [done|].
    destruct (capacity c <=? _)%Z; [|done]. by destruct (cache_map c).
Qed.

Lemma size_step c o :
  (Z.of_nat (length (cache_map c)) <= Z.max 0 (capacity c))%Z ->
  (Z.of_nat (length (cache_map (step c o))) <= Z.max 0 (capacity c))%Z.
Proof.
  intros Hsz.
  assert (Hmove : forall k w (v : V), find k (cache_map c) = Some w ->
    length (remove k (cache_map c) ++ [(k, v)]) = length (cache_map c)).
  { intros k w v Hf. rewrite length_app. simpl.
    rewrite <- (length_remove k _ w Hf). lia. }
  destruct o as [k|k v]; simpl.
  - unfold get. destruct (find k (cache_map c)) as [w|] eqn:Hf; simpl; [|done].
    by rewrite (Hmove k w w Hf).
  - unfold set. destruct (find k (cache_map c)) as [w|] eqn:Hf; simpl.
    + by rewrite (Hmove k w v Hf).
    + destruct (Z.leb_spec (capacity c) (Z.of_nat (length (cache_map c)))).
      * destruct (cache_map c) as [|e rest] eqn:Hm; simpl.
        { rewrite Hm. simpl. lia. }
        rewrite length_app. simpl in *. lia.
      * simpl. rewrite length_app. simpl. lia.
Qed.

Lemma run_snoc ops o c : run (ops ++ [o]) c = step (run ops c) o.
Proof. unfold run. by rewrite fold_left_app. Qed.

Lemma capacity_run ops c : capacity (run ops c) = capacity c.
Proof.
  induction ops as [|o ops IH] using rev_ind; [done|].
  by rewrite run_snoc, capacity_step.
Qed.

Lemma size_run ops cap :
  (Z.of_nat (length (cache_map (run ops (init (V:=V) cap)))) <= Z.max 0 cap)%Z.
Proof.
  induction ops as [|o ops IH] using rev_ind; [simpl; lia|].
  rewrite run_snoc.
  pose proof (size_step (run ops (init cap)) o) as Hs.
  rewrite capacity_run in Hs. by apply Hs.
Qed.

Lemma recency_run ops cap :
  recency_ordered (rev ops) (run ops (init (V:=V) cap)).
Proof.
  induction ops as [|o ops IH] using rev_ind.
  - repeat split; constructor.
  - rewrite run_snoc, rev_app_distr. simpl. by apply recency_step.
Qed.

End LRUInvariants.

Section LRUFill.
Context {V : Type}.
Import _LRUCache.

Lemma fill_distinct (cap : Z) (kvs : list (string * V)) :
  (0 < cap)%Z -> NoDup (map fst kvs) ->
  run (set_all kvs) (init cap)
  = mk cap (drop (length kvs - Z.to_nat cap) kvs).
Proof.
  intros Hcap. induction kvs as [|[k v] kvs IH] using rev_ind; intros Hnd.
  - done.
  - unfold set_all in *. rewrite map_app in *. simpl in *.
    apply NoDup_app in Hnd as (Hnd & Hk & _).
    rewrite run_snoc, (IH Hnd). simpl. unfold set. simpl.
    assert (Hfind : find k (drop (length kvs - Z.to_nat cap) kvs) = None).
    { apply find_None_iff. intros Hin. apply (Hk k); [|left].
      apply list_elem_of_fmap in Hin as ([k' v'] & -> & Hin).
      apply list_elem_of_fmap. exists (k', v'). split; [done|].
      eapply subseteq_drop, Hin. }
    rewrite Hfind, length_drop, length_app. simpl.
    destruct (Z.leb_spec cap
                (Z.of_nat (length kvs - (length kvs - Z.to_nat cap)))) as [Hfull|Hroom].
    + assert (Hlen : (Z.to_nat cap <= length kvs)%nat) by lia.
      destruct (drop (length kvs - Z.to_nat cap) kvs) as [|e rest] eqn:Hd.
      { apply (f_equal length) in Hd. rewrite length_drop in Hd. simpl in Hd. lia. }
      f_equal.
      replace (length kvs + 1 - Z.to_nat cap)%nat
        with (S (length kvs - Z.to_nat cap)) by lia.
      assert (Hrest : drop (S (length kvs - Z.to_nat cap)) kvs = rest).
      { replace (S (length kvs - Z.to_nat cap))
          with (length kvs - Z.to_nat cap + 1)%nat by lia.
        by rewrite <- drop_drop, Hd. }
      assert (Hlt : (S (length kvs - Z.to_nat cap) <= length kvs)%nat) by lia.
      rewrite drop_app_le by done. by rewrite Hrest.
    + f_equal.
      replace (length kvs - Z.to_nat cap)%nat with 0%nat by lia.
      replace (length kvs + 1 - Z.to_nat cap)%nat with 0%nat by lia.
      done.
Qed.

End LRUFill.

Section LRUTouched.
Context {V : Type}.
Import _LRUCache.

Lemma touched_is_last (c : _LRUCache.t V) (o : op V) :
  op_key o ∈ keys (step c o) -> last (keys (step c o)) = Some (op_key o).
Proof.
  assert (Hsnoc : forall cap m k (v : V),
            last (keys (mk cap (m ++ [(k, v)]))) = Some k).
  { intros. rewrite keys_snoc. apply last_snoc. }
  destruct o as [k|k v]; simpl.
  - unfold get. destruct (find k (cache_map c)) as [w|] eqn:Hf; simpl.
    + intros _. apply Hsnoc.
    + apply find_None_iff in Hf. intros Hin. by destruct Hf.
  - unfold set. destruct (find k (cache_map c)) as [w|] eqn:Hf; simpl.
    + intros _. apply Hsnoc.
    + destruct (capacity c <=? _)%Z.
      * destruct (cache_map c) as [|e rest] eqn:Hm; simpl.
        { unfold keys. rewrite Hm. simpl. intros Hin. by apply elem_of_nil in Hin. }
        intros _. apply Hsnoc.
      * simpl. intros _. apply Hsnoc.
Qed.

End LRUTouched.

(** C5.  A cache of positive capacity never holds more than [capacity]
    entries, whatever [get]/[set] operations are run on a fresh cache.
    When [set] meets a full cache with a new key, the entry it drops is
    the head of the OrderedDict, and that entry was touched less recently
    than every entry that stays; a hit of [get] and every [set] leave the
    touched key in the most-recently-used position.  Hence setting
    [capacity + k] distinct keys in a fresh cache leaves exactly the last
    [capacity] of them. *)
Theorem lru_capacity_and_eviction {V : Type} (cap : Z) (Hcap : (0 < cap)%Z) :
  (forall ops : list (_LRUCache.op V),
      (Z.of_nat (length (_LRUCache.cache_map
                           (_LRUCache.run ops (_LRUCache.init cap)))) <= cap)%Z)
  /\ (forall (ops : list (_LRUCache.op V)) key value,
        let c := _LRUCache.run ops (_LRUCache.init cap) in
        _LRUCache.find key (_LRUCache.cache_map c) = None ->
        Z.of_nat (length (_LRUCache.cache_map c)) = cap ->
        exists lru v0 rest,
          _LRUCache.cache_map c = (lru, v0) :: rest
          /\ _LRUCache.set key value c
             = inr (_LRUCache.mk cap (rest ++ [(key, value)]))
          /\ Forall (fun k => _LRUCache.older (rev ops) lru k) (map fst rest))
  /\ (forall (ops : list (_LRUCache.op V)) (o : _LRUCache.op V),
        let c := _LRUCache.run (ops ++ [o]) (_LRUCache.init cap) in
        _LRUCache.op_key o ∈ _LRUCache.keys c ->
        last (_LRUCache.keys c) = Some (_LRUCache.op_key o))
  /\ (forall (kvs : list (string * V)) (k : nat),
        NoDup (map fst kvs) ->
        length kvs = (Z.to_nat cap + k)%nat ->
        _LRUCache.cache_map
          (_LRUCache.run (_LRUCache.set_all kvs) (_LRUCache.init cap))
        = drop k kvs
        /\ length (drop k kvs) = Z.to_nat cap).
Proof.
  split; [|split; [|split]].
  - intros ops. pose proof (size_run (V:=V) ops cap). lia.
  - intros ops key value c Hmiss Hfull.
    destruct (recency_run (V:=V) ops cap) as (_ & Hs & _).
    fold c in Hs. unfold _LRUCache.set. rewrite Hmiss.
    assert (Hc : _LRUCache.capacity c = cap).
    { unfold c. by rewrite capacity_run. }
    rewrite Hc, Hfull, Z.leb_refl.
    destruct (_LRUCache.cache_map c) as [|[lru v0] rest] eqn:Hm.
    { simpl in Hfull. lia. }
    exists lru, v0, rest. split; [done|]. split; [done|].
    unfold _LRUCache.keys in Hs. rewrite Hm in Hs. simpl in Hs.
    by apply StronglySorted_inv in Hs as [_ Hs].
  - intros ops o c. unfold c. rewrite run_snoc. apply touched_is_last.
  - intros kvs k Hnd Hlen. rewrite (fill_distinct cap kvs Hcap Hnd). simpl.
    replace (length kvs - Z.to_nat cap)%nat with k by lia.
    split; [done|]. rewrite length_drop. lia.
Qed.

Lemma lru_capacity_and_eviction_witness :
  (0 < 2)%Z
  /\ _LRUCache.cache_map
       (_LRUCache.run
          (_LRUCache.set_all [("a", 1%nat); ("b", 2%nat); ("c", 3%nat)])
          (_LRUCache.init 2))
     = [("b", 2%nat); ("c", 3%nat)].
Proof.
  split; [lia|].
  destruct (lru_capacity_and_eviction (V:=nat) 2 ltac:(lia)) as (_ & _ & _ & H).
  apply (H [("a", 1%nat); ("b", 2%nat); ("c", 3%nat)] 1%nat).
  - simpl. refine (bool_decide_unpack _ _). vm_compute. exact I.
  - reflexivity.
Defined.

(** ** extract_task *)

Section ExtractTaskFacts.
Context {Env : Type}.
Import TaskExtractor.
Implicit Types (E : Collaborators Env) (st : state Env).

Lemma get_miss {V} key (c : _LRUCache.t V) :
  _LRUCache.find key (_LRUCache.cache_map c) = None ->
  _LRUCache.get key c = (None, c).
Proof. intros H. unfold _LRUCache.get. by rewrite H. Qed.

Lemma lookup_after_miss use_cache format_type text st :
  cache_miss use_cache format_type text st ->
  (if use_cache
   then let '(v, c) := _LRUCache.get (cache_key format_type text) (cache st) in
        (v, with_cache c st)
   else (None, st)) = (None, st).
Proof.
  intros [->|Hf]; [done|]. destruct use_cache; [|done].
  rewrite (get_miss _ _ Hf). by destruct st.
Qed.

(** What a computed result is made of. *)
Lemma extract_task_computed E thr text fmt use_cache st l st' :
  cache_miss use_cache fmt text st ->
  extract_task E thr text fmt use_cache st = (inr l, st') ->
  exists cleaned cls e1 ents e2 valid msg fc,
    clean_text E text fmt = inr cleaned
    /\ classify E cleaned thr (env st) = (inr cls, e1)
    /\ extract_entities E cleaned thr e1 = (inr ents, e2)
    /\ validate_task (build_task cls ents) thr = inr (valid, msg, fc)
    /\ l = length (heap st)
    /\ heap st' = heap st ++ [result_data (build_task cls ents) valid msg fc]
    /\ calls st' = calls st ++ [CallCleanText text fmt; CallClassify cleaned;
                                CallExtractEntities cleaned]
    /\ env st' = e2
    /\ (if use_cache
        then _LRUCache.set (cache_key fmt text) l (cache st) = inr (cache st')
        else cache st' = cache st).
Proof.
  intros Hmiss. unfold extract_task.
  rewrite (lookup_after_miss _ _ _ _ Hmiss).
  destruct (clean_text E text fmt) as [e|cleaned] eqn:Hc; [done|]. simpl.
  destruct (classify E cleaned thr (env st)) as [[e|cls] e1] eqn:Hi; [done|]. simpl.
  destruct (extract_entities E cleaned thr e1) as [[e|ents] e2] eqn:He; [done|]. simpl.
  destruct (validate_task (build_task cls ents) thr) as [e|[[valid msg] fc]]
    eqn:Hv; [done|]. simpl.
  destruct use_cache.
  - destruct (_LRUCache.set _ _ _) as [e|c] eqn:Hset; [done|].
    intros [= <- <-]. exists cleaned, cls, e1, ents, e2, valid, msg, fc.
    simpl. rewrite <- !app_assoc. by repeat split.
  - intros [= <- <-]. exists cleaned, cls, e1, ents, e2, valid, msg, fc.
    simpl. rewrite <- !app_assoc. by repeat split.
Qed.

Lemma set_returns {V} key (v : V) (c : _LRUCache.t V) :
  (0 < _LRUCache.capacity c)%Z -> exists c', _LRUCache.set key v c = inr c'.
Proof.
  intros Hcap. unfold _LRUCache.set.
  destruct (_LRUCache.find key (_LRUCache.cache_map c)); [by eexists|].
  destruct (Z.leb_spec (_LRUCache.capacity c)
              (Z.of_nat (length (_LRUCache.cache_map c)))) as [Hfull|_];
    [|by eexists].
  destruct (_LRUCache.cache_map c); [simpl in Hfull; lia | by eexists].
Qed.

End ExtractTaskFacts.

(** ** The task dictionary *)

Section TaskFacts.
Import TaskExtractor.

Lemma initial_task_view cls ents :
  initial_task cls ents = task_of no_fields VNone (scores_of cls ents).
Proof. reflexivity. Qed.

Lemma map_entity_view fs d sc ent :
  map_entity (task_of fs d sc) ent = task_of (step_fields fs ent) d sc.
Proof.
  unfold map_entity, step_fields, label_of, token_of.
  change (item "title" (task_of fs d sc)) with (f_title fs).
  change (item "assignee" (task_of fs d sc)) with (f_assignee fs).
  change (item "deadline" (task_of fs d sc)) with (f_deadline fs).
  change (item "priority" (task_of fs d sc)) with (f_priority fs).
  repeat match goal with
         | |- context [if ?b then _ else _] => destruct b
         end; reflexivity.
Qed.

Lemma map_entities_view ents fs d sc :
  map_entities (task_of fs d sc) ents
  = task_of (fold_left step_fields ents fs) d sc.
Proof.
  revert fs. induction ents as [|ent ents IH]; intros fs; [done|].
  unfold map_entities in *. simpl. by rewrite map_entity_view, IH.
Qed.

Lemma build_task_view cls ents :
  build_task cls ents
  = task_of (fold_left step_fields ents no_fields)
      (VStr (description_of cls)) (scores_of cls ents).
Proof.
  unfold build_task. rewrite initial_task_view, map_entities_view.
  unfold fill_description, description_of.
  change (item "description" (task_of ?fs VNone ?sc)) with VNone. simpl.
  destruct (cls_label cls) as [l|]; [|done].
  by destruct (String.eqb l "").
Qed.

End TaskFacts.

(** ** Confidence fusion and validation *)

Section ConfidenceFacts.
Import TaskExtractor.

Lemma Qlt_bool_iff (a b : Q) : Qlt_bool a b = true <-> (a < b)%Q.
Proof.
  unfold Qlt_bool. rewrite negb_true_iff. split.
  - intros H. apply Qnot_le_lt. intros Hle.
    apply Qle_bool_iff in Hle. congruence.
  - intros H. destruct (Qle_bool b a) eqn:Hb; [|done].
    apply Qle_bool_iff in Hb. exfalso. by apply (Qlt_not_le a b).
Qed.

Lemma Qlt_bool_false_iff (a b : Q) : Qlt_bool a b = false <-> (b <= a)%Q.
Proof.
  unfold Qlt_bool. rewrite negb_false_iff. apply Qle_bool_iff.
Qed.

Lemma sum_bounds (xs : list Q) :
  Forall in_unit_interval xs ->
  (0 <= fold_right Qplus 0 xs
   /\ fold_right Qplus 0 xs <= inject_Z (Z.of_nat (length xs)))%Q.
Proof.
  induction 1 as [|x xs [Hx0 Hx1] _ [IH0 IH1]]; simpl fold_right.
  - split; apply Qle_refl.
  - change (length (x :: xs)) with (S (length xs)).
    rewrite Nat2Z.inj_succ. unfold Z.succ. rewrite inject_Z_plus.
    change (inject_Z 1) with 1%Q. split; lra.
Qed.

Lemma mean_bounds (xs : list Q) :
  xs <> [] -> Forall in_unit_interval xs -> in_unit_interval (mean xs).
Proof.
  intros Hne Hall. destruct (sum_bounds xs Hall) as [H0 H1].
  assert (Hn : (0 < inject_Z (Z.of_nat (length xs)))%Q).
  { change 0%Q with (inject_Z 0). rewrite <- Zlt_Qlt.
    destruct xs; [done|simpl; lia]. }
  unfold mean, in_unit_interval. split.
  - apply Qle_shift_div_l; [done|]. lra.
  - apply Qle_shift_div_r; [done|]. lra.
Qed.

Lemma entity_confidence_bounds (ents : list Entity) :
  Forall (fun ent => in_unit_interval (ent_confidence ent)) ents ->
  in_unit_interval (entity_confidence ents).
Proof.
  intros Hall. destruct ents as [|ent ents].
  - simpl. split; lra.
  - unfold entity_confidence. apply mean_bounds; [done|].
    by apply Forall_fmap.
Qed.

Lemma combined_confidence_bounds cls ents :
  in_unit_interval (intent_confidence cls) ->
  Forall (fun ent => in_unit_interval (ent_confidence ent)) ents ->
  in_unit_interval (combined_confidence cls ents).
Proof.
  intros [Hi0 Hi1] Hall.
  destruct (entity_confidence_bounds ents Hall) as [He0 He1].
  unfold combined_confidence, in_unit_interval.
  split.
  - apply Qle_shift_div_l; lra.
  - apply Qle_shift_div_r; lra.
Qed.

Lemma step_fields_typed fs ent : fields_typed fs -> fields_typed (step_fields fs ent).
Proof.
  intros (Ht & Ha & Hd & Hp). unfold step_fields.
  repeat match goal with
         | |- context [if ?b then _ else _] => destruct b
         end; by repeat split.
Qed.

Lemma fold_fields_typed ents fs :
  fields_typed fs -> fields_typed (fold_left step_fields ents fs).
Proof.
  revert fs. induction ents as [|ent ents IH]; intros fs Hfs; [done|].
  simpl. by apply IH, step_fields_typed.
Qed.

Lemma validate_task_view fs ds sc (c : Q) threshold :
  is_str_or_none (f_title fs) = true ->
  dict_get "combined_confidence" sc = Some (VFloat c) ->
  validate_task (task_of fs (VStr ds) sc) threshold = inr (verdict c threshold).
Proof.
  intros Ht Hc. unfold validate_task.
  change (List.find _ required_fields) with (@None string).
  change (item "title" (task_of fs (VStr ds) sc)) with (f_title fs).
  rewrite Ht. simpl negb. cbv iota.
  change (item "confidence_scores" (task_of fs (VStr ds) sc)) with (VDict sc).
  cbv iota beta. rewrite Hc. simpl. unfold verdict.
  destruct (Qlt_bool c 0 || Qlt_bool 1 c); [done|].
  by destruct (Qlt_bool c threshold).
Qed.

Lemma validate_built cls ents threshold :
  validate_task (build_task cls ents) threshold
  = inr (verdict (combined_confidence cls ents) threshold).
Proof.
  rewrite build_task_view. apply validate_task_view; [|done].
  by apply (fold_fields_typed ents no_fields).
Qed.

Lemma verdict_valid c threshold :
  let '(valid, msg, fc) := verdict c threshold in
  fc = c
  /\ (msg = "" \/ msg = "combined_confidence score is out of valid range [0,1]."
      \/ msg = "Final confidence below threshold.")
  /\ (valid = false <-> (c < 0 \/ 1 < c \/ c < threshold)%Q).
Proof.
  unfold verdict.
  destruct (Qlt_bool c 0) eqn:H0; simpl.
  { apply Qlt_bool_iff in H0. repeat split; auto. }
  destruct (Qlt_bool 1 c) eqn:H1; simpl.
  { apply Qlt_bool_iff in H1. repeat split; auto. }
  destruct (Qlt_bool c threshold) eqn:H2.
  { apply Qlt_bool_iff in H2. repeat split; auto. }
  apply Qlt_bool_false_iff in H0, H1, H2.
  repeat split; auto; [done|].
  intros [H|[H|H]]; exfalso; lra.
Qed.

(** [extract_task] returns whenever the three collaborators answer and
    the cache, if used, has a positive capacity. *)
Lemma extract_task_returns {Env} (E : Collaborators Env) thr text fmt
    use_cache (st : state Env) cleaned cls e1 ents e2 :
  cache_miss use_cache fmt text st ->
  clean_text E text fmt = inr cleaned ->
  classify E cleaned thr (env st) = (inr cls, e1) ->
  extract_entities E cleaned thr e1 = (inr ents, e2) ->
  (use_cache = false \/ (0 < _LRUCache.capacity (cache st))%Z) ->
  exists st',
    extract_task E thr text fmt use_cache st = (inr (length (heap st)), st').
Proof.
  intros Hmiss Hc Hi He Hcap. unfold extract_task.
  rewrite (lookup_after_miss _ _ _ _ Hmiss), Hc. simpl.
  rewrite Hi. simpl. rewrite He. simpl. rewrite validate_built.
  destruct (verdict (combined_confidence cls ents) thr) as [[valid msg] fc].
  simpl. destruct use_cache; [|by eexists].
  destruct Hcap as [|Hcap]; [done|].
  destruct (set_returns (V:=loc) (cache_key fmt text) (length (heap st))
              (cache st) Hcap) as [c' ->].
  by eexists.
Qed.

End ConfidenceFacts.

Section ProducedResults.
Context {Env : Type}.
Import TaskExtractor.

(** C10.  A result that [extract_task] computes holds a [task_info] with
    all six required keys, a dictionary under [confidence_scores], a
    string under [description] and a string or [None] under [title].
    [validate_task] therefore never answers with a missing-field or a
    wrong-type message on it, and [valid] is false exactly when the
    combined confidence is below 0, above 1 or below the threshold. *)
Theorem produced_task_is_well_formed (E : Collaborators Env) (threshold : Q)
    (text format_type : string) (use_cache : bool) (st st' : state Env)
    (l : loc) :
  cache_miss use_cache format_type text st ->
  extract_task E threshold text format_type use_cache st = (inr l, st') ->
  exists task valid msg (fc : Q),
    heap st' !! l = Some (result_data task valid msg fc)
    /\ Forall (fun f => dict_mem f task = true) required_fields
    /\ (exists scores,
          dict_get "confidence_scores" task = Some (VDict scores)
          /\ dict_get "combined_confidence" scores = Some (VFloat fc))
    /\ (exists s, dict_get "description" task = Some (VStr s))
    /\ is_str_or_none (item "title" task) = true
    /\ validate_task task threshold = inr (valid, msg, Finite fc)
    /\ (msg = ""
        \/ msg = "combined_confidence score is out of valid range [0,1]."
        \/ msg = "Final confidence below threshold.")
    /\ (valid = false <-> (fc < 0 \/ 1 < fc \/ fc < threshold)%Q).
Proof.
  intros Hmiss Hrun.
  destruct (extract_task_computed E _ _ _ _ _ _ _ Hmiss Hrun)
    as (cleaned & cls & e1 & ents & e2 & valid & msg & fc
        & _ & _ & _ & Hv & -> & Hheap & _).
  rewrite validate_built in Hv.
  pose proof (verdict_valid (combined_confidence cls ents) threshold) as Hverdict.
  injection Hv as Hv. rewrite Hv in Hverdict.
  destruct Hverdict as (-> & Hmsg & Hvalid).
  exists (build_task cls ents), valid, msg, (combined_confidence cls ents).
  split. { rewrite Hheap. apply list_lookup_middle. done. }
  rewrite validate_built, Hv, build_task_view.
  split. { by repeat constructor. }
  split. { by exists (scores_of cls ents). }
  split. { by eexists. }
  split. { apply (fold_fields_typed ents no_fields). by repeat split. }
  split; [done|]. split; [done|]. exact Hvalid.
Qed.

End ProducedResults.

Lemma produced_task_is_well_formed_witness :
  exists task valid msg (fc : Q),
    heap (snd (extract_task
                 (fixed_collaborators (mkClassification (Some "TASK") (Some (9 # 10)))
                    [mkEntity (Some "assignee") (Some "Alice") (4 # 5)])
                 (3 # 5) "Please ask Alice" "email" true (init_state 4 tt)))
      !! 0%nat = Some (result_data task valid msg fc)
    /\ validate_task task (3 # 5) = inr (valid, msg, Finite fc)
    /\ valid = true.
Proof.
  edestruct (produced_task_is_well_formed
              (fixed_collaborators (mkClassification (Some "TASK") (Some (9 # 10)))
                 [mkEntity (Some "assignee") (Some "Alice") (4 # 5)])
              (3 # 5) "Please ask Alice" "email" true (init_state 4 tt))
    as (task & valid & msg & fc & Hl & _ & _ & _ & _ & Hv & _ & Hvalid).
  - right. reflexivity.
  - reflexivity.
  - exists task, valid, msg, fc. split; [exact Hl|]. split; [exact Hv|].
    vm_compute in Hl. injection Hl as <- <- <- <-. reflexivity.
Defined.

Section ConfidenceFusion.
Context {Env : Type}.

(** C1, as the code has it.  The combined confidence a computed result
    stores is the plain average of the intent confidence and the mean
    entity confidence (0 without entities); nothing clamps it.  It lies
    in [0,1] whenever the classifier's confidence and every entity
    confidence do; a value outside [0,1] is stored as it is and the
    result is marked invalid. *)
Theorem combined_confidence_is_plain_average (E : Collaborators Env)
    (threshold : Q) (text format_type : string) (use_cache : bool)
    (st st' : state Env) (l : loc) :
  cache_miss use_cache format_type text st ->
  extract_task E threshold text format_type use_cache st = (inr l, st') ->
  exists cleaned cls e1 ents e2 d,
    clean_text E text format_type = inr cleaned
    /\ classify E cleaned threshold (env st) = (inr cls, e1)
    /\ extract_entities E cleaned threshold e1 = (inr ents, e2)
    /\ heap st' !! l = Some d
    /\ stored_combined_confidence d
       = Some (VFloat ((intent_confidence cls + entity_confidence ents) / 2))
    /\ entity_confidence ents
       = match ents with
         | [] => 0%Q
         | _ => (fold_right Qplus 0 (map ent_confidence ents)
                 / inject_Z (Z.of_nat (length (map ent_confidence ents))))%Q
         end
    /\ (in_unit_interval (intent_confidence cls) ->
        Forall (fun ent => in_unit_interval (ent_confidence ent)) ents ->
        in_unit_interval
          ((intent_confidence cls + entity_confidence ents) / 2))
    /\ ((combined_confidence cls ents < 0 \/ 1 < combined_confidence cls ents)%Q ->
        dict_get "valid" d = Some (VBool false)).
Proof.
  intros Hmiss Hrun.
  destruct (extract_task_computed E _ _ _ _ _ _ _ Hmiss Hrun)
    as (cleaned & cls & e1 & ents & e2 & valid & msg & fc
        & Hc & Hi & He & Hv & -> & Hheap & _).
  exists cleaned, cls, e1, ents, e2,
    (result_data (build_task cls ents) valid msg fc).
  split; [done|]. split; [done|]. split; [done|].
  split. { rewrite Hheap. by apply list_lookup_middle. }
  split. { unfold stored_combined_confidence. simpl. by rewrite build_task_view. }
  split. { by destruct ents. }
  split. { apply combined_confidence_bounds. }
  intros Hout. rewrite validate_built in Hv. injection Hv as Hv.
  pose proof (verdict_valid (combined_confidence cls ents) threshold) as Hverdict.
  rewrite Hv in Hverdict. destruct Hverdict as (_ & _ & Hvalid).
  simpl. do 2 f_equal. apply Hvalid. tauto.
Qed.

End ConfidenceFusion.

Lemma combined_confidence_is_plain_average_witness :
  exists d,
    heap (snd (extract_task
                 (fixed_collaborators (mkClassification (Some "TASK") (Some (9 # 10)))
                    [mkEntity (Some "assignee") (Some "Alice") (4 # 5);
                     mkEntity (Some "deadline") (Some "Friday") (3 # 5)])
                 (3 # 5) "Please ask Alice by Friday" "email" true
                 (init_state 4 tt)))
      !! 0%nat = Some d
    /\ exists q : Q, stored_combined_confidence d = Some (VFloat q)
                 /\ (q == 4 # 5)%Q.
Proof.
  edestruct (combined_confidence_is_plain_average
              (fixed_collaborators (mkClassification (Some "TASK") (Some (9 # 10)))
                 [mkEntity (Some "assignee") (Some "Alice") (4 # 5);
                  mkEntity (Some "deadline") (Some "Friday") (3 # 5)])
              (3 # 5) "Please ask Alice by Friday" "email" true (init_state 4 tt))
    as (cleaned & cls & e1 & ents & e2 & d & _ & Hi & He & Hl & Hs & _).
  - right. reflexivity.
  - reflexivity.
  - exists d. split; [exact Hl|]. eexists. split; [exact Hs|].
    simpl in Hi, He. injection Hi as <- _. injection He as <- _.
    reflexivity.
Defined.

(** C1 as the specification states it fails: with an intent confidence
    of 3 and no entities the stored value is 3/2, neither clamped to 1
    nor inside [0,1]. *)
Lemma combined_confidence_clamped_counterexample :
  ~ (forall l st',
       extract_task (fixed_collaborators (mkClassification (Some "TASK") (Some 3%Q)) [])
         (1 # 2) "ship the release" "chat" false (init_state 4 tt) = (inr l, st') ->
       exists d (q : Q),
         heap st' !! l = Some d
         /\ stored_combined_confidence d = Some (VFloat q)
         /\ (q == clamp ((3 + 0) / 2) 0 1)%Q
         /\ (0 <= q /\ q <= 1)%Q).
Proof.
  intros H. destruct (H 0%nat _ eq_refl) as (d & q & Hl & Hs & Hq & _).
  vm_compute in Hl. injection Hl as <-.
  vm_compute in Hs. injection Hs as <-.
  vm_compute in Hq. discriminate.
Qed.

(** ** Field mapping *)

Section FieldMapping.

Lemma first_match_typed keyword ents :
  is_str_or_none (first_match keyword ents) = true.
Proof.
  induction ents as [|ent ents IH]; simpl; [done|].
  destruct (matches keyword ent); [|done].
  destruct (String.eqb (token_of ent) ""); [|done].
  by destruct (first_match keyword ents).
Qed.

(** One turn of the loop changes a field only when the field is falsy. *)
Lemma step_fields_keeps fs ent :
  (truthy (f_title fs) = true -> f_title (step_fields fs ent) = f_title fs)
  /\ (truthy (f_assignee fs) = true ->
      f_assignee (step_fields fs ent) = f_assignee fs)
  /\ (truthy (f_deadline fs) = true ->
      f_deadline (step_fields fs ent) = f_deadline fs)
  /\ (truthy (f_priority fs) = true ->
      f_priority (step_fields fs ent) = f_priority fs).
Proof.
  unfold step_fields.
  destruct (contains "TITLE" (label_of ent)),
           (contains "ASSIGNEE" (label_of ent)),
           (contains "DEADLINE" (label_of ent)),
           (contains "PRIORITY" (label_of ent)),
           (truthy (f_title fs)), (truthy (f_assignee fs)),
           (truthy (f_deadline fs)), (truthy (f_priority fs));
    simpl; repeat split; intros; done.
Qed.

Lemma fold_fields_keeps ents fs :
  (truthy (f_title fs) = true ->
   f_title (fold_left step_fields ents fs) = f_title fs)
  /\ (truthy (f_assignee fs) = true ->
      f_assignee (fold_left step_fields ents fs) = f_assignee fs)
  /\ (truthy (f_deadline fs) = true ->
      f_deadline (fold_left step_fields ents fs) = f_deadline fs)
  /\ (truthy (f_priority fs) = true ->
      f_priority (fold_left step_fields ents fs) = f_priority fs).
Proof.
  revert fs. induction ents as [|ent ents IH]; intros fs; [done|].
  simpl. destruct (IH (step_fields fs ent)) as (I1 & I2 & I3 & I4).
  destruct (step_fields_keeps fs ent) as (S1 & S2 & S3 & S4).
  repeat split; intros H.
  - rewrite I1; rewrite S1; done.
  - rewrite I2; rewrite S2; done.
  - rewrite I3; rewrite S3; done.
  - rewrite I4; rewrite S4; done.
Qed.

(** With at most one keyword in the label the four fields do not
    interfere. *)
Lemma step_fields_single fs ent :
  single_keyword ent = true ->
  f_title (step_fields fs ent)
  = (if matches "TITLE" ent && negb (truthy (f_title fs))
     then VStr (token_of ent) else f_title fs)
  /\ f_assignee (step_fields fs ent)
     = (if matches "ASSIGNEE" ent && negb (truthy (f_assignee fs))
        then VStr (token_of ent) else f_assignee fs)
  /\ f_deadline (step_fields fs ent)
     = (if matches "DEADLINE" ent && negb (truthy (f_deadline fs))
        then VStr (token_of ent) else f_deadline fs)
  /\ f_priority (step_fields fs ent)
     = (if matches "PRIORITY" ent && negb (truthy (f_priority fs))
        then VStr (token_of ent) else f_priority fs).
Proof.
  unfold single_keyword, step_fields, field_keywords, matches. simpl.
  destruct (contains "TITLE" (label_of ent)),
           (contains "ASSIGNEE" (label_of ent)),
           (contains "DEADLINE" (label_of ent)),
           (contains "PRIORITY" (label_of ent));
    simpl; try discriminate; intros _;
    destruct (truthy (f_title fs)), (truthy (f_assignee fs)),
             (truthy (f_deadline fs)), (truthy (f_priority fs));
    simpl; by repeat split.
Qed.

Lemma settle_step (v : value) keyword ent ents :
  is_str_or_none v = true ->
  settle (if matches keyword ent && negb (truthy v)
          then VStr (token_of ent) else v) keyword ents
  = settle v keyword (ent :: ents).
Proof.
  intros Hv. unfold settle. simpl first_match.
  destruct (truthy v) eqn:Htv.
  - rewrite andb_false_r. by rewrite Htv.
  - rewrite andb_true_r. destruct (matches keyword ent); [|by rewrite Htv].
    simpl truthy. destruct (String.eqb (token_of ent) "") eqn:Htok; simpl.
    + apply String.eqb_eq in Htok. rewrite Htok.
      by destruct (first_match keyword ents).
    + done.
Qed.

Lemma fold_fields_single ents fs :
  fields_typed fs ->
  Forall (fun ent => single_keyword ent = true) ents ->
  f_title (fold_left step_fields ents fs) = settle (f_title fs) "TITLE" ents
  /\ f_assignee (fold_left step_fields ents fs)
     = settle (f_assignee fs) "ASSIGNEE" ents
  /\ f_deadline (fold_left step_fields ents fs)
     = settle (f_deadline fs) "DEADLINE" ents
  /\ f_priority (fold_left step_fields ents fs)
     = settle (f_priority fs) "PRIORITY" ents.
Proof.
  intros Hty Hall. revert fs Hty.
  induction Hall as [|ent ents Hent _ IH]; intros fs Hty.
  - unfold settle. simpl.
    by destruct (truthy (f_title fs)), (truthy (f_assignee fs)),
                (truthy (f_deadline fs)), (truthy (f_priority fs)).
  - simpl fold_left.
    destruct (IH _ (step_fields_typed fs ent Hty)) as (I1 & I2 & I3 & I4).
    destruct (step_fields_single fs ent Hent) as (S1 & S2 & S3 & S4).
    destruct Hty as (T1 & T2 & T3 & T4).
    rewrite I1, I2, I3, I4, S1, S2, S3, S4.
    by rewrite !settle_step.
Qed.

Lemma settle_None keyword ents : settle VNone keyword ents = first_match keyword ents.
Proof. unfold settle. simpl. by destruct (first_match keyword ents). Qed.

End FieldMapping.

(** C8, as the code has it.  A field that holds a non-empty token is
    never written again in the same extraction.  When every label
    contains at most one of the four keywords, each field ends with the
    token of the first entity, in recognizer order, whose upper-cased
    label contains the field's keyword and whose token is not empty (an
    empty token leaves the field open for a later entity). *)
Theorem field_mapping_first_nonempty_match_wins
    (cls : ClassificationResult) (ents : list Entity) :
  (forall field keyword (ents1 ents2 : list Entity) (s : string),
      (field, keyword) ∈ field_keywords ->
      s <> "" ->
      item field (map_entities (initial_task cls ents) ents1) = VStr s ->
      item field (map_entities (initial_task cls ents) (ents1 ++ ents2)) = VStr s)
  /\ (Forall (fun ent => single_keyword ent = true) ents ->
      forall field keyword,
        (field, keyword) ∈ field_keywords ->
        item field (build_task cls ents) = first_match keyword ents).
Proof.
  split.
  - intros field keyword ents1 ents2 s Hin Hs.
    rewrite initial_task_view, !map_entities_view, fold_left_app.
    destruct (fold_fields_keeps ents2 (fold_left step_fields ents1 no_fields))
      as (K1 & K2 & K3 & K4).
    assert (Htruthy : truthy (VStr s) = true).
    { simpl. apply negb_true_iff. by apply String.eqb_neq. }
    unfold field_keywords in Hin.
    repeat (apply elem_of_cons in Hin as [[= -> ->]|Hin]);
      [| | | |by apply elem_of_nil in Hin].
    + change (item "title" (task_of ?fs ?d ?sc)) with (f_title fs).
      intros H. rewrite K1; rewrite H; done.
    + change (item "assignee" (task_of ?fs ?d ?sc)) with (f_assignee fs).
      intros H. rewrite K2; rewrite H; done.
    + change (item "deadline" (task_of ?fs ?d ?sc)) with (f_deadline fs).
      intros H. rewrite K3; rewrite H; done.
    + change (item "priority" (task_of ?fs ?d ?sc)) with (f_priority fs).
      intros H. rewrite K4; rewrite H; done.
  - intros Hall field keyword Hin. rewrite build_task_view.
    destruct (fold_fields_single ents no_fields) as (F1 & F2 & F3 & F4);
      [by repeat split | done |].
    unfold field_keywords in Hin.
    repeat (apply elem_of_cons in Hin as [[= -> ->]|Hin]);
      [| | | |by apply elem_of_nil in Hin].
    + change (item "title" (task_of ?fs ?d ?sc)) with (f_title fs).
      by rewrite F1, settle_None.
    + change (item "assignee" (task_of ?fs ?d ?sc)) with (f_assignee fs).
      by rewrite F2, settle_None.
    + change (item "deadline" (task_of ?fs ?d ?sc)) with (f_deadline fs).
      by rewrite F3, settle_None.
    + change (item "priority" (task_of ?fs ?d ?sc)) with (f_priority fs).
      by rewrite F4, settle_None.
Qed.

Lemma field_mapping_first_nonempty_match_wins_witness :
  let ents := [ mkEntity (Some "B-assignee") (Some "Alice") (9 # 10);
                mkEntity (Some "B-deadline") (Some "Friday") (4 # 5);
                mkEntity (Some "B-assignee") (Some "Bob") (9 # 10);
                mkEntity (Some "B-priority") (Some "high") (7 # 10) ] in
  Forall (fun ent => single_keyword ent = true) ents
  /\ item "assignee" (build_task (mkClassification (Some "TASK") (Some (9 # 10))) ents)
     = VStr "Alice".
Proof.
  intros ents.
  assert (Hall : Forall (fun ent => single_keyword ent = true) ents).
  { repeat constructor. }
  split; [exact Hall|].
  destruct (field_mapping_first_nonempty_match_wins
              (mkClassification (Some "TASK") (Some (9 # 10))) ents) as [_ H].
  rewrite (H Hall "assignee" "ASSIGNEE").
  - reflexivity.
  - unfold field_keywords. right. left.
Defined.

(** C8 as the specification states it fails.  An entity without a token
    sets [title] to the empty string, and the next TITLE entity
    overwrites it.  And an entity whose label names two fields fills the
    first free one only: here the first entity that matches ASSIGNEE
    leaves [assignee] unset, and [assignee] gets the token of a later
    entity. *)
Lemma first_match_wins_counterexample :
  let cls := mkClassification (Some "TASK") (Some (9 # 10)) in
  let e1 := mkEntity (Some "TITLE") None (9 # 10) in
  let e2 := mkEntity (Some "TITLE") (Some "Fix login") (9 # 10) in
  let e3 := mkEntity (Some "TITLE-ASSIGNEE") (Some "Bob") (9 # 10) in
  let e4 := mkEntity (Some "ASSIGNEE") (Some "Carol") (9 # 10) in
  (item "title" (map_entities (initial_task cls [e1; e2]) [e1])
   = VStr (token_of e1)
   /\ item "title" (map_entities (initial_task cls [e1; e2]) [e1; e2])
      = VStr "Fix login"
   /\ item "title" (build_task cls [e1; e2]) <> VStr (token_of e1))
  /\ (matches "ASSIGNEE" e3 = true
      /\ item "assignee" (map_entities (initial_task cls [e3; e4]) [e3]) = VNone
      /\ item "assignee" (build_task cls [e3; e4]) = VStr "Carol"
      /\ item "assignee" (build_task cls [e3; e4]) <> VStr (token_of e3)).
Proof. repeat split; discriminate. Qed.

(** ** Caching of results *)

Section CacheHits.
Context {Env : Type}.
Implicit Types (E : Collaborators Env) (st : state Env).

Lemma find_snoc {V} key (v : V) (m : list (string * V)) :
  key ∉ map fst m -> _LRUCache.find key (m ++ [(key, v)]) = Some v.
Proof.
  induction m as [|[k w] m IH]; simpl; intros Hk.
  - by rewrite String.eqb_refl.
  - apply not_elem_of_cons in Hk as [Hne Hk].
    apply String.eqb_neq in Hne. rewrite Hne. by apply IH.
Qed.

Lemma find_after_move {V} key (v : V) (m : list (string * V)) :
  NoDup (map fst m) ->
  _LRUCache.find key (_LRUCache.remove key m ++ [(key, v)]) = Some v.
Proof. intros Hnd. apply find_snoc. by apply remove_not_elem. Qed.

Lemma find_after_set {V} key (v : V) (c c' : _LRUCache.t V) :
  NoDup (_LRUCache.keys c) ->
  _LRUCache.set key v c = inr c' ->
  _LRUCache.find key (_LRUCache.cache_map c') = Some v.
Proof.
  intros Hnd. unfold _LRUCache.set.
  destruct (_LRUCache.find key (_LRUCache.cache_map c)) as [w|] eqn:Hf.
  - intros [= <-]. simpl. by apply find_after_move.
  - apply find_None_iff in Hf.
    destruct (_LRUCache.capacity c <=? _)%Z.
    + destruct (_LRUCache.cache_map c) as [|e rest]; [done|].
      intros [= <-]. simpl. apply find_snoc.
      simpl in Hf. by apply not_elem_of_cons in Hf as [_ Hf].
    + intros [= <-]. simpl. by apply find_snoc.
Qed.

Lemma set_keeps_NoDup {V} key (v : V) (c c' : _LRUCache.t V) :
  NoDup (_LRUCache.keys c) -> _LRUCache.set key v c = inr c' ->
  NoDup (_LRUCache.keys c').
Proof.
  intros Hnd. unfold _LRUCache.set.
  assert (Hsnoc : forall m : list (string * V), NoDup (map fst m) -> key ∉ map fst m ->
                            NoDup (map fst (m ++ [(key, v)]))).
  { intros m Hm Hk. rewrite map_app. apply NoDup_app.
    split; [done|]. split; [|apply NoDup_singleton].
    intros x Hx Hx'. apply list_elem_of_singleton in Hx' as ->. done. }
  destruct (_LRUCache.find key (_LRUCache.cache_map c)) as [w|] eqn:Hf.
  - intros [= <-]. apply Hsnoc; [by apply remove_NoDup|by apply remove_not_elem].
  - apply find_None_iff in Hf.
    destruct (_LRUCache.capacity c <=? _)%Z.
    + unfold _LRUCache.keys in Hnd.
      destruct (_LRUCache.cache_map c) as [|e rest]; [done|].
      intros [= <-]. simpl in Hnd, Hf.
      apply NoDup_cons in Hnd as [_ Hnd].
      apply not_elem_of_cons in Hf as [_ Hf]. by apply Hsnoc.
    + intros [= <-]. by apply Hsnoc.
Qed.

Lemma get_keeps_NoDup {V} key (c : _LRUCache.t V) :
  NoDup (_LRUCache.keys c) -> NoDup (_LRUCache.keys (snd (_LRUCache.get key c))).
Proof.
  intros Hnd. unfold _LRUCache.get.
  destruct (_LRUCache.find key (_LRUCache.cache_map c)) as [w|] eqn:Hf; [|done].
  unfold _LRUCache.keys. simpl. rewrite map_app. apply NoDup_app.
  split; [by apply remove_NoDup|]. split; [|apply NoDup_singleton].
  intros x Hx Hx'. apply list_elem_of_singleton in Hx' as ->.
  by apply (remove_not_elem key (_LRUCache.cache_map c)).
Qed.

(** A hit returns the stored reference and touches neither the heap, nor
    the models, nor the outside world. *)
Lemma extract_task_hit E thr text fmt st l :
  _LRUCache.find (cache_key fmt text) (_LRUCache.cache_map (cache st)) = Some l ->
  exists st',
    extract_task E thr text fmt true st = (inr l, st')
    /\ heap st' = heap st /\ calls st' = calls st /\ env st' = env st.
Proof.
  intros Hf. unfold extract_task, _LRUCache.get. rewrite Hf.
  eexists. split; [reflexivity|]. by repeat split.
Qed.

(** After a call that used the cache and returned, the key maps to the
    returned reference. *)
Lemma extract_task_caches E thr text fmt st st1 l :
  NoDup (_LRUCache.keys (cache st)) ->
  extract_task E thr text fmt true st = (inr l, st1) ->
  _LRUCache.find (cache_key fmt text) (_LRUCache.cache_map (cache st1)) = Some l.
Proof.
  intros Hnd Hrun.
  destruct (_LRUCache.find (cache_key fmt text)
              (_LRUCache.cache_map (cache st))) as [l0|] eqn:Hf.
  - unfold extract_task, _LRUCache.get in Hrun. rewrite Hf in Hrun.
    injection Hrun as <- <-. simpl. by apply find_after_move.
  - destruct (extract_task_computed E thr text fmt true st l st1)
      as (_ & _ & _ & _ & _ & _ & _ & _ & _ & _ & _ & _ & _ & _ & _ & _ & Hset);
      [by right | done |].
    by apply (find_after_set _ _ _ _ Hnd Hset).
Qed.

(** A call that used the cache and returned leaves the keys of the cache
    distinct. *)
Lemma extract_task_keeps_NoDup E thr text fmt st st1 l :
  NoDup (_LRUCache.keys (cache st)) ->
  extract_task E thr text fmt true st = (inr l, st1) ->
  NoDup (_LRUCache.keys (cache st1)).
Proof.
  intros Hnd Hrun.
  destruct (_LRUCache.find (cache_key fmt text)
              (_LRUCache.cache_map (cache st))) as [l0|] eqn:Hf.
  - pose proof (get_keeps_NoDup (cache_key fmt text) (cache st) Hnd) as Hget.
    unfold extract_task, _LRUCache.get in Hrun, Hget. rewrite Hf in Hrun, Hget.
    by injection Hrun as <- <-.
  - destruct (extract_task_computed E thr text fmt true st l st1)
      as (_ & _ & _ & _ & _ & _ & _ & _ & _ & _ & _ & _ & _ & _ & _ & _ & Hset);
      [by right | done |].
    by apply (set_keeps_NoDup _ _ _ _ Hnd Hset).
Qed.

(** Every reference the cache holds points into the heap. *)
Lemma find_in_heap {V} key (l : loc) (m : list (string * loc)) (h : list V) :
  Forall (fun kv => (snd kv < length h)%nat) m ->
  _LRUCache.find key m = Some l ->
  exists d, h !! l = Some d.
Proof.
  intros Hm Hf. induction Hm as [|[k l0] m Hk Hm IH]; simpl in Hf; [done|].
  destruct (String.eqb key k).
  - injection Hf as <-. by apply lookup_lt_is_Some_2.
  - by apply IH.
Qed.

(** C7.  When [extract_task(t, fmt, use_cache=True)] returns, it has
    stored the object it returns under the key of the text and format:
    on a miss that object is the new dictionary, made of what the models
    answered, at the end of the heap, and on a hit it is the object the
    cache already held.  A second call with the same text and format is
    then a cache hit: it returns the same object with the same contents,
    calls neither model, whatever the models would answer now, and
    leaves the object under the key. *)
Theorem cached_extraction_is_idempotent (E E' : Collaborators Env)
    (threshold : Q) (text format_type : string) (st st1 : state Env) (l : loc) :
  NoDup (_LRUCache.keys (cache st)) ->
  Forall (fun kv => (snd kv < length (heap st))%nat)
    (_LRUCache.cache_map (cache st)) ->
  extract_task E threshold text format_type true st = (inr l, st1) ->
  _LRUCache.find (cache_key format_type text) (_LRUCache.cache_map (cache st1))
  = Some l
  /\ (exists d, heap st1 !! l = Some d)
  /\ (_LRUCache.find (cache_key format_type text)
        (_LRUCache.cache_map (cache st)) = None ->
      exists cleaned cls e1 ents e2 valid msg fc,
        clean_text E text format_type = inr cleaned
        /\ classify E cleaned threshold (env st) = (inr cls, e1)
        /\ extract_entities E cleaned threshold e1 = (inr ents, e2)
        /\ validate_task (build_task cls ents) threshold
           = inr (valid, msg, fc)
        /\ l = length (heap st)
        /\ heap st1
           = heap st ++ [result_data (build_task cls ents) valid msg fc]
        /\ heap st1 !! l
           = Some (result_data (build_task cls ents) valid msg fc))
  /\ (forall l0,
        _LRUCache.find (cache_key format_type text)
          (_LRUCache.cache_map (cache st)) = Some l0 ->
        l = l0 /\ heap st1 = heap st /\ calls st1 = calls st
        /\ env st1 = env st)
  /\ exists st2,
       extract_task E' threshold text format_type true st1 = (inr l, st2)
       /\ heap st2 !! l = heap st1 !! l
       /\ heap st2 = heap st1
       /\ calls st2 = calls st1
       /\ env st2 = env st1
       /\ _LRUCache.find (cache_key format_type text)
            (_LRUCache.cache_map (cache st2)) = Some l.
Proof.
  intros Hnd Hwf Hrun.
  pose proof (extract_task_caches E _ _ _ _ _ _ Hnd Hrun) as Hf.
  assert (Hhit : forall l0,
            _LRUCache.find (cache_key format_type text)
              (_LRUCache.cache_map (cache st)) = Some l0 ->
            l = l0 /\ heap st1 = heap st /\ calls st1 = calls st
            /\ env st1 = env st).
  { intros l0 Hl0.
    destruct (extract_task_hit E threshold text format_type st l0 Hl0)
      as (st' & Hrun' & Hheap & Hcalls & Henv).
    rewrite Hrun in Hrun'. by injection Hrun' as -> ->. }
  assert (Hmiss : _LRUCache.find (cache_key format_type text)
                    (_LRUCache.cache_map (cache st)) = None ->
      exists cleaned cls e1 ents e2 valid msg fc,
        clean_text E text format_type = inr cleaned
        /\ classify E cleaned threshold (env st) = (inr cls, e1)
        /\ extract_entities E cleaned threshold e1 = (inr ents, e2)
        /\ validate_task (build_task cls ents) threshold
           = inr (valid, msg, fc)
        /\ l = length (heap st)
        /\ heap st1
           = heap st ++ [result_data (build_task cls ents) valid msg fc]
        /\ heap st1 !! l
           = Some (result_data (build_task cls ents) valid msg fc)).
  { intros Hnone.
    destruct (extract_task_computed E threshold text format_type true st l st1)
      as (cleaned & cls & e1 & ents & e2 & valid & msg & fc
          & Hc & Hi & He & Hv & Hl & Hheap & _); [by right | done |].
    exists cleaned, cls, e1, ents, e2, valid, msg, fc.
    repeat (split; [done|]).
    rewrite Hheap, Hl. by apply list_lookup_middle. }
  split; [exact Hf|]. split.
  { destruct (_LRUCache.find (cache_key format_type text)
                (_LRUCache.cache_map (cache st))) as [l0|] eqn:Hfind.
    - destruct (Hhit l0 eq_refl) as (-> & -> & _).
      by apply (find_in_heap _ _ _ _ Hwf Hfind).
    - destruct (Hmiss eq_refl)
        as (? & ? & ? & ? & ? & ? & ? & ? & _ & _ & _ & _ & _ & _ & Hd).
      by eexists. }
  split; [exact Hmiss|]. split; [exact Hhit|].
  destruct (extract_task_hit E' threshold text format_type st1 l Hf)
    as (st2 & H2 & Hheap & Hcalls & Henv).
  exists st2. rewrite Hheap. repeat (split; [done|]).
  unfold extract_task, _LRUCache.get in H2. rewrite Hf in H2.
  injection H2 as <-. simpl. apply find_after_move.
  apply (extract_task_keeps_NoDup E _ _ _ _ _ _ Hnd Hrun).
Qed.

(** C9, as the code has it.  The cache stores the very dictionary that
    [extract_task] returns, not a copy: after the caller changes that
    dictionary in place, a cache hit for the same key returns the same
    object, with the caller's changes in it. *)
Theorem cached_result_aliases_returned_dict (E E' : Collaborators Env)
    (threshold : Q) (text format_type : string) (st st1 : state Env)
    (l : loc) (f : dict -> dict) :
  NoDup (_LRUCache.keys (cache st)) ->
  extract_task E threshold text format_type true st = (inr l, st1) ->
  exists st2,
    extract_task E' threshold text format_type true (mutate l f st1)
    = (inr l, st2)
    /\ heap st2 !! l = f <$> heap st1 !! l.
Proof.
  intros Hnd Hrun.
  pose proof (extract_task_caches E _ _ _ _ _ _ Hnd Hrun) as Hf.
  destruct (extract_task_hit E' threshold text format_type (mutate l f st1) l Hf)
    as (st2 & H2 & Hheap & _).
  exists st2. split; [done|]. rewrite Hheap. simpl. apply list_lookup_alter_eq.
Qed.

End CacheHits.

Lemma cached_extraction_is_idempotent_witness :
  let E := fixed_collaborators (mkClassification (Some "TASK") (Some (9 # 10)))
             [mkEntity (Some "assignee") (Some "Alice") (4 # 5)] in
  let st1 := snd (extract_task E (3 # 5) "Please ask Alice" "email" true
                    (init_state 4 tt)) in
  NoDup (_LRUCache.keys (cache (init_state 4 tt)))
  /\ extract_task E (3 # 5) "Please ask Alice" "email" true (init_state 4 tt)
     = (inr 0%nat, st1)
  /\ _LRUCache.find (cache_key "email" "Please ask Alice")
       (_LRUCache.cache_map (cache st1)) = Some 0%nat
  /\ (exists d, heap st1 !! 0%nat = Some d
                /\ dict_get "valid" d = Some (VBool true)
                /\ dict_get "final_confidence" d
                   = Some (VFloat (((9 # 10) + (4 # 5)) / 2)))
  /\ exists st2,
       extract_task E (3 # 5) "Please ask Alice" "email" true st1
       = (inr 0%nat, st2)
       /\ heap st2 = heap st1
       /\ calls st2 = calls st1
       /\ _LRUCache.find (cache_key "email" "Please ask Alice")
            (_LRUCache.cache_map (cache st2)) = Some 0%nat.
Proof.
  intros E st1. split; [constructor|]. split; [reflexivity|].
  destruct (cached_extraction_is_idempotent E E (3 # 5) "Please ask Alice"
              "email" (init_state 4 tt) st1 0%nat)
    as (Hstored & _ & _ & _ & st2 & H2 & _ & Hheap & Hcalls & _ & Hkept).
  - constructor.
  - constructor.
  - reflexivity.
  - split; [exact Hstored|]. split.
    + eexists. split; [reflexivity|]. split; reflexivity.
    + exists st2. split; [exact H2|]. split; [exact Hheap|].
      split; [exact Hcalls | exact Hkept].
Defined.

Lemma cached_result_aliases_returned_dict_witness :
  let E := fixed_collaborators (mkClassification (Some "TASK") (Some (9 # 10)))
             [mkEntity (Some "assignee") (Some "Alice") (4 # 5)] in
  let st1 := snd (extract_task E (3 # 5) "Please ask Alice" "email" true
                    (init_state 4 tt)) in
  NoDup (_LRUCache.keys (cache (init_state 4 tt)))
  /\ exists st2,
       extract_task E (3 # 5) "Please ask Alice" "email" true
         (mutate 0 (dict_set "valid" (VBool false)) st1)
       = (inr 0%nat, st2)
       /\ heap st2 !! 0%nat
          = dict_set "valid" (VBool false) <$> heap st1 !! 0%nat.
Proof.
  intros E st1. split; [constructor|].
  destruct (cached_result_aliases_returned_dict E E (3 # 5) "Please ask Alice"
              "email" (init_state 4 tt) st1 0%nat
              (dict_set "valid" (VBool false)))
    as (st2 & H2 & Hl).
  - constructor.
  - reflexivity.
  - exists st2. split; [exact H2 | exact Hl].
Defined.

(** C9 as the specification states it fails: the caller flips [valid] in
    the dictionary it received, and the next cache hit hands back the
    changed dictionary, not the one that was computed. *)
Lemma cache_stores_a_copy_counterexample :
  let E := fixed_collaborators (mkClassification (Some "TASK") (Some (9 # 10)))
             [mkEntity (Some "assignee") (Some "Alice") (4 # 5)] in
  let '(r1, st1) := extract_task E (3 # 5) "Please ask Alice" "email" true
                      (init_state 4 tt) in
  let '(r2, st2) := extract_task E (3 # 5) "Please ask Alice" "email" true
                      (mutate 0 (dict_set "valid" (VBool false)) st1) in
  r1 = inr 0%nat /\ r2 = inr 0%nat
  /\ (heap st1 !! 0%nat) ≫= dict_get "valid" = Some (VBool true)
  /\ (heap st2 !! 0%nat) ≫= dict_get "valid" = Some (VBool false)
  /\ heap st2 !! 0%nat <> heap st1 !! 0%nat.
Proof. vm_compute. repeat split. discriminate. Qed.

(** ** Empty text *)

Section EmptyText.
Context {Env : Type}.

(** C4, as the code has it.  [extract_task] has no input check of its
    own.  A text whose cleaned form is empty or white space goes through
    [clean_text] and is passed to the intent classifier; the classifier's
    own check raises ValueError, and [extract_task] lets it through.  The
    recognizer is not called, nothing is stored and nothing is cached. *)
Theorem blank_text_is_rejected_by_the_classifier
    (clean : string -> string -> result string)
    (infer_intent : string -> Env -> result (string * Q) * Env)
    (infer_entities : string -> Env -> result (list (string * string * Q)) * Env)
    (threshold : Q) (text format_type : string) (use_cache : bool)
    (st : state Env) (cleaned : string) :
  cache_miss use_cache format_type text st ->
  clean text format_type = inr cleaned ->
  is_blank cleaned = true ->
  exists st',
    extract_task (model_collaborators clean infer_intent infer_entities)
      threshold text format_type use_cache st
    = (inl (ValueError "Text must be a non-empty string for classification."), st')
    /\ calls st' = calls st ++ [CallCleanText text format_type; CallClassify cleaned]
    /\ heap st' = heap st
    /\ cache st' = cache st
    /\ env st' = env st.
Proof.
  intros Hmiss Hclean Hblank. unfold extract_task.
  rewrite (lookup_after_miss _ _ _ _ Hmiss). simpl.
  rewrite Hclean. unfold BERTClassifier.classify. rewrite Hblank. simpl.
  eexists. split; [reflexivity|]. simpl. rewrite <- app_assoc. by repeat split.
Qed.

End EmptyText.

Lemma blank_text_is_rejected_by_the_classifier_witness :
  cache_miss true "chat" "" (init_state (Env:=unit) 4 tt)
  /\ exists st',
       extract_task (constant_models "TASK" (9 # 10) []) (3 # 5) "" "chat" true
         (init_state 4 tt)
       = (inl (ValueError "Text must be a non-empty string for classification."), st')
       /\ calls st' = [CallCleanText "" "chat"; CallClassify ""].
Proof.
  assert (Hmiss : cache_miss true "chat" "" (init_state (Env:=unit) 4 tt)).
  { right. reflexivity. }
  split; [exact Hmiss|].
  destruct (blank_text_is_rejected_by_the_classifier (Env:=unit)
              (fun text _ => ret text)
              (fun _ e => (ret ("TASK", 9 # 10), e))
              (fun _ e => (ret [], e))
              (3 # 5) "" "chat" true (init_state 4 tt) "" Hmiss eq_refl eq_refl)
    as (st' & Hrun & Hcalls & _).
  exists st'. split; [exact Hrun | exact Hcalls].
Defined.

(** C4 as the specification states it fails: on the empty text the
    classifier is called, and the ValueError is the classifier's. *)
Lemma empty_text_rejected_before_classifier_counterexample :
  let '(r, st') :=
    extract_task (constant_models "TASK" (9 # 10) []) (3 # 5) "" "chat" true
      (init_state 4 tt) in
  r = inl (ValueError "Text must be a non-empty string for classification.")
  /\ calls st' = [CallCleanText "" "chat"; CallClassify ""]
  /\ ~ Forall (fun c => is_model_call c = false) (calls st').
Proof.
  vm_compute. split; [reflexivity|]. split; [reflexivity|].
  intros H. apply Forall_cons in H as [_ H]. apply Forall_cons in H as [H _].
  discriminate.
Qed.

(** ** Chunks and the results array *)

Section Chunks.

Lemma ceil_div_covers (n size : nat) :
  (0 < size)%nat -> (n <= (n + size - 1) / size * size)%nat.
Proof.
  intros Hs.
  pose proof (Nat.div_mod (n + size - 1) size ltac:(lia)) as Hdm.
  pose proof (Nat.mod_upper_bound (n + size - 1) size ltac:(lia)) as Hlt.
  nia.
Qed.

(** The index ranges of the chunks, put one after the other, are the
    indices of the input. *)
Lemma seq_chunks (n size m : nat) :
  concat (map (fun k => seq (k * size) (Nat.min size (n - k * size))) (seq 0 m))
  = seq 0 (Nat.min (m * size) n).
Proof.
  induction m as [|m IH]; [done|].
  rewrite seq_S, map_app, concat_app, IH. simpl. rewrite app_nil_r.
  destruct (Nat.le_gt_cases (m * size) n) as [Hle|Hgt].
  - replace (Nat.min (m * size) n) with (m * size)%nat by lia.
    rewrite <- seq_app. f_equal. lia.
  - replace (Nat.min size (n - m * size)) with 0%nat by lia.
    simpl. rewrite app_nil_r. f_equal. lia.
Qed.

Lemma chunker_positions {A} (l : list A) (size : nat) :
  (0 < size)%nat ->
  concat (map (fun c => seq (fst c) (length (snd c))) (chunker l size))
  = seq 0 (length l).
Proof.
  intros Hs. unfold chunker, range_step.
  rewrite !map_map. simpl.
  rewrite (map_ext _
             (fun k => seq (k * size) (Nat.min size (length l - k * size)))).
  - rewrite seq_chunks. f_equal.
    pose proof (ceil_div_covers (length l) size Hs). lia.
  - intros k. by rewrite length_take, length_drop.
Qed.

Lemma chunker_lookup {A} (l : list A) (size pos : nat) (c : list A) j x :
  (pos, c) ∈ chunker l size -> c !! j = Some x -> l !! (pos + j)%nat = Some x.
Proof.
  unfold chunker. intros Hin Hj.
  apply list_elem_of_fmap in Hin as (p & [= -> ->] & _).
  apply lookup_take_Some in Hj as [Hj _]. by rewrite lookup_drop in Hj.
Qed.

Lemma Permutation_concat {A} (l1 l2 : list (list A)) :
  Permutation l1 l2 -> Permutation (concat l1) (concat l2).
Proof.
  induction 1 as [|x l1 l2 _ IH|x y l|l1 l2 l3 _ IH1 _ IH2]; simpl.
  - done.
  - by apply Permutation_app_head.
  - rewrite !app_assoc. apply Permutation_app_tail, Permutation_app_comm.
  - by etransitivity.
Qed.

(** Writing pairs with distinct, valid indices never fails; each written
    slot holds its datum and the other slots are untouched. *)
Lemma store_spec {R} (partial_results : list (nat * R)) :
  forall results : list (option R),
    NoDup (map fst partial_results) ->
    (forall idx, idx ∈ map fst partial_results -> (idx < length results)%nat) ->
    exists rs,
      store partial_results results = inr rs
      /\ length rs = length results
      /\ (forall idx data, (idx, data) ∈ partial_results ->
                           rs !! idx = Some (Some data))
      /\ (forall i, i ∉ map fst partial_results -> rs !! i = results !! i).
Proof.
  induction partial_results as [|[idx data] rest IH]; intros results Hnd Hrange.
  - exists results. split; [done|]. split; [done|]. split; [|done].
    intros idx data Hin. by apply elem_of_nil in Hin.
  - simpl in Hnd. apply NoDup_cons in Hnd as [Hidx Hnd].
    assert (Hlt : (idx < length results)%nat) by (apply Hrange; left).
    simpl. unfold list_assign. apply Nat.ltb_lt in Hlt as Hb. rewrite Hb. simpl.
    destruct (IH (<[idx:=Some data]> results) Hnd) as (rs & Hrs & Hlen & Hin & Hout).
    { intros i Hi. rewrite length_insert. apply Hrange. by right. }
    exists rs. split; [done|]. rewrite length_insert in Hlen.
    split; [done|]. split.
    + intros i d Hid. apply elem_of_cons in Hid as [[= -> ->]|Hid].
      * rewrite (Hout idx Hidx). by apply list_lookup_insert_eq.
      * by apply Hin.
    + intros i Hi. simpl in Hi. apply not_elem_of_cons in Hi as [Hne Hi].
      rewrite (Hout i Hi). by apply list_lookup_insert_ne.
Qed.

End Chunks.

(** ** batch_extract_tasks *)

Section BatchFacts.
Context {R : Type}.
Variable run_item : nat -> string -> result R.

Lemma worker_loop_inv start chunk :
  forall i acc out,
    batch_worker_loop run_item start i chunk acc = inr out ->
    map fst out = map fst acc ++ seq (start + i) (length chunk)
    /\ (forall idx r, (idx, r) ∈ out ->
          (idx, r) ∈ acc
          \/ exists j txt, chunk !! j = Some txt /\ idx = (start + i + j)%nat
                           /\ run_item idx txt = inr r).
Proof.
  induction chunk as [|txt rest IH]; intros i acc out; simpl.
  - intros [= <-]. rewrite app_nil_r. split; [done|]. intros; by left.
  - destruct (run_item (start + i) txt) as [e|r0] eqn:Hrun; [done|]. simpl.
    intros Hloop. destruct (IH _ _ _ Hloop) as [Hfst Hin]. split.
    + rewrite Hfst, map_app. simpl. rewrite <- app_assoc. simpl.
      by rewrite Nat.add_succ_r.
    + intros idx r Hidx. destruct (Hin idx r Hidx) as [Hacc|(j & t & Hj & -> & Hr)].
      * apply elem_of_app in Hacc as [Hacc|Hnew]; [by left|].
        apply list_elem_of_singleton in Hnew as [= -> ->].
        right. exists 0%nat, txt. by rewrite Nat.add_0_r.
      * right. exists (S j), t. split; [done|].
        split; [lia|]. by replace (start + i + S j)%nat with (start + S i + j)%nat by lia.
Qed.

Lemma worker_inv start chunk out :
  batch_worker run_item start chunk = inr out ->
  map fst out = seq start (length chunk)
  /\ (forall idx r, (idx, r) ∈ out ->
        exists j txt, chunk !! j = Some txt /\ idx = (start + j)%nat
                      /\ run_item idx txt = inr r).
Proof.
  intros H. destruct (worker_loop_inv _ _ _ _ _ H) as [Hfst Hin].
  rewrite Nat.add_0_r in Hfst. split; [done|].
  intros idx r Hidx. destruct (Hin idx r Hidx) as [Hnil|(j & t & Hj & -> & Hr)].
  - by apply elem_of_nil in Hnil.
  - exists j, t. by rewrite Nat.add_0_r in *.
Qed.

Lemma tasks_inv (chunks : list (nat * list string)) :
  forall outs,
    map (worker_of run_item) chunks = map inr outs ->
    concat (map (map fst) outs)
    = concat (map (fun c => seq (fst c) (length (snd c))) chunks)
    /\ (forall idx r, (idx, r) ∈ concat outs ->
          exists pos c j txt,
            (pos, c) ∈ chunks /\ c !! j = Some txt /\ idx = (pos + j)%nat
            /\ run_item idx txt = inr r).
Proof.
  induction chunks as [|[pos c] chunks IH]; intros [|out outs]; simpl; try done.
  - intros _. split; [done|]. intros idx r Hin. by apply elem_of_nil in Hin.
  - intros [= Hw Hrest]. destruct (IH _ Hrest) as [Hfst Hin].
    destruct (worker_inv _ _ _ Hw) as [Hwfst Hwin]. split.
    + by rewrite Hwfst, Hfst.
    + intros idx r Hidx. apply elem_of_app in Hidx as [Hidx|Hidx].
      * destruct (Hwin idx r Hidx) as (j & t & Hj & -> & Hr).
        exists pos, c, j, t. split; [left|done].
      * destruct (Hin idx r Hidx) as (p & c' & j & t & Hc & Hj & -> & Hr).
        exists p, c', j, t. split; [by right|done].
Qed.

Lemma collect_inv (completed : list (result (list (nat * R)))) :
  forall acc partial_results,
    collect completed acc = inr partial_results ->
    exists outs, completed = map inr outs
                 /\ partial_results = acc ++ concat outs.
Proof.
  induction completed as [|[e|out] rest IH]; intros acc partial_results; simpl.
  - intros [= <-]. exists []. by rewrite app_nil_r.
  - done.
  - intros H. destruct (IH _ _ H) as (outs & -> & ->).
    exists (out :: outs). simpl. by rewrite app_assoc.
Qed.

Lemma collect_ok (outs : list (list (nat * R))) :
  forall acc, collect (map inr outs) acc = inr (acc ++ concat outs).
Proof.
  induction outs as [|out outs IH]; intros acc; simpl.
  - by rewrite app_nil_r.
  - by rewrite IH, app_assoc.
Qed.

Variable as_completed :
  list (result (list (nat * R))) -> list (result (list (nat * R))).
Hypothesis as_completed_perm : forall l, Permutation (as_completed l) l.

Lemma store_is_assignment (partial_results : list (nat * R)) :
  forall results rs,
    store partial_results results = inr rs ->
    rs = fold_left (fun acc p => <[fst p := Some (snd p)]> acc)
           partial_results results.
Proof.
  induction partial_results as [|[idx data] rest IH]; intros results rs; simpl.
  - by intros [= <-].
  - unfold list_assign. destruct (idx <? length results)%nat; [|done].
    simpl. apply IH.
Qed.

Lemma batch_tasks_ok_of_return max_workers texts batch_size rs :
  batch_extract_tasks run_item as_completed max_workers texts batch_size
  = inr rs ->
  (0 < batch_size)%Z
  /\ ThreadPoolExecutor max_workers = inr tt
  /\ exists outs,
       map (worker_of run_item) (chunker texts (Z.to_nat batch_size)) = map inr outs.
Proof.
  unfold batch_extract_tasks.
  destruct (Z.leb_spec batch_size 0) as [|Hpos]; [done|].
  intros H. split; [done|].
  destruct (ThreadPoolExecutor max_workers) as [e|[]]; [done|].
  split; [done|]. simpl in H.
  destruct (collect _ _) as [e|partial_results] eqn:Hcollect; [done|].
  destruct (collect_inv _ _ _ Hcollect) as (outs & Hcomp & _).
  pose proof (as_completed_perm
                (map (worker_of run_item) (chunker texts (Z.to_nat batch_size)))) as Hperm.
  rewrite Hcomp in Hperm. symmetry in Hperm.
  destruct (Permutation_map_inv _ _ Hperm) as (outs0 & Houts0 & _).
  by exists outs0.
Qed.

Lemma batch_return_of_tasks_ok max_workers texts batch_size outs0 :
  (0 < batch_size)%Z ->
  ThreadPoolExecutor max_workers = inr tt ->
  map (worker_of run_item) (chunker texts (Z.to_nat batch_size)) = map inr outs0 ->
  exists rs partial_results,
    batch_extract_tasks run_item as_completed max_workers texts batch_size
    = inr rs
    /\ collect (as_completed
                  (map (worker_of run_item)
                     (chunker texts (Z.to_nat batch_size)))) []
       = inr partial_results
    /\ Permutation (map fst partial_results) (seq 0 (length texts))
    /\ (forall idx r, (idx, r) ∈ partial_results ->
          exists txt, texts !! idx = Some txt /\ run_item idx txt = inr r)
    /\ store partial_results (replicate (length texts) None) = inr rs
    /\ length rs = length texts
    /\ (forall i txt, texts !! i = Some txt ->
          exists r, run_item i txt = inr r /\ rs !! i = Some (Some r)).
Proof.
  intros Hpos Hexec Htasks.
  assert (Hsize : (0 < Z.to_nat batch_size)%nat) by lia.
  destruct (tasks_inv _ _ Htasks) as [Hfst Hsound].
  rewrite (chunker_positions texts _ Hsize) in Hfst.
  pose proof (as_completed_perm
                (map (worker_of run_item) (chunker texts (Z.to_nat batch_size)))) as Hperm.
  rewrite Htasks in Hperm.
  destruct (Permutation_map_inv _ _ Hperm) as (outs & Hcomp & Houts).
  assert (Hpartial : Permutation (map fst (concat outs)) (seq 0 (length texts))).
  { rewrite <- Hfst, <- concat_map. apply Permutation_map.
    symmetry. by apply Permutation_concat. }
  destruct (store_spec (concat outs) (replicate (length texts) None))
    as (rs & Hstore & Hlen & Hin & _).
  { rewrite Hpartial. apply NoDup_seq. }
  { intros idx Hidx. rewrite Hpartial in Hidx. rewrite length_replicate.
    apply elem_of_seq in Hidx. lia. }
  rewrite length_replicate in Hlen.
  assert (Hpairs : forall idx r, (idx, r) ∈ concat outs ->
            exists txt, texts !! idx = Some txt /\ run_item idx txt = inr r).
  { intros idx r Hir.
    assert (Hir0 : (idx, r) ∈ concat outs0).
    { eapply elem_of_Permutation_proper; [|exact Hir].
      by apply Permutation_concat. }
    destruct (Hsound _ _ Hir0) as (pos & c & j & t & Hc & Hj & -> & Hr).
    exists t. split; [|done]. by eapply chunker_lookup. }
  exists rs, (concat outs).
  split; [|split; [|split; [done|split; [done|split; [done|split; [done|]]]]]].
  - unfold batch_extract_tasks.
    destruct (Z.leb_spec batch_size 0) as [|_]; [lia|].
    rewrite Hexec. simpl.
    rewrite Htasks, Hcomp, collect_ok. simpl. exact Hstore.
  - by rewrite Htasks, Hcomp, collect_ok.
  - intros i txt Hi.
    assert (Hi' : i ∈ map fst (concat outs)).
    { rewrite Hpartial. apply elem_of_seq. apply lookup_lt_Some in Hi. lia. }
    apply list_elem_of_fmap in Hi' as ([i' r] & -> & Hir). simpl in *.
    exists r. split; [|by apply Hin].
    destruct (Hpairs _ _ Hir) as (t & Ht & Hr).
    rewrite Ht in Hi. by injection Hi as <-.
Qed.

End BatchFacts.

Section BatchOrder.
Context {R : Type}.
Variable run_item : nat -> string -> result R.

(** What a returned batch looks like, for every completion order. *)
Lemma batch_return_spec
    (as_completed : list (result (list (nat * R))) -> list (result (list (nat * R))))
    (max_workers : option Z) (texts : list string) (batch_size : Z)
    (rs : list (option R)) :
  (forall l, Permutation (as_completed l) l) ->
  batch_extract_tasks run_item as_completed max_workers texts batch_size
  = inr rs ->
  length rs = length texts
  /\ (forall i txt, texts !! i = Some txt ->
        exists r, run_item i txt = inr r /\ rs !! i = Some (Some r))
  /\ (exists partial_results,
        collect (as_completed
                   (map (worker_of run_item)
                      (chunker texts (Z.to_nat batch_size)))) []
        = inr partial_results
        /\ Permutation (map fst partial_results) (seq 0 (length texts))
        /\ (forall idx r, (idx, r) ∈ partial_results ->
              exists txt, texts !! idx = Some txt /\ run_item idx txt = inr r)
        /\ store partial_results (replicate (length texts) None) = inr rs
        /\ rs = fold_left (fun results p => <[fst p := Some (snd p)]> results)
                  partial_results (replicate (length texts) None))
  /\ (forall other_order,
        (forall l, Permutation (other_order l) l) ->
        batch_extract_tasks run_item other_order max_workers texts batch_size
        = inr rs).
Proof.
  intros Hperm Hrun.
  destruct (batch_tasks_ok_of_return run_item as_completed Hperm _ _ _ _ Hrun)
    as (Hpos & Hexec & outs0 & Htasks).
  destruct (batch_return_of_tasks_ok run_item as_completed Hperm
              max_workers texts batch_size outs0 Hpos Hexec Htasks)
    as (rs1 & partial1 & Hrun1 & Hc1 & Hp1 & Hpairs1 & Hs1 & Hlen1 & Hitems1).
  rewrite Hrun in Hrun1. injection Hrun1 as <-.
  split; [done|]. split; [done|]. split.
  { exists partial1. repeat (split; [done|]).
    by apply store_is_assignment. }
  intros other_order Hperm2.
  destruct (batch_return_of_tasks_ok run_item other_order Hperm2
              max_workers texts batch_size outs0 Hpos Hexec Htasks)
    as (rs2 & _ & Hrun2 & _ & _ & _ & _ & Hlen2 & Hitems2).
  rewrite Hrun2. f_equal. apply list_eq. intros i.
  destruct (texts !! i) as [txt|] eqn:Hi.
  - destruct (Hitems1 i txt Hi) as (r1 & Hr1 & ->).
    destruct (Hitems2 i txt Hi) as (r2 & Hr2 & ->).
    rewrite Hr1 in Hr2. by injection Hr2 as ->.
  - apply lookup_ge_None in Hi.
    rewrite (lookup_ge_None_2 rs2 i), (lookup_ge_None_2 rs i); [done|lia|lia].
Qed.

(** C3.  When [batch_extract_tasks] returns, the list has one slot per
    input and slot [i] holds the result of the extraction of [texts[i]].
    The pairs the call collected from its workers -- the list its
    assignment loop runs over -- carry every index of the input exactly
    once, each with the result of the item at that index; the returned
    list is the pre-sized list after one assignment [results[idx] = data]
    per collected pair, so each slot is written once, by index, and the
    list never grows.  The returned list is the same for every order in
    which the chunks complete. *)
Theorem batch_results_mirror_inputs
    (as_completed : list (result (list (nat * R))) -> list (result (list (nat * R))))
    (max_workers : option Z) (texts : list string) (batch_size : Z)
    (rs : list (option R)) :
  (forall l, Permutation (as_completed l) l) ->
  batch_extract_tasks run_item as_completed max_workers texts batch_size
  = inr rs ->
  length rs = length texts
  /\ (forall i txt, texts !! i = Some txt ->
        exists r, run_item i txt = inr r /\ rs !! i = Some (Some r))
  /\ (exists partial_results,
        collect (as_completed
                   (map (worker_of run_item)
                      (chunker texts (Z.to_nat batch_size)))) []
        = inr partial_results
        /\ Permutation (map fst partial_results) (seq 0 (length texts))
        /\ (forall idx r, (idx, r) ∈ partial_results ->
              exists txt, texts !! idx = Some txt /\ run_item idx txt = inr r)
        /\ store partial_results (replicate (length texts) None) = inr rs
        /\ rs = fold_left (fun results p => <[fst p := Some (snd p)]> results)
                  partial_results (replicate (length texts) None))
  /\ (forall other_order,
        (forall l, Permutation (other_order l) l) ->
        batch_extract_tasks run_item other_order max_workers texts batch_size
        = inr rs).
Proof. apply batch_return_spec. Qed.

(** An exception in one item makes [batch_extract_tasks] raise, in
    whatever order the chunks complete. *)
Lemma batch_extract_tasks_aborts
    (as_completed : list (result (list (nat * R))) -> list (result (list (nat * R))))
    (max_workers : option Z) (texts : list string) (batch_size : Z) (i : nat)
    (txt : string) (e : exn) :
  (forall l, Permutation (as_completed l) l) ->
  texts !! i = Some txt ->
  run_item i txt = inl e ->
  exists e', batch_extract_tasks run_item as_completed max_workers texts
               batch_size = inl e'.
Proof.
  intros Hperm Hi He.
  destruct (batch_extract_tasks run_item as_completed max_workers texts
              batch_size) as [e'|rs] eqn:Hrun; [by exists e'|].
  destruct (batch_return_spec _ _ _ _ _ Hperm Hrun) as (_ & Hitems & _).
  destruct (Hitems i txt Hi) as (r & Hr & _). congruence.
Qed.

End BatchOrder.

Lemma batch_results_mirror_inputs_witness :
  (forall l : list (result (list (nat * nat))), Permutation (rev l) l)
  /\ batch_extract_tasks (fun _ txt => ret (String.length txt)) (@rev _)
       (Some 4%Z) five_texts 2
     = inr [Some 10; Some 13; Some 3; Some 11; Some 14]%nat
  /\ collect (rev (map (worker_of (fun _ txt => ret (String.length txt)))
                     (chunker five_texts 2))) []
     = inr [(4, 14); (2, 3); (3, 11); (0, 10); (1, 13)]%nat
  /\ batch_extract_tasks (fun _ txt => ret (String.length txt)) (fun l => l)
       (Some 4%Z) five_texts 2
     = inr [Some 10; Some 13; Some 3; Some 11; Some 14]%nat.
Proof.
  assert (Hrev : forall l : list (result (list (nat * nat))), Permutation (rev l) l).
  { intros l. symmetry. apply Permutation_rev. }
  split; [exact Hrev|]. split; [reflexivity|]. split; [reflexivity|].
  destruct (batch_results_mirror_inputs
              (fun _ txt => ret (String.length txt)) (@rev _) (Some 4%Z)
              five_texts 2
              [Some 10; Some 13; Some 3; Some 11; Some 14]%nat Hrev eq_refl)
    as (_ & _ & _ & Hany).
  apply Hany. intros l. reflexivity.
Defined.

(** ** The retry loop *)

Section RetryFacts.
Import CommunicationProcessor.
Context {W B : Type}.
Variable attempt_body : W -> result B * W.
Variable final_confidence : W -> B -> Q.
Variables (threshold : Q) (max_attempts : Z) (backoff_factor : Q).

(** The first attempt that does not raise ends the loop with its result,
    whatever the confidence. *)
Lemma loop_success (errs : list exn) :
  forall w w1 b w2 remaining attempt last_error log,
    failing_run attempt_body w errs w1 ->
    attempt_body w1 = (inr b, w2) ->
    (length errs < remaining)%nat ->
    attempt_loop attempt_body final_confidence threshold max_attempts
      backoff_factor false remaining attempt last_error w log
    = (inr b, w2,
       log ++ failure_events max_attempts backoff_factor (attempt + 1)%Z errs
           ++ warning_events threshold (final_confidence w2 b)
           ++ [LogDebug (final_confidence w2 b)
                 (attempt + 1 + Z.of_nat (length errs)) max_attempts]).
Proof.
  induction errs as [|e errs IH];
    intros w w1 b w2 remaining attempt last_error log Hfail Hok Hlen;
    inversion Hfail; subst; (destruct remaining as [|remaining]; [simpl in Hlen; lia|]).
  - simpl. rewrite Hok. unfold warning_events. rewrite Z.add_0_r.
    destruct (Qlt_bool _ threshold); by rewrite <- ?app_assoc.
  - simpl attempt_loop.
    match goal with H : attempt_body w = _ |- _ => rewrite H end.
    simpl in Hlen.
    replace (attempt + 1 + Z.of_nat (length (e :: errs)))%Z
      with (attempt + 1 + 1 + Z.of_nat (length errs))%Z
      by (simpl length; lia).
    simpl failure_events.
    destruct ((attempt + 1 <? max_attempts)%Z && Qlt_bool 0 backoff_factor).
    + erewrite IH; [|eassumption|eassumption|lia].
      f_equal. rewrite <- !app_assoc. reflexivity.
    + erewrite IH; [|eassumption|eassumption|lia].
      f_equal. rewrite <- !app_assoc. reflexivity.
Qed.

Lemma last_or_cons (e : exn) (errs : list exn) (d : option exn) :
  match last (e :: errs) with Some e' => Some e' | None => d end
  = match last errs with Some e' => Some e' | None => Some e end.
Proof.
  destruct errs as [|x errs]; [done|].
  change (last (e :: x :: errs)) with (last (x :: errs)).
  destruct (last (x :: errs)) eqn:Hl; [done|].
  assert (Hs : is_Some (last (x :: errs))) by (by apply last_is_Some).
  rewrite Hl in Hs. by destruct Hs.
Qed.

(** When every attempt raises, the loop ends with the aggregated error
    that carries the text of the last exception. *)
Lemma loop_exhausted (errs : list exn) :
  forall w w1 attempt last_error log,
    failing_run attempt_body w errs w1 ->
    attempt_loop attempt_body final_confidence threshold max_attempts
      backoff_factor false (length errs) attempt last_error w log
    = (inl (RuntimeError
              (failure_message max_attempts
                 (match last errs with Some e => Some e | None => last_error end))),
       w1,
       log ++ failure_events max_attempts backoff_factor (attempt + 1)%Z errs
           ++ [LogFinalError
                 (failure_message max_attempts
                    (match last errs with Some e => Some e | None => last_error end))]).
Proof.
  induction errs as [|e errs IH]; intros w w1 attempt last_error log Hfail;
    inversion Hfail; subst.
  - reflexivity.
  - simpl attempt_loop.
    match goal with H : attempt_body w = _ |- _ => rewrite H end.
    simpl failure_events.
    rewrite (last_or_cons e errs last_error).
    destruct ((attempt + 1 <? max_attempts)%Z && Qlt_bool 0 backoff_factor).
    + erewrite IH; [|eassumption]. f_equal. rewrite <- !app_assoc. reflexivity.
    + erewrite IH; [|eassumption]. f_equal. rewrite <- !app_assoc. reflexivity.
Qed.

(** The delays of the failed attempts [attempt .. attempt + n - 1], all
    followed by another attempt, grow linearly. *)
Lemma sleeps_failures (errs : list exn) :
  forall attempt,
    (attempt + Z.of_nat (length errs) <= max_attempts)%Z ->
    sleeps (failure_events max_attempts backoff_factor attempt errs)
    = if Qlt_bool 0 backoff_factor
      then map (fun k => (backoff_factor * inject_Z (attempt + Z.of_nat k))%Q)
               (seq 0 (length errs))
      else [].
Proof.
  induction errs as [|e errs IH]; intros attempt Hle.
  - simpl. by destruct (Qlt_bool 0 backoff_factor).
  - simpl failure_events. simpl length in *.
    assert (Hlt : (attempt <? max_attempts)%Z = true) by (apply Z.ltb_lt; lia).
    rewrite Hlt. simpl andb.
    destruct (Qlt_bool 0 backoff_factor) eqn:Hb.
    + cbn [app sleeps]. rewrite IH by lia.
      cbn [seq map]. rewrite Z.add_0_r. f_equal.
      rewrite <- seq_shift, map_map. apply map_ext. intros k.
      do 2 f_equal. lia.
    + cbn [app sleeps]. by rewrite IH by lia.
Qed.

Lemma sleeps_app (l1 l2 : list event) : sleeps (l1 ++ l2) = sleeps l1 ++ sleeps l2.
Proof.
  induction l1 as [|ev l1 IH]; [done|]. destruct ev; simpl; by rewrite ?IH.
Qed.

(** Inside a running event loop the first exception that would be
    followed by a delay ends the call with the RuntimeError of
    [asyncio.run]. *)
Lemma loop_in_event_loop w e w1 remaining attempt last_error log :
  attempt_body w = (inl e, w1) ->
  (attempt + 1 < max_attempts)%Z ->
  (0 < backoff_factor)%Q ->
  attempt_loop attempt_body final_confidence threshold max_attempts
    backoff_factor true (S remaining) attempt last_error w log
  = (inl (RuntimeError running_loop_message), w1,
     log ++ [LogError (attempt + 1) max_attempts (str_of_exn e)]).
Proof.
  intros Hbody Hlt Hb. simpl. rewrite Hbody.
  apply Z.ltb_lt in Hlt. rewrite Hlt.
  apply Qlt_bool_iff in Hb. by rewrite Hb.
Qed.

End RetryFacts.

Section RetryExhaustion.
Import CommunicationProcessor.
Context (max_attempts : Z) (backoff_factor : Q).

Lemma failure_events_app (l1 l2 : list exn) :
  forall attempt,
    failure_events max_attempts backoff_factor attempt (l1 ++ l2)
    = failure_events max_attempts backoff_factor attempt l1
      ++ failure_events max_attempts backoff_factor
           (attempt + Z.of_nat (length l1)) l2.
Proof.
  induction l1 as [|e l1 IH]; intros attempt.
  - simpl. by rewrite Z.add_0_r.
  - simpl failure_events. rewrite IH. simpl length.
    replace (attempt + 1 + Z.of_nat (length l1))%Z
      with (attempt + Z.of_nat (S (length l1)))%Z by lia.
    destruct ((attempt <? max_attempts)%Z && Qlt_bool 0 backoff_factor); done.
Qed.

(** After [max_attempts] failures there was a delay before each retry
    and none after the last attempt. *)
Lemma sleeps_exhausted (errs : list exn) :
  Z.of_nat (length errs) = max_attempts ->
  sleeps (failure_events max_attempts backoff_factor 1 errs)
  = if Qlt_bool 0 backoff_factor
    then map (fun k => (backoff_factor * inject_Z (1 + Z.of_nat k))%Q)
             (seq 0 (length errs - 1))
    else [].
Proof.
  destruct errs as [|e errs _] using rev_ind; intros Hlen.
  - simpl. by destruct (Qlt_bool 0 backoff_factor).
  - rewrite length_app in Hlen |- *. simpl length in *.
    rewrite failure_events_app, sleeps_app, sleeps_failures by lia.
    replace (length errs + 1 - 1)%nat with (length errs) by lia.
    simpl failure_events.
    assert (Hlast : (1 + Z.of_nat (length errs) <? max_attempts)%Z = false)
      by (apply Z.ltb_ge; lia).
    rewrite Hlast. simpl. by rewrite app_nil_r.
Qed.

End RetryExhaustion.

Section ProcessCommunication.
Import CommunicationProcessor.
Context {Env PT ER : Type}.

(** C6.  [process_communication] on a non-empty text and channel.
    Called outside a running event loop it follows the retry policy of
    the specification.  (a) The
    first attempt that does not raise ends the call with its bundle,
    whatever the [final_confidence] [q] stored in its extraction result:
    below [max(entity_threshold, task_threshold)] a warning record with
    [q] is added and nothing is retried.  Attempts are repeated only
    after an exception, and the delay before retry number [k] is
    [backoff_factor * k] when the factor is positive, absent otherwise.
    (b) When [max_attempts] attempts have raised, the call raises a
    RuntimeError whose message ends with the text of the last
    exception; there is no delay after the last attempt.
    (c) Called inside a running event loop, as [batch_process] calls it,
    with another attempt left and a positive back-off, the first
    exception ends the call with the RuntimeError of [asyncio.run]:
    no delay, no second attempt, no aggregated error. *)
Theorem process_communication_retry_policy
    (P : Pipelines Env PT ER) (cfg : Config) (text channel_type : string)
    (use_task_cache : bool) (w : TaskExtractor.state Env) :
  is_blank text = false ->
  is_blank channel_type = false ->
  let body := attempt P cfg text channel_type use_task_cache in
  let limit := get_default (max_attempts cfg) 1%Z in
  let backoff := get_default (backoff_factor cfg) 0%Q in
  let threshold :=
    max_float (get_default (entity_confidence cfg) (1 # 2))
              (get_default (task_confidence cfg) (3 # 5)) in
  (forall errs w1 b w2 d (q : Q),
      failing_run body w errs w1 ->
      body w1 = (inr b, w2) ->
      (Z.of_nat (length errs) < limit)%Z ->
      TaskExtractor.heap w2 !! task_extraction b = Some d ->
      dict_get "final_confidence" d = Some (VFloat q) ->
      exists log,
        process_communication P cfg false text channel_type use_task_cache w
        = (inr b, w2, log)
        /\ log = failure_events limit backoff 1 errs
                 ++ (if Qlt_bool q threshold
                     then [LogWarning q threshold] else [])
                 ++ [LogDebug q (1 + Z.of_nat (length errs)) limit]
        /\ sleeps log
           = if Qlt_bool 0 backoff
             then map (fun k => (backoff * inject_Z (1 + Z.of_nat k))%Q)
                      (seq 0 (length errs))
             else [])
  /\ (forall errs w1 e_last,
        failing_run body w errs w1 ->
        Z.of_nat (length errs) = limit ->
        last errs = Some e_last ->
        exists log,
          process_communication P cfg false text channel_type use_task_cache w
          = (inl (RuntimeError
                    ("Failed to process communication after "
                     ++ str_of_Z limit ++ " attempts: "
                     ++ str_of_exn e_last)),
             w1, log)
          /\ log = failure_events limit backoff 1 errs
                   ++ [LogFinalError
                         ("Failed to process communication after "
                          ++ str_of_Z limit ++ " attempts: "
                          ++ str_of_exn e_last)]
          /\ sleeps log
             = if Qlt_bool 0 backoff
               then map (fun k => (backoff * inject_Z (1 + Z.of_nat k))%Q)
                        (seq 0 (length errs - 1))
               else [])
  /\ (forall e w1,
        body w = (inl e, w1) ->
        (1 < limit)%Z ->
        (0 < backoff)%Q ->
        process_communication P cfg true text channel_type use_task_cache w
        = (inl (RuntimeError
                  "asyncio.run() cannot be called from a running event loop"),
           w1, [LogError 1 limit (str_of_exn e)])).
Proof.
  intros Htext Hchannel body limit backoff threshold.
  unfold process_communication. rewrite Htext, Hchannel.
  fold body limit backoff threshold. unfold retry. split; [|split].
  - intros errs w1 b w2 d q Hfail Hok Hlen Hd Hq.
    assert (Hconf : processed_confidence w2 b = q).
    { unfold processed_confidence. by rewrite Hd, Hq. }
    eexists. split; [|split; [reflexivity|]].
    + erewrite loop_success; [|exact Hfail|exact Hok|lia].
      unfold warning_events. by rewrite Hconf.
    + rewrite !sleeps_app, sleeps_failures by lia.
      destruct (Qlt_bool q threshold); simpl; by rewrite app_nil_r.
  - intros errs w1 e_last Hfail Hlen Hlast.
    assert (Hn : Z.to_nat limit = length errs) by lia.
    rewrite Hn.
    eexists. split; [|split; [reflexivity|]].
    + rewrite (loop_exhausted _ _ _ _ _ errs w w1 0 None [] Hfail).
      by rewrite Hlast.
    + rewrite sleeps_app, (sleeps_exhausted limit backoff errs Hlen).
      simpl. by rewrite app_nil_r.
  - intros e w1 Hbody Hlimit Hbackoff.
    destruct (Z.to_nat limit) as [|remaining] eqn:Hn; [lia|].
    by rewrite (loop_in_event_loop _ _ _ _ _ w e w1 remaining 0 None []
                  Hbody Hlimit Hbackoff).
Qed.

End ProcessCommunication.

(** Scenario C outside a running event loop: two failures, then success
    on the third attempt, after delays of 0.1 and 0.2.  The same call
    inside a running event loop ends at the first failure.  A processor
    that always fails, with the default single attempt, raises the
    aggregated error with the text of the failure. *)
Lemma process_communication_retry_policy_witness :
  (exists b w2 log,
     CommunicationProcessor.process_communication
       CommunicationProcessor.flaky_pipelines
       CommunicationProcessor.scenario_c_config false
       "Please ask Alice" "email" true (init_state 4 0%nat)
     = (inr b, w2, log)
     /\ CommunicationProcessor.sleeps log
        = [((1 # 10) * inject_Z (1 + 0))%Q; ((1 # 10) * inject_Z (1 + 1))%Q])
  /\ fst (fst (CommunicationProcessor.process_communication
                 CommunicationProcessor.flaky_pipelines
                 CommunicationProcessor.scenario_c_config true
                 "Please ask Alice" "email" true (init_state 4 0%nat)))
     = inl (RuntimeError
              "asyncio.run() cannot be called from a running event loop")
  /\ fst (fst (CommunicationProcessor.process_communication
                 CommunicationProcessor.broken_pipelines
                 CommunicationProcessor.default_config false
                 "Please ask Alice" "email" true (init_state 4 tt)))
     = inl (RuntimeError
              "Failed to process communication after 1 attempts: model inference failed")
  /\ exists b w2 log,
       CommunicationProcessor.process_communication
         CommunicationProcessor.picky_pipelines
         CommunicationProcessor.default_config false
         "Please ask Alice" "email" true (init_state 4 tt)
       = (inr b, w2, log)
       /\ log = [CommunicationProcessor.LogWarning (((9 # 10) + 0) / 2) (3 # 5);
                 CommunicationProcessor.LogDebug (((9 # 10) + 0) / 2) (1 + 0) 1].
Proof.
  destruct (process_communication_retry_policy
              CommunicationProcessor.flaky_pipelines
              CommunicationProcessor.scenario_c_config
              "Please ask Alice" "email" true (init_state 4 0%nat)
              eq_refl eq_refl) as (Hok & _ & Hloop).
  destruct (process_communication_retry_policy
              CommunicationProcessor.broken_pipelines
              CommunicationProcessor.default_config
              "Please ask Alice" "email" true (init_state 4 tt)
              eq_refl eq_refl) as (_ & Hfail & _).
  destruct (process_communication_retry_policy
              CommunicationProcessor.picky_pipelines
              CommunicationProcessor.default_config
              "Please ask Alice" "email" true (init_state 4 tt)
              eq_refl eq_refl) as (Hlow & _ & _).
  split; [|split; [|split]].
  - edestruct (Hok [RuntimeError "model inference failed";
                    RuntimeError "model inference failed"])
      as (log & Hrun & _ & Hsleeps).
    + eapply CommunicationProcessor.failing_cons; [reflexivity|].
      eapply CommunicationProcessor.failing_cons; [reflexivity|].
      apply CommunicationProcessor.failing_nil.
    + reflexivity.
    + simpl. lia.
    + reflexivity.
    + reflexivity.
    + eexists _, _, log. split; [exact Hrun | exact Hsleeps].
  - erewrite Hloop; [reflexivity | reflexivity | simpl; lia | reflexivity].
  - edestruct (Hfail [RuntimeError "model inference failed"])
      as (log & Hrun & _).
    + eapply CommunicationProcessor.failing_cons; [reflexivity|].
      apply CommunicationProcessor.failing_nil.
    + reflexivity.
    + reflexivity.
    + rewrite Hrun. reflexivity.
  - edestruct (Hlow []) as (log & Hrun & Hlog & _).
    + apply CommunicationProcessor.failing_nil.
    + reflexivity.
    + simpl. lia.
    + reflexivity.
    + reflexivity.
    + eexists _, _, log. split; [exact Hrun | exact Hlog].
Defined.

(** ** batch_process *)

Section BatchProcessFacts.
Import CommunicationProcessor.
Context {W B : Type}.
Variable process_item : string -> W -> result B * W.

Lemma process_one_item_outcome idx txt w item w' :
  process_one_item process_item idx txt w = (item, w') ->
  fst item = idx /\ outcome_of process_item txt (snd item).
Proof.
  unfold process_one_item.
  destruct (process_item txt w) as [[e|b] w1] eqn:Hp; intros [= <- <-]; simpl.
  - split; [done|]. exists w, w1. by exists e.
  - split; [done|]. by exists w, w1.
Qed.

Lemma chunk_loop_spec chunk :
  forall start i w items w',
    process_chunk_loop process_item start i chunk w = (items, w') ->
    map fst items = seq (start + i) (length chunk)
    /\ (forall idx res, (idx, res) ∈ items ->
          exists j txt, chunk !! j = Some txt /\ idx = (start + i + j)%nat
                        /\ outcome_of process_item txt res).
Proof.
  induction chunk as [|txt rest IH]; intros start i w items w'; simpl.
  - intros [= <- <-]. split; [done|]. intros idx res Hin.
    by apply elem_of_nil in Hin.
  - destruct (process_one_item process_item (start + i) txt w)
      as [item w1] eqn:Hone.
    destruct (process_chunk_loop process_item start (S i) rest w1)
      as [items' w2] eqn:Hrest.
    intros [= <- <-].
    destruct (process_one_item_outcome _ _ _ _ _ Hone) as [Hidx Hout].
    destruct (IH _ _ _ _ _ Hrest) as [Hfst Hin]. split.
    + simpl. rewrite Hidx, Hfst. by rewrite Nat.add_succ_r.
    + intros idx res Hir. apply elem_of_cons in Hir as [<-|Hir].
      * simpl in Hidx, Hout.
        exists 0%nat, txt. split; [done|]. split; [lia|done].
      * destruct (Hin idx res Hir) as (j & t & Hj & -> & Ho).
        exists (S j), t. split; [done|]. split; [lia|done].
Qed.



End BatchProcessFacts.

(** C2.  The code at the failing input: a batch of five texts in which
    the extraction of the item at index 2 raises.  [batch_extract_tasks]
    returns no list at all: the exception of the worker leaves
    [future.result()] and the whole call raises, whether the chunks
    complete in submission order or in reverse (with the default of four
    workers).  [batch_process] on the
    same batch returns five slots, with the error entry at index 2 and
    bundles at the indices 0, 1, 3 and 4. *)
Theorem batch_extract_tasks_aborts_at_failing_item :
  batch_extract_tasks fails_at_2 (fun l => l) (Some 4%Z) five_texts 2
  = inl (RuntimeError "model inference failed")
  /\ batch_extract_tasks fails_at_2 (@rev _) (Some 4%Z) five_texts 2
     = inl (RuntimeError "model inference failed")
  /\ exists slots w',
       CommunicationProcessor.batch_process_communications
         CommunicationProcessor.picky_pipelines
         CommunicationProcessor.default_config true
         five_texts "chat" 2 (init_state 4 tt)
       = (inr slots, w')
       /\ length slots = 5%nat
       /\ slots !! 2%nat
          = Some (Some (CommunicationProcessor.ItemError
               "Failed to process communication after 1 attempts: model inference failed"))
       /\ Forall (fun i => exists b,
                    slots !! i = Some (Some (CommunicationProcessor.ItemOk b)))
            [0; 1; 3; 4]%nat.
Proof.
  split; [reflexivity|]. split; [reflexivity|].
  eexists _, _. split; [vm_compute; reflexivity|].
  split; [reflexivity|]. split; [reflexivity|].
  repeat constructor; eexists; reflexivity.
Qed.

(* ===================================================================== *)
(** * Further properties of the code                                      *)
(* ===================================================================== *)

(** ** validate_task on arbitrary dictionaries *)

Section ValidateTask.

Lemma find_missing_spec (task : dict) (fs : list string) :
  match List.find (fun f => negb (dict_mem f task)) fs with
  | Some g => g ∈ fs /\ dict_mem g task = false
  | None => Forall (fun f => dict_mem f task = true) fs
  end.
Proof.
  induction fs as [|f fs IH]; simpl; [constructor|].
  destruct (dict_mem f task) eqn:Hf; simpl.
  - destruct (List.find _ fs) as [g|].
    + destruct IH as [Hin Hg]. split; [by right|done].
    + by constructor.
  - split; [left|done].
Qed.

(** X1.  A task dictionary that lacks one of the six required keys is
    invalid: the message names a missing key and the confidence is 0. *)
Theorem validate_task_missing_field (task : dict) (threshold : Q) (f : string) :
  f ∈ required_fields ->
  dict_mem f task = false ->
  exists g,
    g ∈ required_fields
    /\ dict_mem g task = false
    /\ validate_task task threshold
       = inr (false, ("Missing required field: " ++ g)%string, Finite 0).
Proof.
  intros Hin Hf. unfold validate_task.
  pose proof (find_missing_spec task required_fields) as Hfind.
  destruct (List.find _ required_fields) as [g|].
  - destruct Hfind as [Hg Hmem]. by exists g.
  - rewrite Forall_forall in Hfind. rewrite (Hfind f Hin) in Hf. done.
Qed.

Lemma validate_task_missing_field_witness :
  exists g,
    g ∈ required_fields
    /\ validate_task
         [("title", VStr "Fix login"); ("description", VStr "d");
          ("deadline", VNone); ("priority", VNone);
          ("confidence_scores", VDict [("combined_confidence", VFloat (9 # 10))])]
         (1 # 2)
       = inr (false, ("Missing required field: " ++ g)%string, Finite 0).
Proof.
  destruct (validate_task_missing_field
              [("title", VStr "Fix login"); ("description", VStr "d");
               ("deadline", VNone); ("priority", VNone);
               ("confidence_scores",
                VDict [("combined_confidence", VFloat (9 # 10))])]
              (1 # 2) "assignee") as (g & Hg & _ & Hv).
  - unfold required_fields. do 2 right. left.
  - reflexivity.
  - exists g. split; [exact Hg | exact Hv].
Defined.


(** [float(..)] reads numeric strings, and the three spellings that are
    not numbers: a confidence given as the text [" 0.9 "] is accepted
    with the value 0.9, and a NaN, written as a float or as text, is
    accepted as it is. *)
Lemma validate_task_reads_strings_and_nan :
  let task := fun v =>
    [("title", VNone); ("description", VNone); ("assignee", VNone);
     ("deadline", VNone); ("priority", VNone);
     ("confidence_scores", VDict [("combined_confidence", v)])] in
  validate_task (task (VStr " 0.9 ")) (3 # 5) = inr (true, "", Finite (9 # 10))
  /\ validate_task (task (VFloat NaN)) (3 # 5) = inr (true, "", NaN)
  /\ validate_task (task (VStr "nan")) (3 # 5) = inr (true, "", NaN)
  /\ validate_task (task (VStr "inf")) (3 # 5)
     = inr (false, "combined_confidence score is out of valid range [0,1].",
            PosInf)
  /\ validate_task (task (VStr "high")) (3 # 5)
     = inl (ValueError "could not convert string to float").
Proof. repeat split. Qed.

End ValidateTask.

Section DictFacts.

Lemma dict_get_set_eq key v (d : dict) : dict_get key (dict_set key v d) = Some v.
Proof.
  induction d as [|[k w] d IH]; simpl.
  - by rewrite String.eqb_refl.
  - destruct (String.eqb key k) eqn:Hk; simpl; rewrite Hk; [done|apply IH].
Qed.

Lemma dict_get_set_ne key key' v (d : dict) :
  key' <> key -> dict_get key' (dict_set key v d) = dict_get key' d.
Proof.
  intros Hne. induction d as [|[k w] d IH]; simpl.
  - apply String.eqb_neq in Hne. by rewrite Hne.
  - destruct (String.eqb key k) eqn:Hk; simpl.
    + apply String.eqb_eq in Hk. subst k.
      apply String.eqb_neq in Hne. by rewrite Hne.
    + by rewrite IH.
Qed.

Lemma dict_mem_set key key' v (d : dict) :
  dict_mem key d = true -> dict_mem key' (dict_set key v d) = dict_mem key' d.
Proof.
  intros Hmem. unfold dict_mem in *.
  destruct (String.eqb_spec key' key) as [->|Hne].
  - rewrite dict_get_set_eq. by destruct (dict_get key d).
  - by rewrite dict_get_set_ne.
Qed.

End DictFacts.

(** X3.  [validate_task] looks at the types of [title] and
    [confidence_scores] only: whatever value is stored under
    [description], [assignee], [deadline] or [priority], the answer is
    the same. *)
Theorem validate_task_ignores_other_values (task : dict) (threshold : Q)
    (field : string) (v : value) :
  field ∈ ["description"; "assignee"; "deadline"; "priority"] ->
  dict_mem field task = true ->
  validate_task (dict_set field v task) threshold = validate_task task threshold.
Proof.
  intros Hfield Hmem. unfold validate_task.
  assert (Hfind : List.find (fun f => negb (dict_mem f (dict_set field v task)))
                    required_fields
                  = List.find (fun f => negb (dict_mem f task)) required_fields).
  { induction required_fields as [|f fs IH]; [done|]. simpl.
    by rewrite (dict_mem_set field f v task Hmem), IH. }
  rewrite Hfind.
  assert (Htitle : item "title" (dict_set field v task) = item "title" task).
  { unfold item. rewrite dict_get_set_ne; [done|].
    intros <-. repeat (apply elem_of_cons in Hfield as [Hfield|Hfield];
                       [discriminate|]). by apply elem_of_nil in Hfield. }
  assert (Hscores : item "confidence_scores" (dict_set field v task)
                    = item "confidence_scores" task).
  { unfold item. rewrite dict_get_set_ne; [done|].
    intros <-. repeat (apply elem_of_cons in Hfield as [Hfield|Hfield];
                       [discriminate|]). by apply elem_of_nil in Hfield. }
  by rewrite Htitle, Hscores.
Qed.

Lemma validate_task_ignores_other_values_witness :
  validate_task
    (dict_set "assignee" (VFloat 42)
       (task_of no_fields (VStr "d") [("combined_confidence", VFloat (9 # 10))]))
    (1 # 2)
  = validate_task
      (task_of no_fields (VStr "d") [("combined_confidence", VFloat (9 # 10))])
      (1 # 2).
Proof.
  apply validate_task_ignores_other_values.
  - right. left.
  - reflexivity.
Defined.

(** ** _LRUCache: look-ups, frames and the degenerate capacity *)

Section LRULookups.
Context {V : Type}.
Implicit Types (m : list (string * V)) (c : _LRUCache.t V).

Lemma find_remove_ne key key' m :
  key' <> key -> _LRUCache.find key' (_LRUCache.remove key m) = _LRUCache.find key' m.
Proof.
  intros Hne. induction m as [|[k w] m IH]; simpl; [done|].
  destruct (String.eqb_spec key k) as [->|Hk]; simpl.
  - apply String.eqb_neq in Hne. by rewrite Hne.
  - by rewrite IH.
Qed.

Lemma find_snoc_ne key key' (v : V) m :
  key' <> key -> _LRUCache.find key' (m ++ [(key, v)]) = _LRUCache.find key' m.
Proof.
  intros Hne. induction m as [|[k w] m IH]; simpl.
  - apply String.eqb_neq in Hne. by rewrite Hne.
  - by rewrite IH.
Qed.

Lemma remove_snoc key (v : V) m :
  key ∉ map fst m -> _LRUCache.remove key (m ++ [(key, v)]) = m.
Proof.
  induction m as [|[k w] m IH]; simpl; intros Hk.
  - by rewrite String.eqb_refl.
  - apply not_elem_of_cons in Hk as [Hne Hk].
    apply String.eqb_neq in Hne. rewrite Hne. by rewrite IH.
Qed.

(** X4.  What is stored can be read back: on a cache of positive capacity
    [set] succeeds, the next [get] of the key returns the value, and that
    [get] leaves the cache as [set] left it. *)
Theorem lru_get_after_set (key : string) (v : V) (c : _LRUCache.t V) :
  NoDup (_LRUCache.keys c) ->
  (0 < _LRUCache.capacity c)%Z ->
  exists c',
    _LRUCache.set key v c = inr c'
    /\ _LRUCache.get key c' = (Some v, c').
Proof.
  intros Hnd Hcap.
  destruct (set_returns key v c Hcap) as [c' Hset].
  exists c'. split; [done|].
  assert (Hshape : exists m, (key ∉ map fst m)
                             /\ c' = _LRUCache.mk (_LRUCache.capacity c)
                                       (m ++ [(key, v)])).
  { unfold _LRUCache.set in Hset.
    destruct (_LRUCache.find key (_LRUCache.cache_map c)) as [w|] eqn:Hf.
    - injection Hset as <-. eexists. split; [|done]. by apply remove_not_elem.
    - apply find_None_iff in Hf.
      destruct (_LRUCache.capacity c <=? _)%Z.
      + destruct (_LRUCache.cache_map c) as [|e rest]; [done|].
        injection Hset as <-. exists rest. split; [|done].
        simpl in Hf. by apply not_elem_of_cons in Hf as [_ Hf].
      + injection Hset as <-. by eexists. }
  destruct Hshape as (m & Hk & ->).
  unfold _LRUCache.get. simpl. rewrite (find_snoc key v m Hk).
  by rewrite (remove_snoc key v m Hk).
Qed.

(** X5.  [get] changes the order of the entries and nothing else: every key
    maps to what it mapped to, the number of entries is the same, and
    the answer is the stored value. *)
Theorem lru_get_keeps_contents (key : string) (c : _LRUCache.t V) :
  NoDup (_LRUCache.keys c) ->
  fst (_LRUCache.get key c) = _LRUCache.find key (_LRUCache.cache_map c)
  /\ (forall key',
        _LRUCache.find key' (_LRUCache.cache_map (snd (_LRUCache.get key c)))
        = _LRUCache.find key' (_LRUCache.cache_map c))
  /\ length (_LRUCache.cache_map (snd (_LRUCache.get key c)))
     = length (_LRUCache.cache_map c)
  /\ _LRUCache.capacity (snd (_LRUCache.get key c)) = _LRUCache.capacity c.
Proof.
  intros Hnd. unfold _LRUCache.get.
  destruct (_LRUCache.find key (_LRUCache.cache_map c)) as [v|] eqn:Hf; simpl;
    [|done].
  split; [done|]. split; [|split; [|done]].
  - intros key'. destruct (String.eqb_spec key' key) as [->|Hne].
    + rewrite Hf. by apply find_after_move.
    + by rewrite find_snoc_ne, find_remove_ne.
  - rewrite length_app. simpl. rewrite <- (length_remove key _ v Hf). lia.
Qed.

(** X6.  [set] never changes the value of another key: a different key that
    is present afterwards holds the value it held before, and when the
    key was already present or the cache had room no other key is
    lost. *)
Theorem lru_set_keeps_other_keys (key : string) (v : V) (c c' : _LRUCache.t V) :
  NoDup (_LRUCache.keys c) ->
  _LRUCache.set key v c = inr c' ->
  forall key', key' <> key ->
    (forall v', _LRUCache.find key' (_LRUCache.cache_map c') = Some v' ->
                _LRUCache.find key' (_LRUCache.cache_map c) = Some v')
    /\ ((is_Some (_LRUCache.find key (_LRUCache.cache_map c))
         \/ (Z.of_nat (length (_LRUCache.cache_map c)) < _LRUCache.capacity c)%Z) ->
        _LRUCache.find key' (_LRUCache.cache_map c')
        = _LRUCache.find key' (_LRUCache.cache_map c)).
Proof.
  intros Hnd Hset key' Hne. unfold _LRUCache.set in Hset.
  destruct (_LRUCache.find key (_LRUCache.cache_map c)) as [w|] eqn:Hf.
  - injection Hset as <-. simpl.
    rewrite find_snoc_ne, find_remove_ne by done. by split.
  - destruct (Z.leb_spec (_LRUCache.capacity c)
                (Z.of_nat (length (_LRUCache.cache_map c)))) as [Hfull|Hroom].
    + unfold _LRUCache.keys in Hnd.
      destruct (_LRUCache.cache_map c) as [|[k0 v0] rest] eqn:Hm; [done|].
      injection Hset as <-. simpl. rewrite find_snoc_ne by done. split.
      * intros v' Hv'. destruct (String.eqb_spec key' k0) as [->|_]; [|done].
        simpl in Hnd. apply NoDup_cons in Hnd as [Hk0 _].
        apply find_None_iff in Hk0. congruence.
      * intros [[x Hx]|Hlt]; [done|]. simpl in Hfull, Hlt. lia.
    + injection Hset as <-. simpl. rewrite find_snoc_ne by done. by split.
Qed.

(** X7.  With a capacity of zero or less the cache never stores anything:
    whatever was run on a fresh cache, it is empty and every [set]
    raises the KeyError of [popitem] on an empty OrderedDict. *)
Theorem lru_nonpositive_capacity_rejects_set (cap : Z)
    (ops : list (_LRUCache.op V)) (key : string) (v : V) :
  (cap <= 0)%Z ->
  _LRUCache.cache_map (_LRUCache.run ops (_LRUCache.init cap)) = []
  /\ _LRUCache.set key v (_LRUCache.run ops (_LRUCache.init cap))
     = inl (KeyError "dictionary is empty")
  /\ fst (_LRUCache.get key (_LRUCache.run ops (_LRUCache.init cap))) = None.
Proof.
  intros Hcap.
  assert (Hempty : _LRUCache.cache_map (_LRUCache.run ops (_LRUCache.init cap)) = []).
  { pose proof (size_run (V:=V) ops cap) as Hsz.
    destruct (_LRUCache.cache_map _); [done|simpl in Hsz; lia]. }
  split; [done|]. split.
  - unfold _LRUCache.set. rewrite Hempty, capacity_run. simpl.
    change (Z.of_nat 0) with 0%Z.
    destruct (Z.leb_spec cap 0); [done|lia].
  - unfold _LRUCache.get. by rewrite Hempty.
Qed.

End LRULookups.

Lemma lru_get_after_set_witness :
  let c := _LRUCache.mk 2 [("a", 1%nat); ("b", 2%nat)] in
  NoDup (_LRUCache.keys c)
  /\ exists c',
       _LRUCache.set "c" 3%nat c = inr c'
       /\ _LRUCache.get "c" c' = (Some 3%nat, c').
Proof.
  intros c.
  assert (Hnd : NoDup (_LRUCache.keys c)).
  { refine (bool_decide_unpack _ _). vm_compute. exact I. }
  split; [exact Hnd|].
  apply (lru_get_after_set "c" 3%nat c Hnd). reflexivity.
Defined.

Lemma lru_get_keeps_contents_witness :
  let c := _LRUCache.mk 2 [("a", 1%nat); ("b", 2%nat)] in
  _LRUCache.find "b" (_LRUCache.cache_map (snd (_LRUCache.get "a" c)))
  = Some 2%nat.
Proof.
  intros c.
  destruct (lru_get_keeps_contents "a" c) as (_ & H & _).
  - refine (bool_decide_unpack _ _). vm_compute. exact I.
  - rewrite (H "b"). reflexivity.
Defined.

Lemma lru_set_keeps_other_keys_witness :
  let c := _LRUCache.mk 3 [("a", 1%nat); ("b", 2%nat)] in
  let c' := _LRUCache.mk 3 [("a", 1%nat); ("b", 2%nat); ("c", 3%nat)] in
  _LRUCache.set "c" 3%nat c = inr c'
  /\ _LRUCache.find "a" (_LRUCache.cache_map c') = Some 1%nat.
Proof.
  intros c c'.
  assert (Hset : _LRUCache.set "c" 3%nat c = inr c') by reflexivity.
  split; [exact Hset|].
  destruct (lru_set_keeps_other_keys "c" 3%nat c c') with (key' := "a")
    as [_ H].
  - refine (bool_decide_unpack _ _). vm_compute. exact I.
  - exact Hset.
  - discriminate.
  - rewrite H; [reflexivity|]. right. simpl. lia.
Defined.

Lemma lru_nonpositive_capacity_rejects_set_witness :
  _LRUCache.set "a" 1%nat
    (_LRUCache.run [_LRUCache.OpSet "b" 2%nat; _LRUCache.OpGet "b"]
       (_LRUCache.init 0))
  = inl (KeyError "dictionary is empty").
Proof.
  destruct (lru_nonpositive_capacity_rejects_set 0
              [_LRUCache.OpSet "b" 2%nat; _LRUCache.OpGet "b"] "a" 1%nat)
    as (_ & H & _); [lia | exact H].
Defined.

(** ** extract_task: the cache flag, failures and the degenerate cache *)

Section ExtractTaskFrames.
Context {Env : Type}.
Implicit Types (E : Collaborators Env) (st : state Env).

(** X8.  With [use_cache=False] the call neither reads nor writes the cache:
    the cache is unchanged whatever happens, a returned result is a new
    object appended to the heap (so never an object handed out before),
    and a call that raises allocates nothing. *)
Theorem extract_task_without_cache_bypasses_cache E (threshold : Q)
    (text format_type : string) st :
  cache (snd (extract_task E threshold text format_type false st)) = cache st
  /\ (forall l, fst (extract_task E threshold text format_type false st) = inr l ->
        l = length (heap st)
        /\ exists d,
             heap (snd (extract_task E threshold text format_type false st))
             = heap st ++ [d])
  /\ (forall e, fst (extract_task E threshold text format_type false st) = inl e ->
        heap (snd (extract_task E threshold text format_type false st)) = heap st).
Proof.
  unfold extract_task. simpl.
  destruct (clean_text E text format_type) as [e|cleaned]; [by repeat split|].
  simpl.
  destruct (classify E cleaned threshold (env st)) as [[e|cls] e1];
    [by repeat split|]. simpl.
  destruct (extract_entities E cleaned threshold e1) as [[e|ents] e2];
    [by repeat split|]. simpl.
  rewrite validate_built.
  destruct (verdict (combined_confidence cls ents) threshold) as [[valid msg] fc].
  simpl. split; [done|]. split; [|done].
  intros l [= <-]. split; [done|]. by eexists.
Qed.

(** X9.  A call that raises leaves no trace: nothing is allocated, nothing is
    cached, and the exception is the one [clean_text], the classifier or
    the recognizer raised. *)
Theorem extract_task_failure_leaves_no_trace E (threshold : Q)
    (text format_type : string) (use_cache : bool) st (e : exn) st' :
  (use_cache = false \/ (0 < _LRUCache.capacity (cache st))%Z) ->
  extract_task E threshold text format_type use_cache st = (inl e, st') ->
  heap st' = heap st
  /\ cache st' = cache st
  /\ (clean_text E text format_type = inl e
      \/ exists cleaned,
           clean_text E text format_type = inr cleaned
           /\ (fst (classify E cleaned threshold (env st)) = inl e
               \/ exists cls e1,
                    classify E cleaned threshold (env st) = (inr cls, e1)
                    /\ fst (extract_entities E cleaned threshold e1) = inl e)).
Proof.
  intros Hcap. unfold extract_task.
  assert (Hlook :
    (if use_cache
     then let '(v, c) := _LRUCache.get (cache_key format_type text) (cache st) in
          (v, with_cache c st)
     else (None, st)) = (None, st)
    \/ exists l c,
         (if use_cache
          then let '(v, c) := _LRUCache.get (cache_key format_type text) (cache st) in
               (v, with_cache c st)
          else (None, st)) = (Some l, with_cache c st)).
  { destruct use_cache; [|by left]. unfold _LRUCache.get.
    destruct (_LRUCache.find _ _) as [l|]; [right; by eexists _, _|left].
    by destruct st. }
  destruct Hlook as [->|(l & c & ->)]; [|done].
  destruct (clean_text E text format_type) as [e0|cleaned] eqn:Hc.
  { intros [= <- <-]. simpl. split; [done|]. split; [done|]. by left. }
  simpl.
  destruct (classify E cleaned threshold (env st)) as [[e0|cls] e1] eqn:Hi.
  { intros [= <- <-]. simpl. split; [done|]. split; [done|].
    right. exists cleaned. split; [done|]. left. by rewrite Hi. }
  simpl.
  destruct (extract_entities E cleaned threshold e1) as [[e0|ents] e2] eqn:He.
  { intros [= <- <-]. simpl. split; [done|]. split; [done|].
    right. exists cleaned. split; [done|]. right. exists cls, e1.
    split; [done|]. by rewrite He. }
  simpl. rewrite validate_built.
  destruct (verdict (combined_confidence cls ents) threshold) as [[valid msg] fc].
  simpl. destruct use_cache; [|done].
  destruct Hcap as [Hf|Hcap]; [done|].
  destruct (set_returns (V:=loc) (cache_key format_type text)
              (length (heap st)) (cache st) Hcap) as [c' ->].
  done.
Qed.

(** X10.  A cache of capacity zero or less makes every caching call fail after
    the work is done: both models have answered when [set] raises the
    KeyError of [popitem] on the empty OrderedDict, and the cache stays
    empty, so the same happens on every later call. *)
Theorem extract_task_nonpositive_cache_raises E (threshold : Q)
    (text format_type : string) st (cleaned : string)
    (cls : ClassificationResult) (e1 : Env) (ents : list Entity) (e2 : Env) :
  (_LRUCache.capacity (cache st) <= 0)%Z ->
  _LRUCache.cache_map (cache st) = [] ->
  clean_text E text format_type = inr cleaned ->
  classify E cleaned threshold (env st) = (inr cls, e1) ->
  extract_entities E cleaned threshold e1 = (inr ents, e2) ->
  exists st',
    extract_task E threshold text format_type true st
    = (inl (KeyError "dictionary is empty"), st')
    /\ cache st' = cache st
    /\ env st' = e2
    /\ calls st' = calls st ++ [CallCleanText text format_type;
                                CallClassify cleaned;
                                CallExtractEntities cleaned].
Proof.
  intros Hcap Hempty Hc Hi He. unfold extract_task.
  unfold _LRUCache.get. rewrite Hempty. simpl.
  replace (with_cache (cache st) st) with st by (by destruct st).
  rewrite Hc. simpl. rewrite Hi. simpl. rewrite He. simpl.
  rewrite validate_built.
  destruct (verdict (combined_confidence cls ents) threshold) as [[valid msg] fc].
  simpl. unfold _LRUCache.set. simpl. rewrite Hempty. simpl.
  change (Z.of_nat 0) with 0%Z.
  destruct (Z.leb_spec (_LRUCache.capacity (cache st)) 0) as [_|Hgt]; [|lia].
  eexists. split; [reflexivity|]. simpl. rewrite <- !app_assoc. by repeat split.
Qed.

End ExtractTaskFrames.

Lemma extract_task_failure_leaves_no_trace_witness :
  let E := mkCollaborators (Env:=unit)
             (fun text _ => ret text)
             (fun _ _ e => (raise (RuntimeError "classifier down"), e))
             (fun _ _ e => (ret [], e)) in
  let st := init_state 4 tt in
  heap (snd (extract_task E (3 # 5) "call Alice" "chat" true st)) = []
  /\ cache (snd (extract_task E (3 # 5) "call Alice" "chat" true st))
     = _LRUCache.init 4.
Proof.
  intros E st.
  destruct (extract_task_failure_leaves_no_trace E (3 # 5) "call Alice" "chat"
              true st (RuntimeError "classifier down")
              (snd (extract_task E (3 # 5) "call Alice" "chat" true st)))
    as (Hheap & Hcache & _).
  - right. reflexivity.
  - reflexivity.
  - split; [exact Hheap | exact Hcache].
Defined.

Lemma extract_task_nonpositive_cache_raises_witness :
  exists st',
    extract_task
      (fixed_collaborators (mkClassification (Some "TASK") (Some (9 # 10))) [])
      (3 # 5) "call Alice" "chat" true (init_state 0 tt)
    = (inl (KeyError "dictionary is empty"), st')
    /\ cache st' = _LRUCache.init 0.
Proof.
  destruct (extract_task_nonpositive_cache_raises (Env:=unit)
              (fixed_collaborators (mkClassification (Some "TASK") (Some (9 # 10))) [])
              (3 # 5) "call Alice" "chat" (init_state 0 tt) "call Alice"
              (mkClassification (Some "TASK") (Some (9 # 10))) tt [] tt)
    as (st' & Hrun & Hcache & _); try reflexivity.
  exists st'. split; [exact Hrun | exact Hcache].
Defined.

(** ** extract_task over the two models *)

Section WithModels.
Context {Env : Type}.
Variable clean : string -> string -> result string.
Variable infer_intent : string -> Env -> result (string * Q) * Env.
Variable infer_entities :
  string -> Env -> result (list (string * string * Q)) * Env.

Lemma sum_lower (xs : list Q) (b : Q) :
  Forall (fun x => (b <= x)%Q) xs ->
  (inject_Z (Z.of_nat (length xs)) * b <= fold_right Qplus 0 xs)%Q.
Proof.
  induction 1 as [|x xs Hx _ IH]; simpl fold_right.
  - change (inject_Z (Z.of_nat (length (@nil Q)))) with 0%Q. lra.
  - change (length (x :: xs)) with (S (length xs)).
    rewrite Nat2Z.inj_succ. unfold Z.succ. rewrite inject_Z_plus.
    change (inject_Z 1) with 1%Q. lra.
Qed.

Lemma mean_lower (xs : list Q) (b : Q) :
  xs <> [] -> Forall (fun x => (b <= x)%Q) xs -> (b <= mean xs)%Q.
Proof.
  intros Hne Hall. pose proof (sum_lower xs b Hall) as Hsum.
  assert (Hn : (0 < inject_Z (Z.of_nat (length xs)))%Q).
  { change 0%Q with (inject_Z 0). rewrite <- Zlt_Qlt.
    destruct xs; [done|simpl; lia]. }
  unfold mean. apply Qle_shift_div_l; [done|]. lra.
Qed.

Lemma outputs_reach_bound (predictions : list (string * string * Q))
    (threshold : Q) :
  (0 < threshold)%Q ->
  Forall (fun ent => (threshold <= ent_confidence ent)%Q)
    (TaskNERModel.process_model_outputs predictions threshold).
Proof.
  intros Hpos. unfold TaskNERModel.process_model_outputs.
  destruct (Qeq_bool threshold 0) eqn:Hz.
  { apply Qeq_bool_iff in Hz. lra. }
  induction predictions as [|[[lbl tok] c] rest IH]; simpl; [constructor|].
  destruct (Qle_bool threshold c) eqn:Hc; [|done].
  simpl. constructor; [|done]. simpl. by apply Qle_bool_iff.
Qed.

Lemma outputs_keep_upper (predictions : list (string * string * Q))
    (threshold : Q) :
  Forall (fun p => (snd p <= 1)%Q) predictions ->
  Forall (fun ent => (ent_confidence ent <= 1)%Q)
    (TaskNERModel.process_model_outputs predictions threshold).
Proof.
  unfold TaskNERModel.process_model_outputs.
  induction 1 as [|[[lbl tok] c] rest Hc _ IH]; simpl; [constructor|].
  destruct (Qle_bool _ c); [|done]. simpl. by constructor.
Qed.

Lemma outputs_nonempty (predictions : list (string * string * Q))
    (threshold : Q) :
  (0 < threshold)%Q ->
  Exists (fun p => (threshold <= snd p)%Q) predictions ->
  TaskNERModel.process_model_outputs predictions threshold <> [].
Proof.
  intros Hpos. unfold TaskNERModel.process_model_outputs.
  destruct (Qeq_bool threshold 0) eqn:Hz.
  { apply Qeq_bool_iff in Hz. lra. }
  induction 1 as [[[lbl tok] c] rest Hc|[[lbl tok] c] rest _ IH]; simpl.
  - simpl in Hc. apply Qle_bool_iff in Hc. by rewrite Hc.
  - destruct (Qle_bool threshold c); [done|exact IH].
Qed.

Lemma outputs_empty (predictions : list (string * string * Q))
    (threshold : Q) :
  (0 < threshold)%Q ->
  Forall (fun p => (snd p < threshold)%Q) predictions ->
  TaskNERModel.process_model_outputs predictions threshold = [].
Proof.
  intros Hpos. unfold TaskNERModel.process_model_outputs.
  destruct (Qeq_bool threshold 0) eqn:Hz.
  { apply Qeq_bool_iff in Hz. lra. }
  induction 1 as [|[[lbl tok] c] rest Hc _ IH]; simpl; [done|].
  simpl in Hc. destruct (Qle_bool threshold c) eqn:Hle; [|exact IH].
  apply Qle_bool_iff in Hle. lra.
Qed.

(** What a result computed over the two models is made of. *)
Lemma models_computed (threshold : Q) (text format_type : string)
    (use_cache : bool) (st st' : state Env) (l : loc) :
  cache_miss use_cache format_type text st ->
  extract_task (model_collaborators clean infer_intent infer_entities)
    threshold text format_type use_cache st = (inr l, st') ->
  exists cleaned predicted_label max_confidence e1 predictions e2,
    clean text format_type = inr cleaned
    /\ is_blank cleaned = false
    /\ (0 < threshold)%Q /\ (threshold <= 1)%Q
    /\ (3 <= String.length cleaned)%nat
    /\ infer_intent cleaned (env st) = (inr (predicted_label, max_confidence), e1)
    /\ infer_entities cleaned e1 = (inr predictions, e2)
    /\ heap st' !! l
       = Some (let cls :=
                 mkClassification
                   (if Qle_bool threshold max_confidence
                    then Some predicted_label else None)
                   (Some max_confidence) in
               let ents :=
                 TaskNERModel.process_model_outputs predictions threshold in
               let '(valid, msg, fc) :=
                 verdict (combined_confidence cls ents) threshold in
               result_data (build_task cls ents) valid msg fc).
Proof.
  intros Hmiss Hrun.
  destruct (extract_task_computed _ _ _ _ _ _ _ _ Hmiss Hrun)
    as (cleaned & cls & e1 & ents & e2 & valid & msg & fc
        & Hc & Hi & He & Hv & -> & Hheap & _).
  simpl in Hc, Hi, He.
  unfold BERTClassifier.classify in Hi.
  destruct (is_blank cleaned) eqn:Hb; [done|].
  destruct (Qlt_bool 0 threshold && Qle_bool threshold 1) eqn:Ht;
    simpl in Hi; [|done].
  apply andb_prop in Ht as [Ht0 Ht1].
  apply Qlt_bool_iff in Ht0. apply Qle_bool_iff in Ht1.
  destruct (String.length cleaned <? 3)%nat eqn:Hlen; [done|].
  apply Nat.ltb_ge in Hlen.
  destruct (infer_intent cleaned (env st)) as [[err|[lbl conf]] e'] eqn:Hii;
    [done|].
  injection Hi as <- <-.
  unfold TaskNERModel.extract_entities in He. rewrite Hb in He.
  destruct (infer_entities cleaned e') as [[err|predictions] e''] eqn:Hie;
    [done|].
  injection He as <- <-.
  exists cleaned, lbl, conf, e', predictions, e''.
  repeat (split; [done|]).
  rewrite Hheap, list_lookup_middle by done.
  rewrite validate_built in Hv. injection Hv as Hv. cbv zeta.
  by rewrite Hv.
Qed.

(** X11.  A threshold outside (0, 1] makes every computed call fail: the
    classifier rejects it before it infers, the recognizer is not
    called, and nothing is stored. *)
Theorem extract_task_rejects_threshold_out_of_range (threshold : Q)
    (text format_type : string) (use_cache : bool) (st : state Env)
    (cleaned : string) :
  cache_miss use_cache format_type text st ->
  clean text format_type = inr cleaned ->
  is_blank cleaned = false ->
  (threshold <= 0 \/ 1 < threshold)%Q ->
  exists st',
    extract_task (model_collaborators clean infer_intent infer_entities)
      threshold text format_type use_cache st
    = (inl (ValueError "confidence_threshold must be between 0 and 1."), st')
    /\ calls st' = calls st ++ [CallCleanText text format_type;
                                CallClassify cleaned]
    /\ heap st' = heap st
    /\ cache st' = cache st
    /\ env st' = env st.
Proof.
  intros Hmiss Hclean Hblank Hthr. unfold extract_task.
  rewrite (lookup_after_miss _ _ _ _ Hmiss). simpl.
  rewrite Hclean. unfold BERTClassifier.classify. rewrite Hblank.
  assert (Ht : Qlt_bool 0 threshold && Qle_bool threshold 1 = false).
  { destruct Hthr as [Hle|Hgt].
    - apply Qlt_bool_false_iff in Hle. by rewrite Hle.
    - apply andb_false_iff. right.
      destruct (Qle_bool threshold 1) eqn:Hb; [|done].
      apply Qle_bool_iff in Hb. lra. }
  rewrite Ht. simpl.
  eexists. split; [reflexivity|]. simpl. rewrite <- app_assoc. by repeat split.
Qed.

(** X12.  Over the two models a result is valid as soon as the classifier's
    confidence reaches the threshold and one prediction of the
    recognizer does, the confidences being at most 1: the entities that
    are averaged are those at or above the threshold. *)
Theorem confident_models_give_valid_task (threshold : Q)
    (text format_type : string) (use_cache : bool) (st st' : state Env)
    (l : loc) :
  cache_miss use_cache format_type text st ->
  extract_task (model_collaborators clean infer_intent infer_entities)
    threshold text format_type use_cache st = (inr l, st') ->
  exists cleaned predicted_label max_confidence e1 predictions d,
    clean text format_type = inr cleaned
    /\ infer_intent cleaned (env st) = (inr (predicted_label, max_confidence), e1)
    /\ fst (infer_entities cleaned e1) = inr predictions
    /\ heap st' !! l = Some d
    /\ ((threshold <= max_confidence)%Q ->
        (max_confidence <= 1)%Q ->
        Exists (fun p => (threshold <= snd p)%Q) predictions ->
        Forall (fun p => (snd p <= 1)%Q) predictions ->
        dict_get "valid" d = Some (VBool true)
        /\ dict_get "error" d = Some (VStr EmptyString)).
Proof.
  intros Hmiss Hrun.
  destruct (models_computed _ _ _ _ _ _ _ Hmiss Hrun)
    as (cleaned & lbl & conf & e1 & predictions & e2
        & Hc & _ & Hpos & _ & _ & Hii & Hie & Hd).
  eexists cleaned, lbl, conf, e1, predictions, _.
  split; [done|]. split; [done|]. split; [by rewrite Hie|].
  split; [exact Hd|].
  intros Hconf Hconf1 Hsome Hall. cbv zeta.
  set (cls := mkClassification _ _).
  set (ents := TaskNERModel.process_model_outputs predictions threshold).
  pose proof (outputs_reach_bound predictions threshold Hpos) as Hlow.
  pose proof (outputs_keep_upper predictions threshold Hall) as Hup.
  pose proof (outputs_nonempty predictions threshold Hpos Hsome) as Hne.
  fold ents in Hlow, Hup, Hne.
  assert (Hmean : (threshold <= entity_confidence ents
                   /\ entity_confidence ents <= 1)%Q).
  { unfold entity_confidence. destruct ents as [|ent ents']; [done|]. split.
    - apply mean_lower; [done|]. by apply Forall_fmap.
    - apply (mean_bounds (map ent_confidence (ent :: ents'))); [done|].
      apply Forall_fmap. apply Forall_forall. intros x Hx. split.
      + rewrite Forall_forall in Hlow. specialize (Hlow x Hx). simpl. lra.
      + rewrite Forall_forall in Hup. by apply Hup. }
  destruct Hmean as [Hm0 Hm1].
  assert (Hcomb : (threshold <= combined_confidence cls ents
                   /\ combined_confidence cls ents <= 1)%Q).
  { unfold combined_confidence, intent_confidence. simpl. split.
    - apply Qle_shift_div_l; lra.
    - apply Qle_shift_div_r; lra. }
  destruct Hcomb as [Hc0 Hc1].
  unfold verdict.
  assert (H0 : Qlt_bool (combined_confidence cls ents) 0 = false).
  { apply Qlt_bool_false_iff. lra. }
  assert (H1 : Qlt_bool 1 (combined_confidence cls ents) = false).
  { by apply Qlt_bool_false_iff. }
  assert (H2 : Qlt_bool (combined_confidence cls ents) threshold = false).
  { by apply Qlt_bool_false_iff. }
  rewrite H0, H1, H2. simpl. done.
Qed.

(** X13.  When no prediction of the recognizer reaches the threshold, the
    combined confidence is half the classifier's, so the result is
    valid only if the classifier's confidence is at least twice the
    threshold. *)
Theorem unrecognised_text_needs_double_confidence (threshold : Q)
    (text format_type : string) (use_cache : bool) (st st' : state Env)
    (l : loc) :
  cache_miss use_cache format_type text st ->
  extract_task (model_collaborators clean infer_intent infer_entities)
    threshold text format_type use_cache st = (inr l, st') ->
  exists cleaned predicted_label max_confidence e1 predictions d,
    clean text format_type = inr cleaned
    /\ infer_intent cleaned (env st) = (inr (predicted_label, max_confidence), e1)
    /\ fst (infer_entities cleaned e1) = inr predictions
    /\ heap st' !! l = Some d
    /\ (Forall (fun p => (snd p < threshold)%Q) predictions ->
        (exists fc : Q, dict_get "final_confidence" d = Some (VFloat fc)
                    /\ (fc == max_confidence / 2)%Q)
        /\ (dict_get "valid" d = Some (VBool true) ->
            (2 * threshold <= max_confidence)%Q)).
Proof.
  intros Hmiss Hrun.
  destruct (models_computed _ _ _ _ _ _ _ Hmiss Hrun)
    as (cleaned & lbl & conf & e1 & predictions & e2
        & Hc & _ & Hpos & _ & _ & Hii & Hie & Hd).
  eexists cleaned, lbl, conf, e1, predictions, _.
  split; [done|]. split; [done|]. split; [by rewrite Hie|].
  split; [exact Hd|].
  intros Hnone. cbv zeta.
  rewrite (outputs_empty predictions threshold Hpos Hnone).
  set (cls := mkClassification _ _).
  assert (Hcomb : (combined_confidence cls [] == conf / 2)%Q).
  { unfold combined_confidence, intent_confidence. simpl. field. }
  pose proof (verdict_valid (combined_confidence cls []) threshold) as Hv.
  destruct (verdict (combined_confidence cls []) threshold)
    as [[valid msg] fc].
  destruct Hv as (-> & _ & Hvalid). split.
  - eexists. split; [reflexivity|exact Hcomb].
  - simpl. intros [= ->].
    destruct (Qlt_le_dec (combined_confidence cls []) threshold) as [Hlt|Hle].
    + assert (true = false) by (apply Hvalid; auto). done.
    + rewrite Hcomb in Hle.
      assert (Hx : (conf == 2 * (conf / 2))%Q) by field.
      set (h := (conf / 2)%Q) in *. lra.
Qed.

End WithModels.

Lemma extract_task_rejects_threshold_out_of_range_witness :
  exists st',
    extract_task (constant_models "TASK" (9 # 10) []) (3 # 2)
      "call Alice" "chat" true (init_state 4 tt)
    = (inl (ValueError "confidence_threshold must be between 0 and 1."), st')
    /\ heap st' = [].
Proof.
  destruct (extract_task_rejects_threshold_out_of_range (Env:=unit)
              (fun text _ => ret text)
              (fun _ e => (ret ("TASK", 9 # 10), e))
              (fun _ e => (ret [], e))
              (3 # 2) "call Alice" "chat" true (init_state 4 tt) "call Alice")
    as (st' & Hrun & _ & Hheap & _).
  - right. reflexivity.
  - reflexivity.
  - reflexivity.
  - right. reflexivity.
  - exists st'. split; [exact Hrun | exact Hheap].
Defined.

Lemma confident_models_give_valid_task_witness :
  let E := constant_models "TASK" (9 # 10) [("ASSIGNEE", "Alice", 4 # 5)] in
  exists d,
    heap (snd (extract_task E (3 # 5) "call Alice" "chat" true (init_state 4 tt)))
      !! 0%nat = Some d
    /\ dict_get "valid" d = Some (VBool true).
Proof.
  intros E.
  destruct (confident_models_give_valid_task (Env:=unit)
              (fun text _ => ret text)
              (fun _ e => (ret ("TASK", 9 # 10), e))
              (fun _ e => (ret [("ASSIGNEE", "Alice", 4 # 5)], e))
              (3 # 5) "call Alice" "chat" true (init_state 4 tt)
              (snd (extract_task E (3 # 5) "call Alice" "chat" true
                      (init_state 4 tt)))
              0%nat)
    as (cleaned & lbl & conf & e1 & predictions & d
        & Hc & Hii & Hie & Hd & Hvalid).
  - right. reflexivity.
  - reflexivity.
  - injection Hc as <-. injection Hii as <- <- <-. injection Hie as <-.
    exists d. split; [exact Hd|]. apply Hvalid.
    + discriminate.
    + discriminate.
    + apply Exists_cons_hd. discriminate.
    + repeat constructor. discriminate.
Defined.

Lemma unrecognised_text_needs_double_confidence_witness :
  let E := constant_models "TASK" (9 # 10) [("ASSIGNEE", "Alice", 2 # 5)] in
  exists d (fc : Q),
    heap (snd (extract_task E (3 # 5) "call Alice" "chat" true (init_state 4 tt)))
      !! 0%nat = Some d
    /\ dict_get "final_confidence" d = Some (VFloat fc)
    /\ (fc == (9 # 10) / 2)%Q.
Proof.
  intros E.
  destruct (unrecognised_text_needs_double_confidence (Env:=unit)
              (fun text _ => ret text)
              (fun _ e => (ret ("TASK", 9 # 10), e))
              (fun _ e => (ret [("ASSIGNEE", "Alice", 2 # 5)], e))
              (3 # 5) "call Alice" "chat" true (init_state 4 tt)
              (snd (extract_task E (3 # 5) "call Alice" "chat" true
                      (init_state 4 tt)))
              0%nat)
    as (cleaned & lbl & conf & e1 & predictions & d
        & Hc & Hii & Hie & Hd & Hnone).
  - right. reflexivity.
  - reflexivity.
  - injection Hc as <-. injection Hii as <- <- <-. injection Hie as <-.
    destruct Hnone as [(fc & Hfc & Heq) _].
    + repeat constructor.
    + exists d, fc. split; [exact Hd|]. split; [exact Hfc | exact Heq].
Defined.

(** ** batch_extract_tasks: when it returns and what it raises *)

Section BatchOutcome.
Context {R : Type}.
Variable run_item : nat -> string -> result R.
Variable as_completed :
  list (result (list (nat * R))) -> list (result (list (nat * R))).
Hypothesis as_completed_perm : forall l, Permutation (as_completed l) l.

Lemma worker_loop_ok chunk :
  forall start i acc,
    (forall j txt, chunk !! j = Some txt ->
                   exists r, run_item (start + i + j)%nat txt = inr r) ->
    exists out, batch_worker_loop run_item start i chunk acc = inr out.
Proof.
  induction chunk as [|t rest IH]; intros start i acc Hall; simpl.
  - by eexists.
  - destruct (Hall 0%nat t eq_refl) as [r Hr]. rewrite Nat.add_0_r in Hr.
    rewrite Hr. simpl. apply IH. intros j txt Hj.
    replace (start + S i + j)%nat with (start + i + S j)%nat by lia.
    by apply Hall.
Qed.

Lemma worker_loop_fail chunk :
  forall start i acc e,
    batch_worker_loop run_item start i chunk acc = inl e ->
    exists j txt, chunk !! j = Some txt
                  /\ run_item (start + i + j)%nat txt = inl e.
Proof.
  induction chunk as [|t rest IH]; intros start i acc e; simpl; [done|].
  destruct (run_item (start + i) t) as [e0|r] eqn:Hr; simpl.
  - intros [= ->]. exists 0%nat, t. by rewrite Nat.add_0_r.
  - intros Hloop. destruct (IH _ _ _ _ Hloop) as (j & txt & Hj & Hrun).
    exists (S j), txt. split; [done|].
    by replace (start + i + S j)%nat with (start + S i + j)%nat by lia.
Qed.

Lemma collect_fail (completed : list (result (list (nat * R)))) :
  forall acc e, collect completed acc = inl e -> inl e ∈ completed.
Proof.
  induction completed as [|[e0|out] rest IH]; intros acc e; simpl; [done| |].
  - intros [= ->]. left.
  - intros H. right. by eapply IH.
Qed.

Lemma tasks_ok_of_items texts size :
  (forall i txt, texts !! i = Some txt -> exists r, run_item i txt = inr r) ->
  exists outs, map (worker_of run_item) (chunker texts size) = map inr outs.
Proof.
  intros Hall.
  assert (Hchunks : forall pos c, (pos, c) ∈ chunker texts size ->
                      exists out, worker_of run_item (pos, c) = inr out).
  { intros pos c Hin. simpl. unfold batch_worker. apply worker_loop_ok.
    intros j txt Hj. rewrite Nat.add_0_r. apply Hall.
    by eapply chunker_lookup. }
  induction (chunker texts size) as [|[pos c] chunks IH].
  - by exists [].
  - destruct (Hchunks pos c) as [out Hout]; [left|].
    destruct IH as [outs Houts].
    { intros p c' Hin. apply Hchunks. by right. }
    exists (out :: outs). simpl. simpl in Hout. by rewrite Hout, Houts.
Qed.

Lemma ThreadPoolExecutor_ok (max_workers : option Z) :
  ThreadPoolExecutor max_workers = inr tt
  <-> (forall n, max_workers = Some n -> (0 < n)%Z).
Proof.
  unfold ThreadPoolExecutor. destruct max_workers as [n|].
  - destruct (Z.leb_spec n 0) as [Hle|Hpos]; split.
    + done.
    + intros H. specialize (H n eq_refl). lia.
    + by intros _ m [= <-].
    + done.
  - split; [by intros _ n|done].
Qed.

Lemma ThreadPoolExecutor_raises (max_workers : option Z) (e : exn) :
  ThreadPoolExecutor max_workers = inl e ->
  (exists n, max_workers = Some n /\ (n <= 0)%Z)
  /\ e = ValueError "max_workers must be greater than 0".
Proof.
  unfold ThreadPoolExecutor. destruct max_workers as [n|]; [|done].
  destruct (Z.leb_spec n 0) as [Hle|Hpos]; [|done].
  intros [= <-]. split; [by exists n|done].
Qed.

(** X14.  The batch returns exactly when the batch size is positive, the
    configured number of workers is absent or positive (the executor
    refuses any other), and every item's extraction succeeds, in
    whatever order the workers finish. *)
Theorem batch_extract_tasks_returns_iff (max_workers : option Z)
    (texts : list string) (batch_size : Z) :
  (exists rs, batch_extract_tasks run_item as_completed max_workers texts
                batch_size = inr rs)
  <-> ((0 < batch_size)%Z
       /\ (forall n, max_workers = Some n -> (0 < n)%Z)
       /\ forall i txt, texts !! i = Some txt ->
                        exists r, run_item i txt = inr r).
Proof.
  split.
  - intros [rs Hrun].
    destruct (batch_tasks_ok_of_return run_item as_completed as_completed_perm
                _ _ _ _ Hrun) as (Hpos & Hexec & outs0 & Htasks).
    destruct (batch_return_of_tasks_ok run_item as_completed as_completed_perm
                max_workers texts batch_size outs0 Hpos Hexec Htasks)
      as (rs1 & _ & _ & _ & _ & _ & _ & _ & Hitems).
    split; [done|]. split; [by apply ThreadPoolExecutor_ok|].
    intros i txt Hi. destruct (Hitems i txt Hi) as (r & Hr & _). by exists r.
  - intros (Hpos & Hexec & Hall).
    apply ThreadPoolExecutor_ok in Hexec.
    destruct (tasks_ok_of_items texts (Z.to_nat batch_size) Hall) as [outs Houts].
    destruct (batch_return_of_tasks_ok run_item as_completed as_completed_perm
                max_workers texts batch_size outs Hpos Hexec Houts)
      as (rs & _ & Hrun & _).
    by exists rs.
Qed.

(** X15.  The batch raises three things and no other: the error of a
    batch size that is not positive; with a positive batch size, the
    executor's error for a configured number of workers that is not
    positive, before any item runs; and otherwise the exception one
    of the items raised. *)
Theorem batch_extract_tasks_raises_item_exception (max_workers : option Z)
    (texts : list string) (batch_size : Z) (e : exn) :
  batch_extract_tasks run_item as_completed max_workers texts batch_size
  = inl e ->
  ((batch_size <= 0)%Z
   /\ e = ValueError "Parameter 'batch_size' must be a positive integer.")
  \/ ((0 < batch_size)%Z
      /\ (exists n, max_workers = Some n /\ (n <= 0)%Z)
      /\ e = ValueError "max_workers must be greater than 0")
  \/ ((0 < batch_size)%Z
      /\ (forall n, max_workers = Some n -> (0 < n)%Z)
      /\ exists i txt, texts !! i = Some txt /\ run_item i txt = inl e).
Proof.
  intros Hrun. pose proof Hrun as Hrun0. unfold batch_extract_tasks in Hrun.
  destruct (Z.leb_spec batch_size 0) as [Hle|Hpos].
  { left. split; [done|]. by injection Hrun as <-. }
  right.
  destruct (ThreadPoolExecutor max_workers) as [e0|[]] eqn:Hexec;
    cbn [bind] in Hrun.
  { left. injection Hrun as ->.
    destruct (ThreadPoolExecutor_raises _ _ Hexec) as [Hn ->]. done. }
  right. split; [done|]. split; [by apply ThreadPoolExecutor_ok|].
  destruct (collect _ _) as [e0|partial_results] eqn:Hcollect;
    cbn [bind] in Hrun.
  - injection Hrun as ->.
    apply collect_fail in Hcollect.
    rewrite (as_completed_perm _) in Hcollect.
    apply list_elem_of_fmap in Hcollect as ([pos c] & Hw & Hin).
    simpl in Hw. unfold batch_worker in Hw. symmetry in Hw.
    apply worker_loop_fail in Hw as (j & txt & Hj & Hfail).
    rewrite Nat.add_0_r in Hfail.
    exists (pos + j)%nat, txt. split; [|done]. by eapply chunker_lookup.
  - destruct (collect_inv _ _ _ Hcollect) as (outs & Hcomp & _).
    pose proof (as_completed_perm
                  (map (worker_of run_item)
                     (chunker texts (Z.to_nat batch_size)))) as Hperm.
    rewrite Hcomp in Hperm. symmetry in Hperm.
    destruct (Permutation_map_inv _ _ Hperm) as (outs0 & Houts0 & _).
    destruct (batch_return_of_tasks_ok run_item as_completed as_completed_perm
                max_workers texts batch_size outs0 Hpos Hexec Houts0)
      as (rs & _ & Hok & _).
    rewrite Hok in Hrun0. done.
Qed.

End BatchOutcome.

Lemma batch_extract_tasks_returns_iff_witness :
  (exists rs,
     batch_extract_tasks (fun _ txt => ret (String.length txt)) (fun l => l)
       (Some 4%Z) five_texts 2 = inr rs)
  /\ ~ (exists rs,
          batch_extract_tasks (fun _ txt => ret (String.length txt))
            (fun l => l) (Some 0%Z) five_texts 2 = inr rs).
Proof.
  split.
  - apply (batch_extract_tasks_returns_iff
             (fun _ txt => ret (String.length txt)) (fun l => l)
             (fun l => Permutation_refl l) (Some 4%Z) five_texts 2).
    split; [lia|]. split; [by intros n [= <-]|]. intros i txt _. by eexists.
  - intros H.
    apply (batch_extract_tasks_returns_iff
             (fun _ txt => ret (String.length txt)) (fun l => l)
             (fun l => Permutation_refl l) (Some 0%Z) five_texts 2) in H.
    destruct H as (_ & Hn & _). specialize (Hn 0%Z eq_refl). lia.
Defined.

Lemma batch_extract_tasks_raises_item_exception_witness :
  (exists i txt,
     five_texts !! i = Some txt
     /\ fails_at_2 i txt = inl (RuntimeError "model inference failed"))
  /\ batch_extract_tasks (fun _ txt => ret (String.length txt)) (fun l => l)
       (Some 0%Z) five_texts 2
     = inl (ValueError "max_workers must be greater than 0").
Proof.
  split; [|reflexivity].
  destruct (batch_extract_tasks_raises_item_exception fails_at_2 (fun l => l)
              (fun l => Permutation_refl l) (Some 4%Z) five_texts 2
              (RuntimeError "model inference failed") eq_refl)
    as [[Hle _]|[(_ & _ & He)|(_ & _ & H)]]; [lia | done | exact H].
Defined.

(** ** batch_process: items are processed one after the other *)

Section BatchProcessOrder.
Import CommunicationProcessor.
Context {W B : Type}.
Variable process_item : string -> W -> result B * W.

Lemma chunk_loop_shift chunk :
  forall s i s' i' w,
    (s + i = s' + i')%nat ->
    process_chunk_loop process_item s i chunk w
    = process_chunk_loop process_item s' i' chunk w.
Proof.
  induction chunk as [|txt rest IH]; intros s i s' i' w Heq; simpl; [done|].
  rewrite Heq.
  destruct (process_one_item process_item (s' + i') txt w) as [item w1].
  by rewrite (IH s (S i) s' (S i') w1) by lia.
Qed.

Lemma chunk_loop_app c1 :
  forall c2 s i w,
    process_chunk_loop process_item s i (c1 ++ c2) w
    = let '(items1, w1) := process_chunk_loop process_item s i c1 w in
      let '(items2, w2) :=
        process_chunk_loop process_item s (i + length c1) c2 w1 in
      (items1 ++ items2, w2).
Proof.
  induction c1 as [|txt rest IH]; intros c2 s i w; simpl.
  - rewrite Nat.add_0_r. by destruct (process_chunk_loop _ _ _ _ _).
  - destruct (process_one_item process_item (s + i) txt w) as [item w1].
    rewrite IH.
    replace (S i + length rest)%nat with (i + S (length rest))%nat by lia.
    destruct (process_chunk_loop process_item s (S i) rest w1) as [items1 w2].
    by destruct (process_chunk_loop process_item s _ c2 w2).
Qed.

Lemma store_consecutive {X} (items : list (nat * X)) :
  forall (filled rest : list (option X)) pos,
    map fst items = seq pos (length items) ->
    length filled = pos ->
    (length items <= length rest)%nat ->
    store items (filled ++ rest)
    = inr (filled ++ map (fun it => Some (snd it)) items
                  ++ drop (length items) rest).
Proof.
  induction items as [|[idx d] items IH]; intros filled rest pos Hfst Hlen Hle;
    simpl.
  - by rewrite drop_0.
  - simpl in Hfst. injection Hfst as -> Hfst.
    destruct rest as [|r rest]; [simpl in Hle; lia|].
    unfold list_assign. rewrite length_app. simpl length.
    destruct (Nat.ltb_spec pos (length filled + S (length rest))) as [_|]; [|lia].
    simpl. rewrite insert_app_r_alt by lia.
    replace (pos - length filled)%nat with 0%nat by lia. simpl.
    specialize (IH (filled ++ [Some d]) rest (S pos) Hfst).
    rewrite <- !app_assoc in IH. simpl in IH. apply IH.
    + rewrite length_app. simpl. lia.
    + simpl in Hle. lia.
Qed.

Lemma take_add_drop {A} (l : list A) (n m : nat) :
  take (n + m) l = take n l ++ take m (drop n l).
Proof.
  revert l. induction n as [|n IH]; intros [|x l]; simpl; try done.
  - by rewrite take_nil.
  - by rewrite IH.
Qed.

Lemma chunks_loop_seq (texts : list string) (size : nat) :
  (0 < size)%nat ->
  forall m a filled w,
    length filled = (a * size)%nat ->
    (m = 0%nat \/ ((a + m - 1) * size < length texts)%nat) ->
    chunks_loop process_item
      (map (fun k => ((k * size)%nat, take size (drop (k * size) texts)))
           (seq a m))
      (filled ++ replicate (length texts - a * size) None) w
    = let '(items, w') :=
        process_chunk_loop process_item 0 (a * size)
          (take (m * size) (drop (a * size) texts)) w in
      (inr (filled ++ map (fun it => Some (snd it)) items
                   ++ replicate (length texts - a * size - m * size) None),
       w').
Proof.
  intros Hsize. induction m as [|m IH]; intros a filled w Hlen Hrange.
  - simpl. by rewrite Nat.sub_0_r.
  - destruct Hrange as [|Hrange]; [done|].
    cbn [seq map chunks_loop]. unfold process_chunk_maps.
    set (c := take size (drop (a * size) texts)).
    assert (Hc : length c = Nat.min size (length texts - a * size)).
    { unfold c. by rewrite length_take, length_drop. }
    rewrite (chunk_loop_shift c (a * size) 0 0 (a * size) w) by lia.
    replace (S m * size)%nat with (size + m * size)%nat by lia.
    rewrite take_add_drop. fold c. rewrite chunk_loop_app.
    destruct (process_chunk_loop process_item 0 (a * size) c w)
      as [items1 w1] eqn:Hitems1.
    destruct (chunk_loop_spec process_item c 0 (a * size) w items1 w1 Hitems1)
      as [Hfst _].
    assert (Hn : length items1 = length c).
    { rewrite <- (length_map fst items1), Hfst. apply length_seq. }
    unfold store_items.
    rewrite (store_consecutive items1 filled _ (a * size)).
    2:{ by rewrite Hn, Hfst. }
    2:{ done. }
    2:{ rewrite length_replicate, Hn, Hc. lia. }
    rewrite drop_replicate, Hn.
    rewrite drop_drop.
    destruct m as [|m].
    + simpl. rewrite app_nil_r.
      replace (length texts - a * size - (size + 0))%nat
        with (length texts - a * size - length c)%nat by (rewrite Hc; lia).
      done.
    + assert (Hfull : length c = size).
      { rewrite Hc. nia. }
      rewrite Hfull.
      replace (length texts - a * size - size)%nat
        with (length texts - S a * size)%nat by lia.
      rewrite app_assoc.
      rewrite (IH (S a) (filled ++ map (fun it => Some (snd it)) items1) w1).
      2:{ rewrite length_app, length_map, Hn, Hfull, Hlen. lia. }
      2:{ right. replace (S a + S m - 1)%nat with (a + S (S m) - 1)%nat by lia.
          done. }
      replace (a * size + size)%nat with (S a * size)%nat by lia.
      destruct (process_chunk_loop process_item 0 (S a * size)
                  (take (S m * size) (drop (S a * size) texts)) w1)
        as [items2 w2].
      rewrite map_app, <- !app_assoc.
      replace (length texts - a * size - (size + S m * size))%nat
        with (length texts - S a * size - S m * size)%nat by lia.
      done.
Qed.

(** X16.  The batch size only groups the items: when the arguments are
    accepted, [batch_process] returns what processing the texts one
    after the other in input order gives, each in the state the previous
    one left, and ends in the state the last one left.  The result and
    the final state are the same for every positive batch size. *)
Theorem batch_process_is_sequential (texts : list string)
    (channel_type : string) (batch_size : Z) (w : W) :
  is_blank channel_type = false ->
  (0 < batch_size)%Z ->
  batch_process process_item texts channel_type batch_size w
  = (inr (map (fun it => Some (snd it))
            (fst (process_chunk_maps process_item 0 texts w))),
     snd (process_chunk_maps process_item 0 texts w)).
Proof.
  intros Hchannel Hpos. unfold batch_process. rewrite Hchannel.
  destruct (Z.leb_spec batch_size 0) as [|_]; [lia|].
  set (size := Z.to_nat (Z.min batch_size (Z.max (Z.of_nat (length texts)) 1))).
  assert (Hsize : (0 < size)%nat) by (unfold size; lia).
  unfold chunker, range_step. rewrite map_map.
  set (m := ((length texts + size - 1) / size)%nat).
  pose proof (ceil_div_covers (length texts) size Hsize) as Hcover.
  fold m in Hcover.
  assert (Hlast : m = 0%nat \/ ((0 + m - 1) * size < length texts)%nat).
  { destruct m as [|m'] eqn:Hm; [by left|right].
    pose proof (Nat.div_mod (length texts + size - 1) size ltac:(lia)) as Hdm.
    pose proof (Nat.mod_upper_bound (length texts + size - 1) size ltac:(lia)).
    fold m in Hdm. rewrite Hm in Hdm. nia. }
  pose proof (chunks_loop_seq texts size Hsize m 0 [] w eq_refl Hlast) as Hloop.
  simpl in Hloop. rewrite Nat.sub_0_r in Hloop. rewrite Hloop.
  rewrite drop_0, take_ge by lia.
  unfold process_chunk_maps.
  destruct (process_chunk_loop process_item 0 0 texts w) as [items w'].
  simpl. replace (length texts - m * size)%nat with 0%nat by lia.
  simpl. by rewrite app_nil_r.
Qed.

End BatchProcessOrder.

Lemma batch_process_is_sequential_witness :
  let count_calls := fun (txt : string) (n : nat) =>
    ((if is_blank txt then raise (ValueError "blank") else ret n), S n) in
  CommunicationProcessor.batch_process count_calls
    ["call Alice"; "  "; "book a room"] "chat" 2 0%nat
  = (inr [Some (CommunicationProcessor.ItemOk 0%nat);
          Some (CommunicationProcessor.ItemError "blank");
          Some (CommunicationProcessor.ItemOk 2%nat)], 3%nat).
Proof.
  intros count_calls.
  rewrite (batch_process_is_sequential count_calls
             ["call Alice"; "  "; "book a room"] "chat" 2 0%nat eq_refl);
    [reflexivity | lia].
Defined.

(** ** process_communication: what it raises, and the event loop *)

Section RetryLoopEdges.
Import CommunicationProcessor.
Context {W B : Type}.
Variable attempt_body : W -> result B * W.
Variable final_confidence : W -> B -> Q.
Variables (threshold : Q) (max_attempts : Z) (backoff_factor : Q).

Lemma loop_raises_runtime_error (in_event_loop : bool) (remaining : nat) :
  forall attempt last_error w log e w' log',
    attempt_loop attempt_body final_confidence threshold max_attempts
      backoff_factor in_event_loop remaining attempt last_error w log
    = (inl e, w', log') ->
    (exists last, e = RuntimeError (failure_message max_attempts last))
    \/ (in_event_loop = true /\ e = RuntimeError running_loop_message).
Proof.
  induction remaining as [|remaining IH];
    intros attempt last_error w log e w' log'; simpl.
  - intros [= <- _ _]. left. by eexists.
  - destruct (attempt_body w) as [[err|b] w1]; [|done].
    destruct ((attempt + 1 <? max_attempts)%Z && Qlt_bool 0 backoff_factor).
    + destruct in_event_loop.
      * intros [= <- _ _]. by right.
      * apply IH.
    + apply IH.
Qed.

(** Inside a running event loop, with more than one attempt allowed and
    a positive back-off, the loop makes one attempt: its result if it
    returns, the RuntimeError of [asyncio.run] if it raises. *)
Lemma loop_in_event_loop_single_attempt (w : W) :
  (1 < max_attempts)%Z ->
  (0 < backoff_factor)%Q ->
  retry attempt_body final_confidence threshold max_attempts backoff_factor
    true w
  = match attempt_body w with
    | (inr b, w1) =>
        (inr b, w1,
         warning_events threshold (final_confidence w1 b)
         ++ [LogDebug (final_confidence w1 b) 1 max_attempts])
    | (inl e, w1) =>
        (inl (RuntimeError running_loop_message), w1,
         [LogError 1 max_attempts (str_of_exn e)])
    end.
Proof.
  intros Hlimit Hbackoff. unfold retry.
  destruct (Z.to_nat max_attempts) as [|remaining] eqn:Hn; [lia|].
  cbn [attempt_loop]. change (0 + 1)%Z with 1%Z.
  destruct (attempt_body w) as [[e|b] w1].
  - apply Z.ltb_lt in Hlimit. rewrite Hlimit.
    apply Qlt_bool_iff in Hbackoff. by rewrite Hbackoff.
  - unfold warning_events. by destruct (Qlt_bool _ threshold).
Qed.

End RetryLoopEdges.

Section ProcessCommunicationEdges.
Import CommunicationProcessor.
Context {Env PT ER : Type}.
Implicit Types (P : Pipelines Env PT ER) (w : TaskExtractor.state Env).

(** X17.  Whatever the pipelines raise, the caller sees a ValueError only for
    a blank text or channel (and then nothing has run), and otherwise a
    RuntimeError: the aggregated failure, or the one [asyncio.run]
    raises inside a running event loop. *)
Theorem process_communication_raises_value_or_runtime_error P (cfg : Config)
    (in_event_loop : bool) (text channel_type : string)
    (use_task_cache : bool) w (e : exn) w' (log : list event) :
  process_communication P cfg in_event_loop text channel_type use_task_cache w
  = (inl e, w', log) ->
  (is_blank text = true
   /\ e = ValueError "process_communication requires a non-empty text string."
   /\ w' = w /\ log = [])
  \/ (is_blank text = false /\ is_blank channel_type = true
      /\ e = ValueError "process_communication requires a valid channel_type string."
      /\ w' = w /\ log = [])
  \/ (is_blank text = false /\ is_blank channel_type = false
      /\ ((exists last,
             e = RuntimeError
                   (failure_message (get_default (max_attempts cfg) 1%Z) last))
          \/ (in_event_loop = true
              /\ e = RuntimeError running_loop_message))).
Proof.
  unfold process_communication.
  destruct (is_blank text).
  { intros [= <- <- <-]. left. by repeat split. }
  destruct (is_blank channel_type).
  { intros [= <- <- <-]. right. left. by repeat split. }
  intros Hrun. right. right. split; [done|]. split; [done|].
  unfold retry in Hrun. by eapply loop_raises_runtime_error.
Qed.

(** X18.  With [max_attempts] at zero or below no attempt is made: the call
    fails at once with the aggregated error that names no cause, and the
    pipelines are not touched. *)
Theorem process_communication_without_attempts P (cfg : Config)
    (in_event_loop : bool) (text channel_type : string)
    (use_task_cache : bool) w :
  is_blank text = false ->
  is_blank channel_type = false ->
  (get_default (max_attempts cfg) 1 <= 0)%Z ->
  process_communication P cfg in_event_loop text channel_type use_task_cache w
  = (inl (RuntimeError
            ("Failed to process communication after "
             ++ str_of_Z (get_default (max_attempts cfg) 1%Z)
             ++ " attempts: Unknown error")),
     w,
     [LogFinalError
        ("Failed to process communication after "
         ++ str_of_Z (get_default (max_attempts cfg) 1%Z)
         ++ " attempts: Unknown error")]).
Proof.
  intros Htext Hchannel Hlimit. unfold process_communication.
  rewrite Htext, Hchannel. unfold retry.
  replace (Z.to_nat (get_default (max_attempts cfg) 1%Z)) with 0%nat by lia.
  reflexivity.
Qed.

Lemma process_communication_in_event_loop_single P (cfg : Config)
    (text channel_type : string) (use_task_cache : bool) w :
  is_blank text = false ->
  is_blank channel_type = false ->
  (1 < get_default (max_attempts cfg) 1)%Z ->
  (0 < get_default (backoff_factor cfg) 0)%Q ->
  fst (process_communication P cfg true text channel_type use_task_cache w)
  = match attempt P cfg text channel_type use_task_cache w with
    | (inr b, w1) => (inr b, w1)
    | (inl e, w1) => (inl (RuntimeError running_loop_message), w1)
    end.
Proof.
  intros Htext Hchannel Hlimit Hbackoff. unfold process_communication.
  rewrite Htext, Hchannel.
  rewrite loop_in_event_loop_single_attempt by done.
  by destruct (attempt P cfg text channel_type use_task_cache w) as [[e|b] w1].
Qed.

(** X19.  Called from inside a running event loop with retries and a positive
    back-off configured, [process_communication] never retries: it makes
    one attempt and turns its exception into the RuntimeError of
    [asyncio.run]. *)
Theorem process_communication_in_event_loop_is_one_attempt P (cfg : Config)
    (text channel_type : string) (use_task_cache : bool) w :
  is_blank text = false ->
  is_blank channel_type = false ->
  (1 < get_default (max_attempts cfg) 1)%Z ->
  (0 < get_default (backoff_factor cfg) 0)%Q ->
  fst (process_communication P cfg true text channel_type use_task_cache w)
  = match attempt P cfg text channel_type use_task_cache w with
    | (inr b, w1) => (inr b, w1)
    | (inl e, w1) => (inl (RuntimeError running_loop_message), w1)
    end.
Proof. apply process_communication_in_event_loop_single. Qed.


End ProcessCommunicationEdges.

Lemma process_communication_raises_value_or_runtime_error_witness :
  exists last,
    RuntimeError
      "Failed to process communication after 1 attempts: model inference failed"
    = RuntimeError (CommunicationProcessor.failure_message 1 last).
Proof.
  destruct (process_communication_raises_value_or_runtime_error
              CommunicationProcessor.broken_pipelines
              CommunicationProcessor.default_config false
              "call Alice" "chat" true (init_state 4 tt)
              (RuntimeError
                 "Failed to process communication after 1 attempts: model inference failed")
              (snd (fst (CommunicationProcessor.process_communication
                           CommunicationProcessor.broken_pipelines
                           CommunicationProcessor.default_config false
                           "call Alice" "chat" true (init_state 4 tt))))
              (snd (CommunicationProcessor.process_communication
                      CommunicationProcessor.broken_pipelines
                      CommunicationProcessor.default_config false
                      "call Alice" "chat" true (init_state 4 tt)))
              eq_refl)
    as [(Hb & _)|[(_ & Hb & _)|(_ & _ & [H|[Hloop _]])]].
  - discriminate Hb.
  - discriminate Hb.
  - exact H.
  - discriminate Hloop.
Defined.

Lemma process_communication_without_attempts_witness :
  CommunicationProcessor.process_communication
    CommunicationProcessor.flaky_pipelines
    (CommunicationProcessor.mkConfig None None (Some 0%Z) None) false
    "Please ask Alice" "email" true (init_state 4 0%nat)
  = (inl (RuntimeError
            "Failed to process communication after 0 attempts: Unknown error"),
     init_state 4 0%nat,
     [CommunicationProcessor.LogFinalError
        "Failed to process communication after 0 attempts: Unknown error"]).
Proof.
  apply (process_communication_without_attempts
           CommunicationProcessor.flaky_pipelines
           (CommunicationProcessor.mkConfig None None (Some 0%Z) None) false
           "Please ask Alice" "email" true (init_state 4 0%nat));
    [reflexivity | reflexivity | simpl; lia].
Defined.

Lemma process_communication_in_event_loop_is_one_attempt_witness :
  fst (fst (CommunicationProcessor.process_communication
              CommunicationProcessor.flaky_pipelines
              CommunicationProcessor.scenario_c_config true
              "Please ask Alice" "email" true (init_state 4 0%nat)))
  = inl (RuntimeError "asyncio.run() cannot be called from a running event loop").
Proof.
  rewrite (process_communication_in_event_loop_is_one_attempt
             CommunicationProcessor.flaky_pipelines
             CommunicationProcessor.scenario_c_config
             "Please ask Alice" "email" true (init_state 4 0%nat));
    [reflexivity | reflexivity | reflexivity | simpl; lia | reflexivity].
Defined.


(** ** TextProcessor.process_text: the fallbacks and the error handler *)

Section ProcessTextFacts.
Import TextProcessor.
Context {Env CleanOptions Syntax Dependency : Type}.
Implicit Types (T : Tools Env CleanOptions Syntax Dependency)
               (options : Options CleanOptions).

Lemma with_fallback_no_handler {A} T (context : string) (fallback : A)
    (r : result A) (env : Env) :
  error_handler T = None ->
  with_fallback T context fallback (r, env)
  = match r with
    | inr a => (inr a, env)
    | inl _ =>
        (inl (AttributeError "'NoneType' object has no attribute 'handle'"), env)
    end.
Proof.
  intros Hnone. unfold with_fallback, handle. rewrite Hnone. by destruct r.
Qed.


(** X21.  Without an error handler, as [CommunicationProcessor] builds the
    processor, the fallbacks are never taken: the call returns exactly
    when cleaning, embedding and the spaCy pipeline all succeed, and
    otherwise it raises the AttributeError of calling [handle] on
    [None], whatever the original exception was. *)
Theorem process_text_without_handler T (text : string) options (env : Env) :
  error_handler T = None ->
  (forall e, fst (process_text T text options env) = inl e ->
             e = AttributeError "'NoneType' object has no attribute 'handle'")
  /\ ((exists out, fst (process_text T text options env) = inr out)
      <-> exists clean_str emb e1 doc e2,
            clean_text T text (clean_text_options options) = inr clean_str
            /\ encode_text T clean_str (option_get (use_cache options) true)
                 (snd (now T env)) = (inr emb, e1)
            /\ nlp T clean_str e1 = (inr doc, e2)).
Proof.
  intros Hnone. unfold process_text.
  destruct (now T env) as [start_time env0]. simpl snd.
  rewrite (with_fallback_no_handler T _ _ _ _ Hnone).
  destruct (clean_text T text (clean_text_options options)) as [e0|clean_str].
  { simpl. split; [by intros e [= <-]|]. split.
    - by intros [out H].
    - by intros (s & emb & e1 & doc & e2 & H & _). }
  destruct (encode_text T clean_str (option_get (use_cache options) true) env0)
    as [[e0|emb] e1] eqn:Henc.
  { rewrite (with_fallback_no_handler T _ _ _ _ Hnone). simpl.
    split; [by intros e [= <-]|]. split.
    - by intros [out H].
    - intros (s & emb & e1' & doc & e2 & [= <-] & H & _).
      rewrite Henc in H. done. }
  rewrite (with_fallback_no_handler T _ _ _ _ Hnone).
  unfold extract_linguistic_features.
  destruct (nlp T clean_str e1) as [[e0|doc] e2] eqn:Hnlp.
  { rewrite (with_fallback_no_handler T _ _ _ _ Hnone). simpl.
    split; [by intros e [= <-]|]. split.
    - by intros [out H].
    - intros (s & emb' & e1' & doc & e2' & [= <-] & Henc' & H).
      rewrite Henc in Henc'. injection Henc' as <- <-.
      rewrite Hnlp in H. done. }
  rewrite (with_fallback_no_handler T _ _ _ _ Hnone).
  simpl. destruct (now T e2) as [end_time env3]. simpl.
  split; [done|]. split; [|by eexists].
  intros _. by exists clean_str, emb, e1, doc, e2.
Qed.


End ProcessTextFacts.

Section ProcessTextInPipeline.
Import CommunicationProcessor.
Context {Env CleanOptions Syntax Dependency ER : Type}.

(** X23.  The text processor of [CommunicationProcessor] has no error handler,
    so with the default single attempt a failure of the embedder
    reaches the caller as the aggregated RuntimeError whose cause is the
    AttributeError: the message of the embedder's exception is lost. *)
Theorem embedder_failure_surfaces_as_attribute_error
    (T : TextProcessor.Tools Env CleanOptions Syntax Dependency)
    (options_of : string -> TextProcessor.Options CleanOptions)
    (entities_of : string -> string -> Q -> Env -> result ER * Env)
    (E : TaskExtractor.Collaborators Env)
    (cfg : Config) (in_event_loop : bool) (text channel_type : string)
    (use_task_cache : bool) (w : TaskExtractor.state Env)
    (clean_str : string) (e : exn) (e1 : Env) :
  is_blank text = false ->
  is_blank channel_type = false ->
  max_attempts cfg = None ->
  TextProcessor.error_handler T = None ->
  TextProcessor.clean_text T text
    (TextProcessor.clean_text_options (options_of channel_type)) = inr clean_str ->
  TextProcessor.encode_text T clean_str
    (TextProcessor.option_get
       (TextProcessor.use_cache (options_of channel_type)) true)
    (snd (TextProcessor.now T (env w))) = (inl e, e1) ->
  fst (fst (process_communication
              (mkPipelines
                 (fun text channel_type env =>
                    TextProcessor.process_text T text (options_of channel_type) env)
                 entities_of E)
              cfg in_event_loop text channel_type use_task_cache w))
  = inl (RuntimeError
           "Failed to process communication after 1 attempts: 'NoneType' object has no attribute 'handle'").
Proof.
  intros Htext Hchannel Hlimit Hnone Hclean Henc.
  set (P := mkPipelines _ entities_of E).
  assert (Hattempt : exists w1,
            attempt P cfg text channel_type use_task_cache w
            = (inl (TextProcessor.AttributeError
                      "'NoneType' object has no attribute 'handle'"), w1)).
  { unfold attempt. unfold P at 1. cbn [process_text].
    unfold TextProcessor.process_text.
    destruct (TextProcessor.now T (env w)) as [start_time env0].
    simpl snd in Henc.
    rewrite (with_fallback_no_handler T _ _ _ _ Hnone), Hclean, Henc.
    rewrite (with_fallback_no_handler T _ _ _ _ Hnone).
    by eexists. }
  destruct Hattempt as [w1 Hattempt].
  unfold process_communication. rewrite Htext, Hchannel, Hlimit.
  unfold retry. change (Z.to_nat (get_default None 1%Z)) with 1%nat.
  cbn [attempt_loop]. rewrite Hattempt. reflexivity.
Qed.

End ProcessTextInPipeline.

Lemma process_text_without_handler_witness :
  fst (TextProcessor.process_text (TextProcessor.embedder_down None)
         "call Alice" (TextProcessor.mkOptions tt None None) tt)
  = inl (TextProcessor.AttributeError
           "'NoneType' object has no attribute 'handle'").
Proof.
  destruct (process_text_without_handler (TextProcessor.embedder_down None)
              "call Alice" (TextProcessor.mkOptions tt None None) tt eq_refl)
    as [H _].
  destruct (fst (TextProcessor.process_text (TextProcessor.embedder_down None)
                   "call Alice" (TextProcessor.mkOptions tt None None) tt))
    as [e|out] eqn:Hrun.
  - by rewrite (H e eq_refl).
  - discriminate Hrun.
Defined.


Lemma embedder_failure_surfaces_as_attribute_error_witness :
  fst (fst (CommunicationProcessor.process_communication
              (CommunicationProcessor.mkPipelines
                 (fun text channel_type env =>
                    TextProcessor.process_text (TextProcessor.embedder_down None)
                      text (TextProcessor.mkOptions tt None None) env)
                 (fun _ _ _ env => (ret tt, env))
                 (fixed_collaborators
                    (mkClassification (Some "TASK") (Some (9 # 10))) []))
              CommunicationProcessor.default_config false
              "call Alice" "chat" true (init_state 4 tt)))
  = inl (RuntimeError
           "Failed to process communication after 1 attempts: 'NoneType' object has no attribute 'handle'").
Proof.
  apply (embedder_failure_surfaces_as_attribute_error (ER:=unit)
           (TextProcessor.embedder_down None)
           (fun _ => TextProcessor.mkOptions tt None None)
           (fun _ _ _ env => (ret tt, env))
           (fixed_collaborators
              (mkClassification (Some "TASK") (Some (9 # 10))) [])
           CommunicationProcessor.default_config false "call Alice" "chat" true
           (init_state 4 tt) "call Alice"
           (RuntimeError "embedder unavailable") tt);
    reflexivity.
Defined.

(** ** EntityExtractor: the TTL cache, the filter and the batch size *)

Section EntityExtractorFacts.
Import EntityExtractor.
Context {Env : Type}.
Implicit Types (T : Tools Env) (st : state Env) (cfg : ExtractionConfig).

Lemma cache_get_put {V} (key : string) (v : V) (d : list (string * V)) :
  cache_get key (cache_put key v d) = Some v.
Proof.
  induction d as [|[k w] d IH]; simpl.
  - by rewrite String.eqb_refl.
  - destruct (String.eqb key k) eqn:Hk; simpl; by rewrite Hk.
Qed.

Lemma cache_get_filter_Some {V} (f : string * V -> bool) (key : string)
    (v : V) (d : list (string * V)) :
  cache_get key d = Some v -> f (key, v) = true ->
  cache_get key (List.filter f d) = Some v.
Proof.
  intros Hget Hf. induction d as [|[k w] d IH]; simpl in *; [done|].
  destruct (String.eqb_spec key k) as [->|Hne].
  - injection Hget as ->. rewrite Hf. simpl. by rewrite String.eqb_refl.
  - destruct (f (k, w)); [|by apply IH]. simpl.
    apply String.eqb_neq in Hne. rewrite Hne. by apply IH.
Qed.

Lemma filter_keeps {A} (f : A -> bool) (l : list A) :
  Forall (fun x => f x = true) (List.filter f l).
Proof.
  induction l as [|x l IH]; simpl; [constructor|].
  destruct (f x) eqn:Hx; [by constructor|done].
Qed.

Lemma cache_put_entries {V} (key : string) (v : V) (d : list (string * V))
    (P : string * V -> Prop) :
  Forall P d -> (forall k, k = key -> P (k, v)) -> Forall P (cache_put key v d).
Proof.
  intros Hd Hnew. induction Hd as [|[k w] d Hx Hd IH]; simpl.
  - constructor; [by apply Hnew|constructor].
  - destruct (String.eqb_spec key k) as [->|Hne].
    + constructor; [by apply Hnew|done].
    + by constructor.
Qed.

Lemma domain_type_mapped (ent : Entity) :
  domain_type ent <> "TASK" /\ domain_type ent <> "DATE"
  /\ domain_type ent <> "PERSON".
Proof.
  unfold domain_type.
  set (label := match ent_entity ent with Some s => s | None => "UNKNOWN" end).
  unfold entity_types. simpl.
  destruct (String.eqb_spec label "TASK") as [_|H1]; [by repeat split|].
  destruct (String.eqb_spec label "DATE") as [_|H2]; [by repeat split|].
  destruct (String.eqb_spec label "PERSON") as [_|H3]; [by repeat split|].
  by repeat split.
Qed.

(** The recognizer's front end returns only entities that reach the
    threshold it was given. *)
Lemma extract_entities_reach_threshold
    (infer : string -> Env -> result (list (string * string * Q)) * Env)
    (text : string) (threshold : Q) (e e' : Env) (raw : list Entity) :
  TaskNERModel.extract_entities infer text threshold e = (inr raw, e') ->
  forallb (fun ent => Qle_bool threshold (ent_confidence ent)) raw = true.
Proof.
  unfold TaskNERModel.extract_entities.
  destruct (is_blank text); [by intros [= <- _]|].
  destruct (infer text e) as [[err|predictions] e0]; [done|].
  intros [= <- _]. unfold TaskNERModel.process_model_outputs.
  apply forallb_forall. intros ent Hin.
  apply in_map_iff in Hin as ([[label token] conf] & <- & Hin).
  apply filter_In in Hin as [_ Hconf]. simpl.
  apply Qle_bool_iff. apply Qle_bool_iff in Hconf.
  destruct (Qeq_bool threshold 0) eqn:H0; [|done].
  apply Qeq_bool_eq in H0. rewrite H0. lra.
Qed.

Lemma processed_entities_spec (threshold : Q) (raw : list Entity) :
  Forall (fun ent =>
            (threshold <= ent_confidence ent)%Q
            /\ exists label,
                 ent_entity ent = Some label
                 /\ label <> "TASK" /\ label <> "DATE" /\ label <> "PERSON")
    (processed_entities threshold raw).
Proof.
  unfold processed_entities.
  induction raw as [|ent raw IH]; simpl; [constructor|].
  destruct (Qle_bool threshold (ent_confidence ent)) eqn:Hc; [|done].
  simpl. constructor; [|done]. simpl. split; [by apply Qle_bool_iff|].
  exists (domain_type ent). split; [done|]. apply domain_type_mapped.
Qed.

(** A look-up that finds an unexpired entry ends the call. *)
Lemma extract_task_entities_hit T (text channel_type : string) cfg st
    (stored_at : Q) (data : list Entity) (t0 : Q) (e0 : Env) (t1 : Q) (e1 : Env) :
  cache_get (cache_key T text channel_type cfg) (cache st)
  = Some (stored_at, data) ->
  now T (env st) = (t0, e0) ->
  now T e0 = (t1, e1) ->
  (t0 - stored_at <= inject_Z (cache_ttl T))%Q ->
  (t1 - stored_at <= inject_Z (cache_ttl T))%Q ->
  exists st',
    extract_task_entities T text channel_type cfg st = (inr data, st')
    /\ env st' = e1
    /\ metrics st' = metrics st
    /\ cache_get (cache_key T text channel_type cfg) (cache st')
       = Some (stored_at, data).
Proof.
  intros Hget Hnow0 Hnow1 Hfresh0 Hfresh1.
  unfold extract_task_entities, _prune_cache. rewrite Hnow0. simpl.
  rewrite (cache_get_filter_Some _ _ (stored_at, data) _ Hget).
  2:{ simpl. unfold expired. apply negb_true_iff.
      by apply Qlt_bool_false_iff. }
  rewrite Hnow1. apply Qle_bool_iff in Hfresh1. rewrite Hfresh1.
  eexists. split; [reflexivity|]. simpl. repeat split.
  apply cache_get_filter_Some; [done|].
  simpl. unfold expired. apply negb_true_iff. by apply Qlt_bool_false_iff.
Qed.

(** What the call does when the look-up does not end it. *)
Lemma extract_task_entities_falls_through T (text channel_type : string) cfg st :
  extract_task_entities T text channel_type cfg st
  = compute_entities T text channel_type cfg (_prune_cache T st)
  \/ (exists t e,
        now T (env (_prune_cache T st)) = (t, e)
        /\ extract_task_entities T text channel_type cfg st
           = compute_entities T text channel_type cfg
               (mkState (cache (_prune_cache T st))
                  (metrics (_prune_cache T st)) e))
  \/ (exists data st',
        extract_task_entities T text channel_type cfg st = (inr data, st')
        /\ cache st' = cache (_prune_cache T st)).
Proof.
  unfold extract_task_entities.
  destruct (cache_get _ (cache (_prune_cache T st))) as [[ts data]|]; [|by left].
  destruct (now T (env (_prune_cache T st))) as [t e] eqn:Hnow.
  destruct (Qle_bool (t - ts) (inject_Z (cache_ttl T))).
  - right. right. by eexists _, _.
  - right. left. by exists t, e.
Qed.

Lemma compute_entities_raises T (text channel_type : string) cfg st e st' :
  compute_entities T text channel_type cfg st = (inl e, st') ->
  is_blank text = false
  /\ clean_text T text
       (match cfg_lowercase cfg with Some b => b | None => true end)
       channel_type = inl e
  /\ st' = st.
Proof.
  unfold compute_entities.
  destruct (is_blank text); [done|].
  destruct (clean_text T text _ channel_type) as [e0|cleaned].
  { by intros [= <- <-]. }
  destruct (TaskNERModel.extract_entities _ _ _ _) as [[e0|raw] e1]; [done|].
  destruct (now T e1) as [t2 e2]. by destruct (now T e2).
Qed.

(** X24.  The recognizer never makes the call fail: the only exception
    [extract_task_entities] raises is the one [clean_text] raised on a
    text that is not blank, and then nothing has been stored. *)
Theorem extract_task_entities_raises_only_from_clean_text T
    (text channel_type : string) cfg st (e : exn) st' :
  extract_task_entities T text channel_type cfg st = (inl e, st') ->
  is_blank text = false
  /\ clean_text T text
       (match cfg_lowercase cfg with Some b => b | None => true end)
       channel_type = inl e
  /\ cache st' = cache (_prune_cache T st)
  /\ metrics st' = metrics st.
Proof.
  intros Hrun.
  assert (Hm : metrics (_prune_cache T st) = metrics st).
  { unfold _prune_cache. by destruct (now T (env st)). }
  destruct (extract_task_entities_falls_through T text channel_type cfg st)
    as [Heq|[(t & e0 & _ & Heq)|(data & st0 & Heq & _)]];
    rewrite Heq in Hrun; [| |done];
    apply compute_entities_raises in Hrun as (Hb & Hc & ->); by repeat split.
Qed.

(** X25.  When the recognizer raises, the call answers with no entities and
    stores nothing, so the failure is not remembered: the next call with
    the same arguments asks the recognizer again. *)
Theorem recognizer_failure_gives_empty_uncached_result T
    (text channel_type : string) cfg st (cleaned_text : string) (e : exn)
    (e1 : Env) :
  cache_get (cache_key T text channel_type cfg) (cache (_prune_cache T st))
  = None ->
  is_blank text = false ->
  clean_text T text
    (match cfg_lowercase cfg with Some b => b | None => true end)
    channel_type = inr cleaned_text ->
  is_blank cleaned_text = false ->
  infer T cleaned_text (env (_prune_cache T st)) = (inl e, e1) ->
  exists st',
    extract_task_entities T text channel_type cfg st = (inr [], st')
    /\ cache_get (cache_key T text channel_type cfg) (cache st') = None
    /\ cache st' = cache (_prune_cache T st)
    /\ metrics st' = metrics st
    /\ env st' = e1.
Proof.
  intros Hmiss Hblank Hclean Hcb Hinfer.
  assert (Hm : metrics (_prune_cache T st) = metrics st).
  { unfold _prune_cache. by destruct (now T (env st)). }
  unfold extract_task_entities. rewrite Hmiss.
  unfold compute_entities. rewrite Hblank, Hclean.
  unfold TaskNERModel.extract_entities. rewrite Hcb, Hinfer.
  eexists. split; [reflexivity|]. simpl. by repeat split.
Qed.

(** X26.  A computed answer is the recognizer's entities in their order,
    each with its token and its confidence, and with the label TASK,
    DATE or PERSON replaced by TaskEntity, DateEntity or PersonEntity
    (another label stays, an absent one becomes UNKNOWN); an entity
    below the threshold in force would be left out, and none is, the
    recognizer having applied the same threshold.  The answer is stored
    under the key of the call with the clock reading taken when it is
    stored, and one metric is recorded, with the length of the text,
    the number of entities and the channel. *)
Theorem computed_entities_are_filtered_and_stored T
    (text channel_type : string) cfg st (cleaned_text : string)
    (raw : list Entity) (e1 : Env) :
  cache_get (cache_key T text channel_type cfg) (cache (_prune_cache T st))
  = None ->
  is_blank text = false ->
  clean_text T text
    (match cfg_lowercase cfg with Some b => b | None => true end)
    channel_type = inr cleaned_text ->
  TaskNERModel.extract_entities (infer T) cleaned_text
    (match cfg_confidence_threshold cfg with
     | Some q => q
     | None => confidence_threshold T
     end)
    (env (_prune_cache T st)) = (inr raw, e1) ->
  let threshold :=
    match cfg_confidence_threshold cfg with
    | Some q => q
    | None => confidence_threshold T
    end in
  let relabel := fun ent =>
    let label := match ent_entity ent with Some s => s | None => "UNKNOWN" end in
    mkEntity
      (Some (if String.eqb label "TASK" then "TaskEntity"
             else if String.eqb label "DATE" then "DateEntity"
             else if String.eqb label "PERSON" then "PersonEntity"
             else label))
      (ent_token ent) (ent_confidence ent) in
  let ents :=
    map relabel
      (List.filter (fun ent => Qle_bool threshold (ent_confidence ent)) raw) in
  exists st',
    extract_task_entities T text channel_type cfg st = (inr ents, st')
    /\ ents = map relabel raw
    /\ Forall (fun ent =>
                 (threshold <= ent_confidence ent)%Q
                 /\ exists label,
                      ent_entity ent = Some label
                      /\ label <> "TASK" /\ label <> "DATE"
                      /\ label <> "PERSON")
         ents
    /\ (length ents <= length raw)%nat
    /\ cache st'
       = cache_put (cache_key T text channel_type cfg) (fst (now T e1), ents)
           (cache (_prune_cache T st))
    /\ cache_get (cache_key T text channel_type cfg) (cache st')
       = Some (fst (now T e1), ents)
    /\ metrics st'
       = metrics st
         ++ [mkMetric "extract_task_entities"
               (fst (now T (snd (now T e1)))) (String.length text)
               (length ents) channel_type]
    /\ length (metrics st') = S (length (metrics st))
    /\ env st' = snd (now T (snd (now T e1))).
Proof.
  intros Hmiss Hblank Hclean Hner threshold relabel ents.
  assert (Hm : metrics (_prune_cache T st) = metrics st).
  { unfold _prune_cache. by destruct (now T (env st)). }
  assert (Hents : processed_entities threshold raw = ents).
  { unfold processed_entities, ents. apply map_ext. intros ent.
    unfold relabel, domain_type, entity_types. cbn [cache_get].
    set (label := match ent_entity ent with Some s => s | None => "UNKNOWN" end).
    by destruct (String.eqb label "TASK"), (String.eqb label "DATE"),
      (String.eqb label "PERSON"). }
  assert (Hkept : List.filter
                    (fun ent => Qle_bool threshold (ent_confidence ent)) raw
                  = raw).
  { apply forallb_filter_id.
    apply (extract_entities_reach_threshold _ _ _ _ _ _ Hner). }
  unfold extract_task_entities. rewrite Hmiss.
  unfold compute_entities. rewrite Hblank, Hclean.
  fold threshold. fold threshold in Hner. rewrite Hner.
  destruct (now T e1) as [t2 e2]. cbn [fst snd].
  destruct (now T e2) as [t3 e3]. cbn [fst snd].
  rewrite Hents.
  eexists. split; [reflexivity|]. cbn [cache metrics env fst snd].
  split; [by unfold ents; rewrite Hkept|].
  split; [rewrite <- Hents; apply processed_entities_spec|].
  split.
  { unfold ents. rewrite length_map. apply List.filter_length_le. }
  split; [done|]. split; [apply cache_get_put|].
  split; [by rewrite Hm|]. split; [|done].
  rewrite length_app, Hm. simpl. lia.
Qed.

(** X27.  An entry that is within its time to live at both clock readings of
    the call is returned as it is: neither [clean_text] nor the
    recognizer is called, and nothing is recorded. *)
Theorem entity_cache_hit_within_ttl T (text channel_type : string) cfg st
    (stored_at : Q) (data : list Entity) (t0 : Q) (e0 : Env) (t1 : Q) (e1 : Env) :
  cache_get (cache_key T text channel_type cfg) (cache st)
  = Some (stored_at, data) ->
  now T (env st) = (t0, e0) ->
  now T e0 = (t1, e1) ->
  (t0 - stored_at <= inject_Z (cache_ttl T))%Q ->
  (t1 - stored_at <= inject_Z (cache_ttl T))%Q ->
  exists st',
    extract_task_entities T text channel_type cfg st = (inr data, st')
    /\ env st' = e1
    /\ metrics st' = metrics st
    /\ cache_get (cache_key T text channel_type cfg) (cache st')
       = Some (stored_at, data).
Proof. apply extract_task_entities_hit. Qed.

(** X28.  The key holds [hash(text)], not the text: a text with the same hash,
    channel and configuration as a cached one is answered with the
    cached entities of the other text, without being looked at. *)
Theorem entity_cache_is_keyed_by_hash T (text other_text channel_type : string)
    cfg st (stored_at : Q) (data : list Entity) (t0 : Q) (e0 : Env) (t1 : Q)
    (e1 : Env) :
  py_hash T other_text = py_hash T text ->
  cache_get (cache_key T text channel_type cfg) (cache st)
  = Some (stored_at, data) ->
  now T (env st) = (t0, e0) ->
  now T e0 = (t1, e1) ->
  (t0 - stored_at <= inject_Z (cache_ttl T))%Q ->
  (t1 - stored_at <= inject_Z (cache_ttl T))%Q ->
  exists st',
    extract_task_entities T other_text channel_type cfg st = (inr data, st')
    /\ env st' = e1
    /\ metrics st' = metrics st.
Proof.
  intros Hhash Hget Hnow0 Hnow1 Hfresh0 Hfresh1.
  assert (Hkey : cache_key T other_text channel_type cfg
                 = cache_key T text channel_type cfg).
  { unfold cache_key. by rewrite Hhash. }
  rewrite <- Hkey in Hget.
  destruct (extract_task_entities_hit T other_text channel_type cfg st
              stored_at data t0 e0 t1 e1 Hget Hnow0 Hnow1 Hfresh0 Hfresh1)
    as (st' & Hrun & Henv & Hmetrics & _).
  by exists st'.
Qed.

(** X29.  After a call the cache holds no entry that had expired when the
    call began: every entry is within its time to live at the first
    clock reading, or is the one the call has just stored. *)
Theorem entity_cache_holds_no_expired_entry T (text channel_type : string)
    cfg st :
  Forall (fun entry =>
            (fst (now T (env st)) - fst (snd entry)
             <= inject_Z (cache_ttl T))%Q
            \/ fst entry = cache_key T text channel_type cfg)
    (cache (snd (extract_task_entities T text channel_type cfg st))).
Proof.
  set (fresh := fun entry : string * (Q * list Entity) =>
                  (fst (now T (env st)) - fst (snd entry)
                   <= inject_Z (cache_ttl T))%Q
                  \/ fst entry = cache_key T text channel_type cfg).
  assert (Hpruned : Forall fresh (cache (_prune_cache T st))).
  { unfold _prune_cache. destruct (now T (env st)) as [t0 e0] eqn:Hnow. simpl.
    eapply Forall_impl; [apply filter_keeps|].
    intros entry Hkeep. left. unfold fresh. try rewrite Hnow. simpl.
    apply negb_true_iff in Hkeep. by apply Qlt_bool_false_iff in Hkeep. }
  assert (Hcompute : forall st0,
            cache st0 = cache (_prune_cache T st) ->
            Forall fresh
              (cache (snd (compute_entities T text channel_type cfg st0)))).
  { intros st0 Hst0. unfold compute_entities.
    destruct (is_blank text); [simpl; by rewrite Hst0|].
    destruct (clean_text T text _ channel_type) as [e|cleaned];
      [simpl; by rewrite Hst0|].
    destruct (TaskNERModel.extract_entities _ _ _ _) as [[e|raw] e1];
      [simpl; by rewrite Hst0|].
    destruct (now T e1) as [t2 e2]. destruct (now T e2) as [t3 e3]. simpl.
    apply cache_put_entries; [by rewrite Hst0|].
    intros k ->. by right. }
  destruct (extract_task_entities_falls_through T text channel_type cfg st)
    as [->|[(t & e0 & _ & ->)|(data & st0 & -> & Hcache)]].
  - by apply Hcompute.
  - by apply Hcompute.
  - simpl. by rewrite Hcache.
Qed.

End EntityExtractorFacts.

(** X30.  The size handed to the recognizer never exceeds the requested batch
    size.  It is at least 1 when the base size of the optimizer is
    positive or there is no text; with a base size of zero or less and
    some text it is not positive. *)
Theorem effective_batch_size_bounds (base_size : Z) (texts : list string)
    (batch_size : Z) :
  (0 < batch_size)%Z ->
  (EntityExtractor.effective_batch_size base_size texts batch_size
   <= batch_size)%Z
  /\ ((0 < base_size)%Z \/ texts = [] ->
      (1 <= EntityExtractor.effective_batch_size base_size texts batch_size)%Z)
  /\ ((base_size <= 0)%Z -> texts <> [] ->
      (EntityExtractor.effective_batch_size base_size texts batch_size
       <= 0)%Z).
Proof.
  intros Hpos. unfold EntityExtractor.effective_batch_size,
    EntityExtractor.optimize.
  destruct texts as [|t texts].
  - simpl. destruct (Z.ltb_spec batch_size 1) as [Hb|Hb]; [lia|].
    split; [lia|]. split; [lia|]. by intros _ Hne.
  - assert (Hn : (0 < Z.of_nat (length (t :: texts)))%Z) by (simpl; lia).
    destruct (Z.leb_spec (Z.of_nat (length (t :: texts))) 0) as [Hle|_];
      [lia|].
    destruct (Z.ltb_spec batch_size
                (Z.min base_size (Z.of_nat (length (t :: texts)))))
      as [Hb|Hb].
    + split; [lia|]. split; [lia|]. intros Hbase _. lia.
    + split; [lia|]. split.
      * intros [Hbase|Hnil]; [lia|done].
      * intros Hbase _. lia.
Qed.

Lemma extract_task_entities_raises_only_from_clean_text_witness :
  let T := EntityExtractor.mkTools (Env:=Q)
             (fun text => Z.of_nat (String.length text))
             (fun _ => "{}")
             (fun _ _ _ => raise (ValueError "cannot clean"))
             (fun _ t => (ret [], t))
             (fun t => (t, (t + 1)%Q))
             (1 # 2) 300 in
  EntityExtractor.clean_text T "call Alice" true "chat"
  = inl (ValueError "cannot clean").
Proof.
  intros T.
  destruct (extract_task_entities_raises_only_from_clean_text T
              "call Alice" "chat" (EntityExtractor.mkExtractionConfig None None)
              (EntityExtractor.mkState [] [] 0%Q)
              (ValueError "cannot clean")
              (snd (EntityExtractor.extract_task_entities T "call Alice" "chat"
                      (EntityExtractor.mkExtractionConfig None None)
                      (EntityExtractor.mkState [] [] 0%Q)))
              eq_refl) as (_ & H & _).
  exact H.
Defined.

Lemma recognizer_failure_gives_empty_uncached_result_witness :
  exists st',
    EntityExtractor.extract_task_entities EntityExtractor.failing_tools
      "call Alice" "chat" (EntityExtractor.mkExtractionConfig (Some false) None)
      (EntityExtractor.mkState [] [] 0%Q) = (inr [], st')
    /\ EntityExtractor.cache st' = [].
Proof.
  destruct (recognizer_failure_gives_empty_uncached_result
              EntityExtractor.failing_tools "call Alice" "chat"
              (EntityExtractor.mkExtractionConfig (Some false) None)
              (EntityExtractor.mkState [] [] 0%Q) "call Alice"
              (RuntimeError "model inference failed") (0 + 1)%Q)
    as (st' & Hrun & _ & Hcache & _); try reflexivity.
  exists st'. split; [exact Hrun | exact Hcache].
Defined.

Lemma computed_entities_are_filtered_and_stored_witness :
  exists st',
    EntityExtractor.extract_task_entities
      (EntityExtractor.ticking_tools
         [("TASK", "report", 9 # 10); ("ASSIGNEE", "alice", 4 # 5);
          ("DATE", "friday", 3 # 10)])
      "send the report" "email"
      (EntityExtractor.mkExtractionConfig (Some false) (Some (1 # 2)))
      (EntityExtractor.mkState [] [] 0%Q)
    = (inr [mkEntity (Some "TaskEntity") (Some "report") (9 # 10);
            mkEntity (Some "ASSIGNEE") (Some "alice") (4 # 5)], st')
    /\ EntityExtractor.cache st'
       = [("email::15::{}",
           ((0 + 1)%Q,
            [mkEntity (Some "TaskEntity") (Some "report") (9 # 10);
             mkEntity (Some "ASSIGNEE") (Some "alice") (4 # 5)]))]
    /\ EntityExtractor.metrics st'
       = [EntityExtractor.mkMetric "extract_task_entities" (0 + 1 + 1)%Q
            15 2 "email"].
Proof.
  destruct (computed_entities_are_filtered_and_stored
              (EntityExtractor.ticking_tools
                 [("TASK", "report", 9 # 10); ("ASSIGNEE", "alice", 4 # 5);
                  ("DATE", "friday", 3 # 10)])
              "send the report" "email"
              (EntityExtractor.mkExtractionConfig (Some false) (Some (1 # 2)))
              (EntityExtractor.mkState [] [] 0%Q) "send the report"
              [mkEntity (Some "TASK") (Some "report") (9 # 10);
               mkEntity (Some "ASSIGNEE") (Some "alice") (4 # 5)] (0 + 1)%Q)
    as (st' & Hrun & _ & _ & _ & Hcache & _ & Hmetrics & _); try reflexivity.
  exists st'. split; [exact Hrun|]. split; [exact Hcache | exact Hmetrics].
Defined.

Lemma entity_cache_hit_within_ttl_witness :
  exists st',
    EntityExtractor.extract_task_entities (EntityExtractor.ticking_tools [])
      "send the report" "email" (EntityExtractor.mkExtractionConfig None None)
      (EntityExtractor.mkState
         [("email::15::{}",
           (10%Q, [mkEntity (Some "TaskEntity") (Some "report") (9 # 10)]))]
         [] 100%Q)
    = (inr [mkEntity (Some "TaskEntity") (Some "report") (9 # 10)], st')
    /\ EntityExtractor.metrics st' = [].
Proof.
  destruct (entity_cache_hit_within_ttl (EntityExtractor.ticking_tools [])
              "send the report" "email"
              (EntityExtractor.mkExtractionConfig None None)
              (EntityExtractor.mkState
                 [("email::15::{}",
                   (10%Q, [mkEntity (Some "TaskEntity") (Some "report") (9 # 10)]))]
                 [] 100%Q)
              10%Q [mkEntity (Some "TaskEntity") (Some "report") (9 # 10)]
              100%Q (100 + 1)%Q (100 + 1)%Q (100 + 1 + 1)%Q)
    as (st' & Hrun & _ & Hmetrics & _); try reflexivity.
  - discriminate.
  - discriminate.
  - exists st'. split; [exact Hrun | exact Hmetrics].
Defined.

Lemma entity_cache_is_keyed_by_hash_witness :
  exists st',
    EntityExtractor.extract_task_entities (EntityExtractor.ticking_tools [])
      "hold the report" "email" (EntityExtractor.mkExtractionConfig None None)
      (EntityExtractor.mkState
         [("email::15::{}",
           (10%Q, [mkEntity (Some "TaskEntity") (Some "report") (9 # 10)]))]
         [] 100%Q)
    = (inr [mkEntity (Some "TaskEntity") (Some "report") (9 # 10)], st').
Proof.
  destruct (entity_cache_is_keyed_by_hash (EntityExtractor.ticking_tools [])
              "send the report" "hold the report" "email"
              (EntityExtractor.mkExtractionConfig None None)
              (EntityExtractor.mkState
                 [("email::15::{}",
                   (10%Q, [mkEntity (Some "TaskEntity") (Some "report") (9 # 10)]))]
                 [] 100%Q)
              10%Q [mkEntity (Some "TaskEntity") (Some "report") (9 # 10)]
              100%Q (100 + 1)%Q (100 + 1)%Q (100 + 1 + 1)%Q)
    as (st' & Hrun & _); try reflexivity.
  - discriminate.
  - discriminate.
  - exists st'. exact Hrun.
Defined.

Lemma effective_batch_size_bounds_witness :
  (EntityExtractor.effective_batch_size 0 five_texts 4 <= 0)%Z.
Proof.
  destruct (effective_batch_size_bounds 0 five_texts 4) as (_ & _ & H);
    [lia|].
  apply H; [lia | discriminate].
Defined.
